(* ===== verification/_CoqProject ===== *)
-Q . S2P
Prelude.v
Crtp.v
PQueue.v
Radio.v
ConnImpl.v
Worker.v
Safelink.v
Uri.v
Connection.v
Thread.v
