(* ===== verification/Prelude.v ===== *)
(** * A verification development of crazyflie-link-cpp (host link layer)

    The program.  [src/src/Connection.cpp] is the public [Connection]
    facade: its constructor parses a URI ([usb://N] or
    [radio://N|*/CH/RATE/ADDR|*]) with a [std::regex], fills a shared
    [ConnectionImpl] and registers it with the process-wide [USBManager],
    which hands radio connections to the [CrazyradioThread] of a dongle;
    [send] and [recv] move packets through the per-connection priority
    queues; [scan] probes every (datarate, channel) pair; the destructor
    detaches.  [src/src/CrazyradioThread.cpp] is the per-dongle worker:
    [addConnection] and [removeConnection] maintain the set of attached
    connections under [connections_mutex_] and start and stop the worker
    thread under [thread_mutex_]; [run] is the worker loop, which
    snapshots the set, then for every connection of the snapshot
    reconfigures the radio, chooses a frame (safelink handshake, queued
    packet or ping), sends it, updates the statistics and the safelink
    parity bits, and routes the acknowledgement payload either to
    [rssi_latest] or to the receive queue.

    The headers ([Packet.h], [ConnectionImpl.h], [Crazyradio.h],
    [CrazyradioThread.h], [USBManager.h]) are not part of [src/]; the data
    they declare is modelled from the specification (marked
    [spec_modelled] in the manifest) and kept as small as the code's uses
    of it.

    Files (in dependency order, one component each):
    - [Prelude]    this header, the notation scope [cf_scope] for the byte
                   operations of the code ([.&.], [.|.], [.<<.], [.>>.])
                   and for the error-propagating bind [x <- c ;; k], the
                   hint databases [cf] and [cfrw], and the generic lemmas
                   on bytes, lists and counters.
    - [Crtp]       the CRTP packet (spec-modelled): header byte with the
                   port, channel and safelink fields, payload, [seq],
                   [priority]; the queue order [packet_lt]; the fixed frames
                   [enableSafelink] and [ping] of [run].  The setters and
                   accessors of the header fields are inverse on every byte
                   (checked exhaustively on the 256 values).
    - [PQueue]     [std::priority_queue<Packet>] as a list kept in
                   descending queue order, with the library's contract
                   (push adds one element, top is greatest, pop removes the
                   top) and FIFO order among equal priorities; the contract
                   as a type class [PriorityQueue] with its laws, of which
                   the list model and a linear-scan reference queue are
                   instances.
    - [Radio]      the Crazyradio driver state (spec-modelled): the last
                   applied address, channel, datarate and ack mode, the
                   count of USB control transfers, and the environment
                   [send_fn] that answers [sendPacket] (a lossy channel, a
                   test script, a model of the firmware).
    - [ConnImpl]   [ConnectionImpl] and [Connection::Statistics], with the
                   field updates the code performs.
    - [Worker]     [CrazyradioThread::run] on one connection: [reconfigure]
                   (lines 113-129), the three senders (136-184), the
                   enqueueing of the result (186-205), the cycle
                   [con_cycle] and the pass [run_pass] over a snapshot
                   (107-206); the producer and consumer sides of the queues
                   ([Connection::send] 134-137, [recv] 150-165); the
                   interleavings of sends, cycles and receives on one
                   connection as a labelled step relation [con_step], and
                   scripted runs of them ([run_actions]); the type invariant
                   of a connection ([con_wf]: CRTP packets in both queues,
                   a byte in [rssi_latest]).
    - [Safelink]   the target's safelink receiver (firmware, not in the
                   repository; modelled from the specification) as the
                   radio's environment, with an air that may lose a frame
                   or its acknowledgement.
    - [Uri]        the regular expression of the constructor as an
                   executable matcher [uri_regex_match], its language
                   [uri_lang], and [std::stoi], [std::stoul(.., 16)] and
                   [std::to_string] on the strings the regular expression
                   lets through.
    - [Connection] the facade: [connection_ctor] (lines 13-65) as a value
                   of [CtorError + ConnectionImpl], the destructor's test,
                   [send], [recv] with their outcomes (done, null
                   dereference, blocking for ever), [scan] with an oracle
                   for the probes' first acknowledgement, [uri],
                   [statistics], [operator<<].
    - [Thread]     the [CrazyradioThread] object and its threads: the
                   worker and one owner per connection (the thread running
                   that [Connection]'s constructor and destructor), each
                   step one critical section; [tstep] computes the step of
                   the thread a scheduler picks and [trun] runs a schedule,
                   so every interleaving is a list of picks.

    What the theorems show (claim ids of the manifest):
    - the worker cycle (C1, C5, C27): one frame per cycle, the statistics
      counters and their invariant, the radio configured for the
      connection with one control transfer per changed setting; over
      every interleaving the statistics count the run exactly;
    - safelink (C3, C4, C20): a lost ack retransmits the same frame, an
      ack advances the queue and flips the up bit, the down bit flips on
      an echo; and a stale echo is still delivered (a divergence);
    - the queues over every interleaving of sends, cycles (with any
      acknowledgements) and receives from a fresh connection (C2, C6,
      C7): FIFO among equal priorities, nothing lost or duplicated, and
      [recv] returns the acknowledgement payloads in the order they came
      back; and (C23) any implementation of the [std::priority_queue]
      contract observes the same tops as the list model when keys are
      distinct, so the list model loses nothing;
    - the worker over whole runs (C24, C25, C26): the type invariant of a
      connection holds over every run whose acknowledgements fit a CRTP
      frame; the frame of a safelink transmission parses back to the
      queued packet with the parity bits; scenario S4 (sends of one
      priority go on the air in sending order, stamped 0, 1, 2, ..., one
      frame each, with an acking target);
    - safelink end to end (C29, C30, C31): over any losses and any number
      of cycles the target accepts every acknowledged frame exactly once
      and in order, plus at most the frame under retransmission; a send
      between two cycles breaks this: a packet sent after a lost ping is
      lost, and a packet of higher priority sent after a lost
      acknowledgement is lost while the one it preempts is accepted twice;
    - the facade (C8-C15, C21, C28): canonical URIs round-trip through the
      constructor, [uri()] is verbatim, the error paths ([*] address,
      out-of-range index, invalid [scan] address), the inverted
      [crazyflieUSB_] test of [send]/[recv], what [scan] probes and
      returns, and the bound on the channel ([int], not 0..125);
    - the thread (C16-C19, C22): with the code's wait predicate,
      [removeConnection] returns at once while the worker still serves
      the connection; an addition racing the last removal orphans a
      connection; the worker is gone whenever the set is empty and no
      removal is in progress; it exits within a pass once asked; the
      destructor, which joins without asking, never returns while the
      worker runs.

    Bounds and fuel.  There is no fuel in the model: every definition is
    structural.  The worker's progress is counted in its own steps:
    [worker_fuel] (the rest of the pass plus two) suffices to reach the
    next snapshot, and the theorems show it is enough, not only that a
    run that ends is right.  Integers: bytes are [Z] in [0, 256); the
    channel and index go through [std::stoi] with its [INT_MAX] bound;
    the address through [std::stoul] with [ULONG_MAX], and a canonical
    address has 40 bits; counters ([size_t] fields of [Statistics],
    [seq_]) are [nat], since a 64-bit counter needs 2^64 increments to
    wrap, which no run reaches.

    Not modelled.  [USBManager] (the registry choosing a dongle's thread;
    not under [src/]) and [CrazyflieUSB] (libusb I/O): the facade's USB
    branch is modelled by its outcome, not its transfers; the 1 ms sleep
    and the USB timeouts (no timing); the ordering of [std::set] by
    pointer value (the model orders by identifier: no theorem depends on
    the order of a pass); the memory model: each block under a mutex is
    one atomic step, and [thread_ending_], written under [thread_mutex_]
    and read under [connections_mutex_], is treated as if it were
    atomic; in the safelink receiver, the downlink parity and the ack
    payloads (its acknowledgements are empty).  [reconfigure] stores the
    channel as the [int] the constructor parsed; the parameter type of
    [Crazyradio::setChannel] is in a header outside [src/], so a
    narrowing of channels above 255 in the driver is not modelled.

    Caveats.  The theorems on the send and receive queues (C2, C6, C7,
    C23-C27, C29-C31) are about the queueing branch of [Connection::send]
    and [recv] (lines 134-137 and 150-165), which the inverted test of
    line 130 reaches only for [usb://] connections, that no worker
    serves (C11, C12): they state what the worker and the queues do,
    not what a radio connection of this code does.  [scan]'s probes are
    answered by an oracle [probe] that says whether a probe's first frame
    is acknowledged (the worker and the air behind it are not run): C14
    and C15 hold for every oracle, and C14 states the result in terms of
    its answers, as the probes that were acknowledged, in probe order. *)

From stdpp Require Export base list gmap.
From Stdlib Require Export ZArith Lia.

Declare Scope cf_scope.
Delimit Scope cf_scope with cf.
Infix ".&." := Z.land (at level 40, left associativity) : cf_scope.
Infix ".|." := Z.lor (at level 50, left associativity) : cf_scope.
Infix ".<<." := Z.shiftl (at level 30, no associativity) : cf_scope.
Infix ".>>." := Z.shiftr (at level 30, no associativity) : cf_scope.

(** Error propagation for code that throws: a computation is [inl e] when
    it threw [e] and [inr x] when it returned [x]. *)
Notation "x <- c ;; k" := (match c with inl e => inl e | inr x => k end)
  (at level 60, c at next level, right associativity) : cf_scope.

Create HintDb cf discriminated.
Create Rewrite HintDb cfrw.

(** ** Bytes *)

(** A [uint8_t] value. *)
Definition is_byte (z : Z) : bool := ((0 <=? z) && (z <? 256))%Z.

(** The [n] consecutive integers from [lo]. *)
Fixpoint zrange (lo : Z) (n : nat) : list Z :=
  match n with
  | O => []
  | S n' => lo :: zrange (lo + 1)%Z n'
  end.

Lemma zrange_complete (lo : Z) (n : nat) (z : Z) :
  (lo <= z < lo + Z.of_nat n)%Z -> In z (zrange lo n).
Proof.
  revert lo. induction n as [|n IH]; intros lo Hz; simpl; [lia|].
  destruct (Z.eq_dec lo z) as [->|Hne]; [by left|].
  right. apply IH. lia.
Qed.

(** A boolean property checked on every value of [0, n) holds on all of
    them: the lemmas on the bits of the header byte are proved by
    evaluating the check, one case per byte. *)
Lemma check_all_below (n : nat) (P : Z -> bool) :
  forallb P (zrange 0 n) = true -> forall z, (0 <= z < Z.of_nat n)%Z -> P z = true.
Proof.
  intros Hall z Hz. rewrite forallb_forall in Hall.
  apply Hall, zrange_complete. lia.
Qed.

Lemma check_all_below2 (n m : nat) (P : Z -> Z -> bool) :
  forallb (fun x => forallb (P x) (zrange 0 m)) (zrange 0 n) = true ->
  forall x y, (0 <= x < Z.of_nat n)%Z -> (0 <= y < Z.of_nat m)%Z -> P x y = true.
Proof.
  intros Hall x y Hx Hy.
  apply (check_all_below m (P x)); [|done].
  apply (check_all_below n (fun x => forallb (P x) (zrange 0 m))); done.
Qed.

Lemma is_byte_spec (z : Z) : is_byte z = true <-> (0 <= z < 256)%Z.
Proof. unfold is_byte. rewrite andb_true_iff, Z.leb_le, Z.ltb_lt. done. Qed.

(** ** Lists *)

Lemma Forall_snoc {A} (P : A -> Prop) (l : list A) (x : A) :
  Forall P (l ++ [x]) <-> Forall P l /\ P x.
Proof. rewrite Forall_app, Forall_singleton. done. Qed.

(** The number of elements of [l] satisfying [P]. *)
Lemma length_filter_le {A} (P : A -> Prop) `{forall x, Decision (P x)} (l : list A) :
  length (filter P l) <= length l.
Proof.
  induction l as [|x l IH]; [done|]. rewrite filter_cons.
  case_decide; simpl; lia.
Qed.

#[export] Hint Resolve length_filter_le : cf.

(** Pairwise order of a list, extended at its end. *)
Lemma ForallOrdPairs_snoc {A} (R : A -> A -> Prop) (l : list A) (x : A) :
  ForallOrdPairs R (l ++ [x]) <-> ForallOrdPairs R l /\ Forall (fun y => R y x) l.
Proof.
  induction l as [|y l IH]; simpl.
  - split; [intros _; split; constructor | intros _; repeat constructor].
  - split.
    + intros H. inversion H as [|? ? Hy Hl]; subst.
      apply IH in Hl as [Hl Hx]. apply Forall_app in Hy as [Hy Hyx].
      split; [by constructor|]. constructor; [by inversion Hyx|done].
    + intros [H Hx]. inversion H as [|? ? Hy Hl]; subst. inversion Hx; subst.
      constructor; [apply Forall_app; split; [done|by constructor]|]. apply IH. done.
Qed.
