(* ===== verification/PQueue.v ===== *)
(** [std::priority_queue<Packet>] as the connection's send and receive
    queues use it ([push], [top], [pop], [empty]), under [Packet]'s
    [operator<] ([packet_lt]).  The model keeps the elements in a list in
    descending queue order, so that [top] is the head; [pq_sorted] is its
    representation invariant.  The lemmas give the contract of
    [std::priority_queue]: [push] adds exactly one element, [top] is a
    greatest element, [pop] removes exactly the top; and the consequence
    the worker needs: among packets of equal priority the one with the
    smallest sequence number is served first.  The contract is also stated
    as an interface, the class [PriorityQueue] with [PriorityQueueLaws];
    the list model and a linear-scan reference queue are instances, and
    every lawful instance makes the same observations as the list model
    when the (priority, seq) keys are distinct. *)

From Stdlib Require Import Sorted.
From S2P Require Import Prelude.
From S2P Require Import Crtp.

Local Open Scope Z_scope.

(** ** Operations *)

(** [push]: insert after every element that is not smaller, so the list
    stays in descending order. *)
Fixpoint pq_push (p : Packet) (q : list Packet) : list Packet :=
  match q with
  | [] => [p]
  | x :: q' => if packet_lt x p then p :: x :: q' else x :: pq_push p q'
  end.

Definition pq_top (q : list Packet) : option Packet := head q.

Definition pq_pop (q : list Packet) : list Packet := tail q.

Definition pq_empty (q : list Packet) : bool :=
  match q with [] => true | _ => false end.

(** Descending queue order: no element is smaller than one after it. *)
Definition pq_sorted (q : list Packet) : Prop :=
  StronglySorted (fun a b => packet_lt a b = false) q.

(** ** The order *)

Lemma packet_lt_spec (a b : Packet) :
  packet_lt a b = true <->
  priority a < priority b \/ (priority a = priority b /\ (seq b < seq a)%nat).
Proof.
  unfold packet_lt. rewrite orb_true_iff, andb_true_iff, Z.ltb_lt, Z.eqb_eq, Nat.ltb_lt.
  done.
Qed.

Lemma packet_lt_false (a b : Packet) :
  packet_lt a b = false <->
  priority b < priority a \/ (priority a = priority b /\ (seq a <= seq b)%nat).
Proof.
  rewrite <- not_true_iff_false, packet_lt_spec. lia.
Qed.

Lemma packet_lt_irrefl (a : Packet) : packet_lt a a = false.
Proof. apply packet_lt_false. lia. Qed.

Lemma packet_nlt_trans (a b c : Packet) :
  packet_lt a b = false -> packet_lt b c = false -> packet_lt a c = false.
Proof. rewrite !packet_lt_false. lia. Qed.

Lemma packet_lt_nlt (a b : Packet) : packet_lt a b = true -> packet_lt b a = false.
Proof. rewrite packet_lt_spec, packet_lt_false. lia. Qed.

#[export] Hint Resolve packet_lt_irrefl packet_lt_nlt : cf.

(** ** The contract *)

Lemma pq_push_perm (p : Packet) (q : list Packet) : pq_push p q ≡ₚ p :: q.
Proof.
  induction q as [|x q IH]; simpl; [done|].
  destruct (packet_lt x p); [done|]. rewrite IH. apply Permutation_swap.
Qed.

Lemma pq_push_sorted (p : Packet) (q : list Packet) :
  pq_sorted q -> pq_sorted (pq_push p q).
Proof.
  unfold pq_sorted. induction 1 as [|x q Hs IH Hall]; simpl.
  - repeat constructor.
  - destruct (packet_lt x p) eqn:Hxp.
    + constructor; [by constructor|].
      constructor; [by apply packet_lt_nlt|].
      eapply Forall_impl; [exact Hall|]. intros y Hy.
      eapply packet_nlt_trans; [apply packet_lt_nlt, Hxp | exact Hy].
    + constructor; [exact IH|].
      rewrite pq_push_perm.
      by constructor.
Qed.

Lemma pq_pop_sorted (q : list Packet) : pq_sorted q -> pq_sorted (pq_pop q).
Proof. unfold pq_sorted. destruct 1; simpl; [constructor | done]. Qed.

Lemma pq_top_max (q : list Packet) (t : Packet) :
  pq_sorted q -> pq_top q = Some t -> forall x, x ∈ q -> packet_lt t x = false.
Proof.
  unfold pq_sorted. destruct 1 as [|y q _ Hall]; simpl; [done|].
  intros [= ->] x Hx. apply elem_of_cons in Hx as [->|Hx]; [apply packet_lt_irrefl|].
  rewrite Forall_forall in Hall. by apply Hall.
Qed.

Lemma pq_top_pop (q : list Packet) (t : Packet) :
  pq_top q = Some t -> q = t :: pq_pop q.
Proof. destruct q; simpl; congruence. Qed.

Lemma pq_empty_top (q : list Packet) : pq_empty q = true <-> pq_top q = None.
Proof. destruct q; simpl; split; congruence. Qed.

#[export] Hint Resolve pq_push_sorted pq_pop_sorted : cf.

(** Among queued packets of the top's priority, the top has the least
    sequence number: equal-priority packets leave in [seq] order. *)
Lemma pq_top_min_seq (q : list Packet) (t x : Packet) :
  pq_sorted q -> pq_top q = Some t -> x ∈ q -> priority x = priority t ->
  (seq t <= seq x)%nat.
Proof.
  intros Hs Ht Hx Hp. pose proof (pq_top_max q t Hs Ht x Hx) as H.
  apply packet_lt_false in H. lia.
Qed.

(** Pushing a packet than which no queued element is smaller appends it:
    packets of equal priority and growing [seq] queue up in that order. *)
Lemma pq_push_last (p : Packet) (q : list Packet) :
  Forall (fun x => packet_lt x p = false) q -> pq_push p q = q ++ [p].
Proof.
  induction 1 as [|x q Hx _ IH]; simpl; [done|]. by rewrite Hx, IH.
Qed.

Lemma elem_of_pq_push (x p : Packet) (q : list Packet) : x ∈ pq_push p q <-> x = p \/ x ∈ q.
Proof. rewrite pq_push_perm, elem_of_cons. done. Qed.

Lemma length_pq_push (p : Packet) (q : list Packet) : length (pq_push p q) = S (length q).
Proof. by rewrite pq_push_perm. Qed.

(** ** The contract as an interface

    What the connection's queues need of [std::priority_queue<Packet>],
    stated once for any implementation: a multiset of elements that
    [push] grows by one; [top] empty exactly on the empty queue; otherwise
    a greatest element, which [pop] removes.  The list model above is one
    instance; a binary heap, as the C++ library implements it, would be
    another.  The theorem [pq_model_observational] shows that the
    contract fixes everything observable when the packets' keys
    ([priority], [seq]) are distinct, as they are in the send queue and
    in the receive queue: then every implementation answers every
    sequence of [push]es and [pop]s with the same [top]s as the list
    model. *)

Class PriorityQueue (Q : Type) := {
  qelems : Q -> list Packet;
  qpush : Packet -> Q -> Q;
  qtop : Q -> option Packet;
  qpop : Q -> Q
}.

Class PriorityQueueLaws (Q : Type) `{PriorityQueue Q} : Prop := {
  law_push (p : Packet) (q : Q) : qelems (qpush p q) ≡ₚ p :: qelems q;
  law_top_none (q : Q) : qtop q = None <-> qelems q = [];
  law_pop_none (q : Q) : qtop q = None -> qelems (qpop q) = [];
  law_top_some (q : Q) (t : Packet) : qtop q = Some t ->
    qelems q ≡ₚ t :: qelems (qpop q) /\ forall x, x ∈ qelems q -> packet_lt t x = false
}.

(** A run of the queue: [push]es, and [pop]s each preceded by a look at
    [top], as both sides of the queues do it. *)
Inductive QOp := QPush (p : Packet) | QPop.

Fixpoint observe {Q} `{PriorityQueue Q} (ops : list QOp) (q : Q) : list (option Packet) :=
  match ops with
  | [] => []
  | QPush p :: ops' => observe ops' (qpush p q)
  | QPop :: ops' => qtop q :: observe ops' (qpop q)
  end.

Fixpoint pushed (ops : list QOp) : list Packet :=
  match ops with
  | [] => []
  | QPush p :: ops' => p :: pushed ops'
  | QPop :: ops' => pushed ops'
  end.

(** The order's key: [packet_lt] compares exactly these. *)
Definition pkey (p : Packet) : Z * nat := (priority p, seq p).

(** *** The list model as an instance *)

Record sorted_queue := mkSortedQueue { sq_list : list Packet; sq_sorted : pq_sorted sq_list }.

#[export] Instance sorted_queue_pq : PriorityQueue sorted_queue := {|
  qelems := sq_list;
  qpush p q := mkSortedQueue (pq_push p (sq_list q)) (pq_push_sorted p _ (sq_sorted q));
  qtop q := pq_top (sq_list q);
  qpop q := mkSortedQueue (pq_pop (sq_list q)) (pq_pop_sorted _ (sq_sorted q))
|}.

#[export] Instance sorted_queue_laws : PriorityQueueLaws sorted_queue.
Proof.
  split; cbn.
  - intros p q. apply pq_push_perm.
  - intros [[|x l] Hs]; cbn; split; congruence.
  - by intros [[|x l] Hs].
  - intros [l Hs] t Ht; cbn in *. split; [by rewrite <- (pq_top_pop l t Ht)|].
    by apply pq_top_max.
Qed.

(** The list model holding given elements. *)
Definition sq_of (l : list Packet) : sorted_queue :=
  mkSortedQueue (foldr pq_push [] l)
    (list_rec (fun l => pq_sorted (foldr pq_push [] l)) (SSorted_nil _)
       (fun p l H => pq_push_sorted p _ H) l).

Lemma sq_of_elems (l : list Packet) : qelems (sq_of l) ≡ₚ l.
Proof. cbn. induction l as [|p l IH]; cbn; [done|]. by rewrite pq_push_perm, IH. Qed.

(** *** The contract determines what is observed *)

Lemma packet_lt_both_false (a b : Packet) :
  packet_lt a b = false -> packet_lt b a = false -> pkey a = pkey b.
Proof. rewrite !packet_lt_false. unfold pkey. intros Ha Hb. f_equal; lia. Qed.

(** Distinct keys: a key names one element. *)
Lemma pkey_inj (l : list Packet) (x y : Packet) :
  NoDup (pkey <$> l) -> x ∈ l -> y ∈ l -> pkey x = pkey y -> x = y.
Proof.
  induction l as [|z l IH]; [set_solver|]. rewrite fmap_cons, NoDup_cons.
  intros [Hz Hnd] Hx Hy Hk.
  apply elem_of_cons in Hx as [->|Hx]; apply elem_of_cons in Hy as [->|Hy]; auto.
  - exfalso. apply Hz. rewrite Hk. by apply list_elem_of_fmap_2.
  - exfalso. apply Hz. rewrite <- Hk. by apply list_elem_of_fmap_2.
Qed.

Section Observational.
Context {Q1 Q2 : Type} `{PriorityQueueLaws Q1} `{PriorityQueueLaws Q2}.

(** Two lawful queues with the same elements, of distinct keys, show the
    same [top]. *)
Lemma qtop_determined (q1 : Q1) (q2 : Q2) :
  qelems q1 ≡ₚ qelems q2 -> NoDup (pkey <$> qelems q1) -> qtop q1 = qtop q2.
Proof.
  intros Hp Hnd. destruct (qtop q1) as [t1|] eqn:Hq1.
  - destruct (law_top_some q1 t1 Hq1) as [Hp1 Hg1].
    destruct (qtop q2) as [t2|] eqn:Hq2.
    + destruct (law_top_some q2 t2 Hq2) as [Hp2 Hg2].
      assert (Ht1 : t1 ∈ qelems q1) by (rewrite Hp1; left).
      assert (Ht2 : t2 ∈ qelems q1) by (rewrite Hp, Hp2; left).
      f_equal. apply (pkey_inj (qelems q1)); [done..|].
      apply packet_lt_both_false; [by apply Hg1|apply Hg2; by rewrite <- Hp].
    + apply law_top_none in Hq2. rewrite Hq2, Hp1 in Hp. symmetry in Hp.
      by apply Permutation_nil_cons in Hp.
  - apply law_top_none in Hq1. rewrite Hq1 in Hp. apply Permutation_nil in Hp.
    symmetry. by apply law_top_none.
Qed.

Lemma observe_equiv (ops : list QOp) (q1 : Q1) (q2 : Q2) :
  qelems q1 ≡ₚ qelems q2 -> NoDup (pkey <$> (qelems q1 ++ pushed ops)) ->
  observe ops q1 = observe ops q2.
Proof.
  revert q1 q2. induction ops as [|[p|] ops IH]; intros q1 q2 Hp Hnd; cbn; [done| |].
  - apply IH; [by rewrite !law_push, Hp|].
    rewrite law_push. cbn in Hnd.
    assert (E : (p :: qelems q1) ++ pushed ops ≡ₚ qelems q1 ++ p :: pushed ops)
      by (cbn; apply Permutation_middle).
    by rewrite E.
  - assert (Hnd1 : NoDup (pkey <$> qelems q1))
      by (rewrite fmap_app in Hnd; by apply NoDup_app in Hnd as [? _]).
    pose proof (qtop_determined q1 q2 Hp Hnd1) as Ht. rewrite Ht. f_equal.
    destruct (qtop q2) as [t|] eqn:Hq2.
    + destruct (law_top_some q1 t Ht) as [Hp1 _].
      destruct (law_top_some q2 t Hq2) as [Hp2 _].
      apply IH; [apply (Permutation_cons_inv (a := t)); by rewrite <- Hp1, <- Hp2|].
      rewrite Hp1 in Hnd. cbn in Hnd. by apply NoDup_cons in Hnd as [_ Hnd].
    + pose proof (law_pop_none q1 Ht) as E1. pose proof (law_pop_none q2 Hq2) as E2.
      apply IH; [by rewrite E1, E2|]. rewrite E1. rewrite fmap_app in Hnd |- *.
      by apply NoDup_app in Hnd as (_ & _ & Hnd).
Qed.

End Observational.

(** The list model is faithful to [std::priority_queue]: for every
    implementation of the contract (a binary heap as the C++ library has
    it, or any other), every run of [push]es and [pop]s over packets of
    distinct keys observes the same [top]s as the list model started on
    the same elements. *)
Theorem pq_model_observational {Q : Type} `{PriorityQueueLaws Q} (ops : list QOp) (q : Q) :
  NoDup (pkey <$> (qelems q ++ pushed ops)) -> observe ops q = observe ops (sq_of (qelems q)).
Proof. intros Hnd. apply observe_equiv; [symmetry; apply sq_of_elems|done]. Qed.

(** *** A reference implementation

    An unsorted list whose [top] is found by a linear scan and whose
    [pop] removes the first occurrence of it: the plainest reading of
    the contract. *)

#[export] Instance Packet_eq_dec : EqDecision Packet.
Proof. solve_decision. Defined.

Fixpoint ref_max (l : list Packet) : option Packet :=
  match l with
  | [] => None
  | x :: l' =>
      match ref_max l' with
      | None => Some x
      | Some m => Some (if packet_lt x m then m else x)
      end
  end.

Fixpoint remove_first (t : Packet) (l : list Packet) : list Packet :=
  match l with
  | [] => []
  | x :: l' => if decide (x = t) then l' else x :: remove_first t l'
  end.

Record ref_queue := RefQueue { rq_list : list Packet }.

#[export] Instance ref_queue_pq : PriorityQueue ref_queue := {|
  qelems := rq_list;
  qpush p q := RefQueue (p :: rq_list q);
  qtop q := ref_max (rq_list q);
  qpop q := RefQueue (match ref_max (rq_list q) with
                      | Some t => remove_first t (rq_list q)
                      | None => rq_list q
                      end)
|}.

Lemma ref_max_none (l : list Packet) : ref_max l = None <-> l = [].
Proof. destruct l as [|x l]; cbn; [done|]. by destruct (ref_max l). Qed.

Lemma ref_max_some (l : list Packet) (t : Packet) :
  ref_max l = Some t -> t ∈ l /\ forall x, x ∈ l -> packet_lt t x = false.
Proof.
  revert t. induction l as [|x l IH]; intros t; cbn; [done|].
  destruct (ref_max l) as [m|] eqn:Hm.
  - destruct (IH m eq_refl) as [Hin Hg]. destruct (packet_lt x m) eqn:Hxm; intros [= <-].
    + split; [by right|]. intros y [->|Hy]%elem_of_cons; [by apply packet_lt_nlt|auto].
    + split; [by left|]. intros y [->|Hy]%elem_of_cons; [apply packet_lt_irrefl|].
      eapply packet_nlt_trans; [exact Hxm|auto].
  - apply ref_max_none in Hm as ->. intros [= <-]. split; [by left|].
    intros y [->|Hy]%elem_of_cons; [apply packet_lt_irrefl|set_solver].
Qed.

Lemma remove_first_perm (t : Packet) (l : list Packet) : t ∈ l -> l ≡ₚ t :: remove_first t l.
Proof.
  induction l as [|x l IH]; [set_solver|]. intros Ht; cbn.
  case_decide as Hx; [by subst|].
  apply elem_of_cons in Ht as [->|Ht]; [done|]. rewrite (IH Ht) at 1. apply Permutation_swap.
Qed.

#[export] Instance ref_queue_laws : PriorityQueueLaws ref_queue.
Proof.
  split; cbn.
  - done.
  - intros q. apply ref_max_none.
  - intros q Hq. rewrite Hq. by apply ref_max_none.
  - intros q t Hq. rewrite Hq. destruct (ref_max_some _ _ Hq) as [Hin Hg].
    split; [by apply remove_first_perm|done].
Qed.

(** Three packets of one priority and one of a higher priority, pushed
    and popped interleaved. *)
Definition ex_ops : list QOp :=
  [QPush (mkPacket 0 [1] 0 0); QPush (mkPacket 0 [2] 1 0); QPop;
   QPush (mkPacket 0 [3] 2 5); QPush (mkPacket 0 [4] 3 0); QPop; QPop; QPop; QPop].

Example pq_model_observational_ex :
  observe ex_ops (RefQueue []) = observe ex_ops (sq_of (qelems (RefQueue []))).
Proof.
  apply (pq_model_observational (Q := ref_queue)). apply (bool_decide_unpack _). vm_compute. reflexivity.
Qed.
