(* ===== verification/Radio.v ===== *)
(** The Crazyradio driver of [Crazyradio.h] (not under [src/]; modelled
    from the specification, section 4.2) as [CrazyradioThread::run] uses it:
    the last applied address, channel, datarate and ack mode, read back by
    [address()], [channel()], [datarate()], [ackEnabled()] and written by
    the setters, each write one USB control transfer ([r_ctrl] counts
    them); and [sendPacket], which transmits a frame and returns an
    [Ack].  What the air and the targets answer is the environment: a state
    [E] and a function [send_fn] from the applied configuration, the frame
    and that state to the acknowledgement and the next state.  A test
    harness, a lossy channel or a model of the target firmware are all
    instances of it. *)

From S2P Require Import Prelude.

Local Open Scope Z_scope.

Inductive Datarate := Datarate_250KPS | Datarate_1MPS | Datarate_2MPS.

#[export] Instance Datarate_eq_dec : EqDecision Datarate.
Proof. solve_decision. Defined.

(** [Crazyradio::Ack]: [operator bool] is [ack_ok]; [data()]/[size()]
    are the acknowledgement payload. *)
Record Ack := mkAck { ack_ok : bool; ack_data : list Z }.

(** A default-constructed [Ack]: no acknowledgement. *)
Definition no_ack : Ack := mkAck false [].

(** What the radio transmits with: the configuration of one frame. *)
Record RadioCfg := mkCfg { cfg_address : Z; cfg_channel : Z; cfg_datarate : Datarate }.

#[export] Instance RadioCfg_eq_dec : EqDecision RadioCfg.
Proof. solve_decision. Defined.

Record Radio (E : Type) := mkRadio {
  r_address : Z;
  r_channel : Z;
  r_datarate : Datarate;
  r_ackEnabled : bool;
  r_ctrl : nat;       (** USB control transfers issued so far *)
  r_env : E           (** the air and the targets *)
}.
Arguments mkRadio {E}.
Arguments r_address {E}. Arguments r_channel {E}. Arguments r_datarate {E}.
Arguments r_ackEnabled {E}. Arguments r_ctrl {E}. Arguments r_env {E}.

Definition r_cfg {E} (r : Radio E) : RadioCfg :=
  mkCfg (r_address r) (r_channel r) (r_datarate r).

Section Driver.
Context {E : Type}.

Definition setAddress (r : Radio E) (a : Z) : Radio E :=
  mkRadio a (r_channel r) (r_datarate r) (r_ackEnabled r) (S (r_ctrl r)) (r_env r).
Definition setChannel (r : Radio E) (c : Z) : Radio E :=
  mkRadio (r_address r) c (r_datarate r) (r_ackEnabled r) (S (r_ctrl r)) (r_env r).
Definition setDatarate (r : Radio E) (d : Datarate) : Radio E :=
  mkRadio (r_address r) (r_channel r) d (r_ackEnabled r) (S (r_ctrl r)) (r_env r).
Definition setAckEnabled (r : Radio E) (b : bool) : Radio E :=
  mkRadio (r_address r) (r_channel r) (r_datarate r) b (S (r_ctrl r)) (r_env r).

Variable send_fn : RadioCfg -> list Z -> E -> Ack * E.

(** [sendPacket(data, size)]: one bulk transfer, answered by the
    environment under the applied configuration. *)
Definition sendPacket (r : Radio E) (frame : list Z) : Ack * Radio E :=
  let '(a, e') := send_fn (r_cfg r) frame (r_env r) in
  (a, mkRadio (r_address r) (r_channel r) (r_datarate r) (r_ackEnabled r) (r_ctrl r) e').

Lemma sendPacket_cfg (r : Radio E) (frame : list Z) :
  r_cfg (sendPacket r frame).2 = r_cfg r
  /\ r_ackEnabled (sendPacket r frame).2 = r_ackEnabled r
  /\ r_ctrl (sendPacket r frame).2 = r_ctrl r.
Proof. unfold sendPacket. by destruct (send_fn _ _ _). Qed.

End Driver.
