(* ===== verification/ConnImpl.v ===== *)
(** [ConnectionImpl] of [ConnectionImpl.h] and [Connection::Statistics]
    (not under [src/]; their fields are those [Connection.cpp] and
    [CrazyradioThread.cpp] read and write, modelled from the specification,
    section 3).  One value per logical connection, shared through a
    [std::shared_ptr] by the facade and the worker; the sharing is
    modelled in [Worker] and [Thread] by a store from connection
    identifiers to these records.  The setters below write one field
    group each, as the code's assignments do. *)

From stdpp Require Import strings.
From S2P Require Import Prelude.
From S2P Require Import Crtp.
From S2P Require Import Radio.

Local Open Scope Z_scope.

Record Statistics := mkStats {
  enqueued_count : nat;
  sent_count : nat;
  ack_count : nat;
  receive_count : nat;
  rssi_latest : Z
}.

Definition stats0 : Statistics := mkStats 0 0 0 0 0.

Record ConnectionImpl := mkConn {
  uri_ : string;
  devid_ : Z;
  crazyflieUSB_ : bool;      (** the [std::shared_ptr<CrazyflieUSB>] is set *)
  channel_ : Z;
  datarate_ : Datarate;
  address_ : Z;
  useSafelink_ : bool;
  safelinkInitialized_ : bool;
  safelinkUp_ : bool;
  safelinkDown_ : bool;
  queue_send_ : list Packet;
  queue_recv_ : list Packet;
  statistics_ : Statistics
}.

Definition con_cfg (c : ConnectionImpl) : RadioCfg :=
  mkCfg (address_ c) (channel_ c) (datarate_ c).

(** ** Field updates *)

Definition set_stats (c : ConnectionImpl) (s : Statistics) : ConnectionImpl :=
  mkConn (uri_ c) (devid_ c) (crazyflieUSB_ c) (channel_ c) (datarate_ c) (address_ c)
    (useSafelink_ c) (safelinkInitialized_ c) (safelinkUp_ c) (safelinkDown_ c)
    (queue_send_ c) (queue_recv_ c) s.

Definition set_queue_send (c : ConnectionImpl) (q : list Packet) : ConnectionImpl :=
  mkConn (uri_ c) (devid_ c) (crazyflieUSB_ c) (channel_ c) (datarate_ c) (address_ c)
    (useSafelink_ c) (safelinkInitialized_ c) (safelinkUp_ c) (safelinkDown_ c)
    q (queue_recv_ c) (statistics_ c).

Definition set_queue_recv (c : ConnectionImpl) (q : list Packet) : ConnectionImpl :=
  mkConn (uri_ c) (devid_ c) (crazyflieUSB_ c) (channel_ c) (datarate_ c) (address_ c)
    (useSafelink_ c) (safelinkInitialized_ c) (safelinkUp_ c) (safelinkDown_ c)
    (queue_send_ c) q (statistics_ c).

Definition set_safelink (c : ConnectionImpl) (init up down : bool) : ConnectionImpl :=
  mkConn (uri_ c) (devid_ c) (crazyflieUSB_ c) (channel_ c) (datarate_ c) (address_ c)
    (useSafelink_ c) init up down (queue_send_ c) (queue_recv_ c) (statistics_ c).

(** [++con->statistics_.sent_count] and its siblings. *)
Definition incr_sent (s : Statistics) : Statistics :=
  mkStats (enqueued_count s) (S (sent_count s)) (ack_count s) (receive_count s) (rssi_latest s).
Definition incr_ack (s : Statistics) : Statistics :=
  mkStats (enqueued_count s) (sent_count s) (S (ack_count s)) (receive_count s) (rssi_latest s).
Definition incr_receive (s : Statistics) : Statistics :=
  mkStats (enqueued_count s) (sent_count s) (ack_count s) (S (receive_count s)) (rssi_latest s).
Definition incr_enqueued (s : Statistics) : Statistics :=
  mkStats (S (enqueued_count s)) (sent_count s) (ack_count s) (receive_count s) (rssi_latest s).
Definition set_rssi (s : Statistics) (v : Z) : Statistics :=
  mkStats (enqueued_count s) (sent_count s) (ack_count s) (receive_count s) v.

(** The fields fixed at construction: what the worker and the queues may
    not change (specification, section 3). *)
Definition con_identity (c : ConnectionImpl) :=
  (uri_ c, devid_ c, crazyflieUSB_ c, con_cfg c, useSafelink_ c).
