(* ===== verification/Worker.v ===== *)
(** The worker of [src/src/CrazyradioThread.cpp], [CrazyradioThread::run]:
    one transmit-and-ack cycle per attached connection ([con_cycle], lines
    113-205), built from the radio reconfiguration ([reconfigure], lines
    113-129), the three ways of choosing and sending a frame
    ([safelink_handshake], lines 136-141; [safelink_send], lines 142-165;
    [plain_send], lines 166-184) and the routing of the acknowledgement
    ([enqueue_result], lines 186-205); and one pass over a snapshot of the
    attached connections ([run_pass], lines 107-206) against a store of
    [ConnectionImpl]s shared with the facade.  The producer side of the
    send queue, the body of [Connection::send] under its queue mutex
    ([queue_send_push], [Connection.cpp] lines 134-137), is here too,
    since the ordering theorems interleave it with the worker.

    Every cycle reports what it did as labels: the frame it sent with the
    acknowledgement it got ([LTx]), the packet it removed from the send
    queue ([LPop]), an RSSI sample ([LRssi]) and a packet it pushed on the
    receive queue ([LRecv]).  The theorems relate the statistics, the
    queues and the safelink bits to these labels. *)

From stdpp Require Import strings.
From S2P Require Import Prelude.
From S2P Require Import Crtp.
From S2P Require Import PQueue.
From S2P Require Import Radio.
From S2P Require Import ConnImpl.

Local Open Scope Z_scope.
Local Open Scope cf_scope.

Inductive Label :=
| LTx (cfg : RadioCfg) (frame : list Z) (ack : Ack)
| LPop (p : Packet)
| LRssi (v : Z)
| LRecv (p : Packet)
| LDeq (p : Packet).

(** The result of one step of the worker on one connection. *)
Record Step (E : Type) := mkStep {
  st_radio : Radio E;
  st_con : ConnectionImpl;
  st_ack : Ack;
  st_labels : list Label
}.
Arguments mkStep {E}.
Arguments st_radio {E}. Arguments st_con {E}. Arguments st_ack {E}. Arguments st_labels {E}.

(** [Connection::send] for a queued connection, lines 134-137:
    [p.seq_ = enqueued_count; queue_send_.push(p); ++enqueued_count]. *)
Definition queue_send_push (c : ConnectionImpl) (p : Packet) : ConnectionImpl :=
  let s := statistics_ c in
  set_stats (set_queue_send c (pq_push (set_seq p (enqueued_count s)) (queue_send_ c)))
    (incr_enqueued s).

(** Lines 146-152: the frame of an initialised safelink connection, the
    queue's top or a ping, with its safelink bits overwritten by
    [safelinkUp_ << 1 | safelinkDown_]. *)
Definition safelink_packet (c : ConnectionImpl) : Packet :=
  let p := match pq_top (queue_send_ c) with Some t => t | None => of_raw ping end in
  setSafelink p (safelink_bits (safelinkUp_ c) (safelinkDown_ c)).

(** [Packet result;]: what a non-blocking [recv] returns on an empty
    queue. *)
Definition empty_packet : Packet := mkPacket 0 [] 0 default_priority.

(** [Connection::recv] on a queued connection, lines 156-165 (and 150-154
    once the wait is over): take the top of the receive queue under its
    mutex. *)
Definition recv_pop (c : ConnectionImpl) : ConnectionImpl * Packet :=
  match pq_top (queue_recv_ c) with
  | Some t => (set_queue_recv c (pq_pop (queue_recv_ c)), t)
  | None => (c, empty_packet)
  end.

(** What a non-blocking [recv] reports (lines 158-164): nothing when the
    queue is empty, else the packet it returned. *)
Definition recv_labels (c : ConnectionImpl) : list Label :=
  if pq_empty (queue_recv_ c) then [] else [LDeq (recv_pop c).2].

(** [recv] returns the top of the receive queue when there is one. *)
Lemma recv_labels_top (c : ConnectionImpl) :
  recv_labels c = match pq_top (queue_recv_ c) with Some t => [LDeq t] | None => [] end.
Proof. unfold recv_labels, recv_pop, pq_empty. by destruct (queue_recv_ c). Qed.

Section Cycle.
Context {E : Type}.
Variable send_fn : RadioCfg -> list Z -> E -> Ack * E.

(** Lines 113-129: write only the settings that differ from the cached
    ones, then make sure acknowledgements are enabled. *)
Definition reconfigure (r : Radio E) (c : ConnectionImpl) : Radio E :=
  let r1 := if decide (r_address r = address_ c) then r else setAddress r (address_ c) in
  let r2 := if decide (r_channel r1 = channel_ c) then r1 else setChannel r1 (channel_ c) in
  let r3 := if decide (r_datarate r2 = datarate_ c) then r2 else setDatarate r2 (datarate_ c) in
  if r_ackEnabled r3 then r3 else setAckEnabled r3 true.

(** [ack = radio.sendPacket(frame, n); ++con->statistics_.sent_count;] *)
Definition transmit (r : Radio E) (c : ConnectionImpl) (frame : list Z) : Step E :=
  let res := sendPacket send_fn r frame in
  mkStep res.2 (set_stats c (incr_sent (statistics_ c))) res.1 [LTx (r_cfg r) frame res.1].

(** Lines 136-141: safelink requested, not yet initialised. *)
Definition safelink_handshake (r : Radio E) (c : ConnectionImpl) : Step E :=
  let s := transmit r c enableSafelink in
  let c1 := st_con s in
  if ack_ok (st_ack s)
  then mkStep (st_radio s) (set_safelink c1 true (safelinkUp_ c1) (safelinkDown_ c1))
         (st_ack s) (st_labels s)
  else s.

(** The test of line 155: the acknowledgement carries a payload whose
    bit 2 equals our [safelinkDown_]. *)
Definition down_matches (a : Ack) (down : bool) : bool :=
  ack_ok a && match ack_data a with
              | [] => false
              | b0 :: _ => (b0 .&. 4) =? (Z.b2z down .<<. 2)
              end.

(** Lines 142-165: safelink initialised.  The frame is the queue's top
    (or a ping) with its safelink bits overwritten by
    [safelinkUp_ << 1 | safelinkDown_]. *)
Definition safelink_send (r : Radio E) (c : ConnectionImpl) : Step E :=
  let s := transmit r c (raw (safelink_packet c)) in
  let c1 := st_con s in
  let a := st_ack s in
  let c2 := if down_matches a (safelinkDown_ c1)
            then set_safelink c1 (safelinkInitialized_ c1) (safelinkUp_ c1) (negb (safelinkDown_ c1))
            else c1 in
  if ack_ok a then
    let c3 := set_safelink c2 (safelinkInitialized_ c2) (negb (safelinkUp_ c2)) (safelinkDown_ c2) in
    match pq_top (queue_send_ c3) with
    | Some t => mkStep (st_radio s) (set_queue_send c3 (pq_pop (queue_send_ c3))) a
                  (st_labels s ++ [LPop t])
    | None => mkStep (st_radio s) c3 a (st_labels s)
    end
  else mkStep (st_radio s) c2 a (st_labels s).

(** Lines 166-184: no safelink.  Send the top and pop it on an ack, or
    send a ping. *)
Definition plain_send (r : Radio E) (c : ConnectionImpl) : Step E :=
  match pq_top (queue_send_ c) with
  | Some p =>
      let s := transmit r c (raw p) in
      if ack_ok (st_ack s)
      then mkStep (st_radio s) (set_queue_send (st_con s) (pq_pop (queue_send_ (st_con s))))
             (st_ack s) (st_labels s ++ [LPop p])
      else s
  | None => transmit r c ping
  end.

End Cycle.

(** [p_ack.port() == 15 && p_ack.channel() == 3]: a link-control frame. *)
Definition is_rssi_frame (p : Packet) : bool := (port p =? 15) && (channel p =? 3).

(** [p_ack.data()[1]]: the byte after the header.  A shorter
    acknowledgement leaves the value unspecified by the code; the model
    reads 0. *)
Definition rssi_byte (data : list Z) : Z := nth 1 data 0.

(** Lines 186-205: count the ack, then either record the RSSI sample or
    push the payload, numbered by [receive_count], on the receive queue. *)
Definition enqueue_result (c : ConnectionImpl) (a : Ack) : ConnectionImpl * list Label :=
  if ack_ok a then
    let c1 := set_stats c (incr_ack (statistics_ c)) in
    let p_ack := of_raw (ack_data a) in
    if is_rssi_frame p_ack then
      let v := rssi_byte (ack_data a) in
      (set_stats c1 (set_rssi (statistics_ c1) v), [LRssi v])
    else
      let p := set_seq p_ack (receive_count (statistics_ c1)) in
      (set_stats (set_queue_recv c1 (pq_push p (queue_recv_ c1))) (incr_receive (statistics_ c1)),
       [LRecv p])
  else (c, []).

Section Pass.
Context {E : Type}.
Variable send_fn : RadioCfg -> list Z -> E -> Ack * E.

(** Lines 113-205: the body of the loop over the snapshot. *)
Definition con_cycle (r : Radio E) (c : ConnectionImpl) : Radio E * ConnectionImpl * list Label :=
  let r0 := reconfigure r c in
  let s := if useSafelink_ c
           then (if safelinkInitialized_ c then safelink_send send_fn r0 c
                 else safelink_handshake send_fn r0 c)
           else plain_send send_fn r0 c in
  let '(c', l) := enqueue_result (st_con s) (st_ack s) in
  (st_radio s, c', st_labels s ++ l).

(** Lines 107-206: one cycle for every connection of the snapshot, in the
    snapshot's order, each on the shared record the store holds.  The
    labels are tagged with the connection they belong to. *)
Fixpoint run_pass (r : Radio E) (store : gmap nat ConnectionImpl) (snap : list nat)
  : Radio E * gmap nat ConnectionImpl * list (nat * Label) :=
  match snap with
  | [] => (r, store, [])
  | i :: rest =>
      match store !! i with
      | Some c =>
          let '(r1, c1, l) := con_cycle r c in
          let '(r2, st2, l2) := run_pass r1 (<[i := c1]> store) rest in
          (r2, st2, map (pair i) l ++ l2)
      | None => run_pass r store rest
      end
  end.

End Pass.

(** ** Labels *)

Definition is_tx (l : Label) : bool := match l with LTx _ _ _ => true | _ => false end.
Definition is_acked_tx (l : Label) : bool := match l with LTx _ _ a => ack_ok a | _ => false end.
Definition is_pop (l : Label) : bool := match l with LPop _ => true | _ => false end.
Definition is_rssi (l : Label) : bool := match l with LRssi _ => true | _ => false end.
Definition is_recv (l : Label) : bool := match l with LRecv _ => true | _ => false end.

Definition count (f : Label -> bool) (l : list Label) : nat := length (List.filter f l).

(** The packets the worker removed from the send queue, in order. *)
Fixpoint popped (l : list Label) : list Packet :=
  match l with
  | [] => []
  | LPop p :: l' => p :: popped l'
  | _ :: l' => popped l'
  end.

(** The packets the worker pushed on the receive queue, in order. *)
Fixpoint received (l : list Label) : list Packet :=
  match l with
  | [] => []
  | LRecv p :: l' => p :: received l'
  | _ :: l' => received l'
  end.

(** The packets [recv] handed to the application, in order. *)
Fixpoint dequeued (l : list Label) : list Packet :=
  match l with
  | [] => []
  | LDeq p :: l' => p :: dequeued l'
  | _ :: l' => dequeued l'
  end.

(** The frames the worker put on the air, with their acks. *)
Fixpoint transmissions (l : list Label) : list (RadioCfg * list Z * Ack) :=
  match l with
  | [] => []
  | LTx cfg f a :: l' => (cfg, f, a) :: transmissions l'
  | _ :: l' => transmissions l'
  end.

Lemma count_app (f : Label -> bool) (l1 l2 : list Label) :
  count f (l1 ++ l2) = (count f l1 + count f l2)%nat.
Proof. unfold count. by rewrite List.filter_app, length_app. Qed.

Lemma popped_app (l1 l2 : list Label) : popped (l1 ++ l2) = popped l1 ++ popped l2.
Proof. induction l1 as [|[] l1 IH]; simpl; by rewrite ?IH. Qed.

Lemma received_app (l1 l2 : list Label) : received (l1 ++ l2) = received l1 ++ received l2.
Proof. induction l1 as [|[] l1 IH]; simpl; by rewrite ?IH. Qed.

Lemma count_is_recv (l : list Label) : count is_recv l = length (received l).
Proof. unfold count. induction l as [|[] l IH]; simpl; lia. Qed.

Lemma dequeued_app (l1 l2 : list Label) : dequeued (l1 ++ l2) = dequeued l1 ++ dequeued l2.
Proof. induction l1 as [|[] l1 IH]; simpl; by rewrite ?IH. Qed.

Lemma transmissions_app (l1 l2 : list Label) :
  transmissions (l1 ++ l2) = transmissions l1 ++ transmissions l2.
Proof. induction l1 as [|[] l1 IH]; simpl; by rewrite ?IH. Qed.

Lemma labels_of_pops (pops : list Packet) :
  popped (map LPop pops) = pops /\ received (map LPop pops) = [] /\
  transmissions (map LPop pops) = [] /\ dequeued (map LPop pops) = [].
Proof. induction pops as [|p pops IH]; simpl; [done|]. destruct IH as (-> & -> & -> & ->). done. Qed.

#[export] Hint Rewrite count_app popped_app received_app dequeued_app transmissions_app : cfrw.

(** Reduce projections of the field updates of [ConnImpl]. *)
Ltac simpl_con :=
  cbn [statistics_ queue_send_ queue_recv_ safelinkUp_ safelinkDown_ safelinkInitialized_
       useSafelink_ uri_ devid_ crazyflieUSB_ channel_ datarate_ address_
       set_stats set_queue_send set_queue_recv set_safelink
       enqueued_count sent_count ack_count receive_count rssi_latest
       incr_sent incr_ack incr_receive incr_enqueued set_rssi
       st_radio st_con st_ack st_labels count List.filter length is_tx is_acked_tx
       is_pop is_rssi is_recv popped received transmissions app] in *.

(** ** The three senders *)

(** What every sender does to the connection besides its own branch: the
    statistics gain exactly one [sent_count], and the labels are one
    transmission with the sender's ack followed by the popped packets. *)
Definition radio_same {E} (r r' : Radio E) : Prop :=
  r_cfg r' = r_cfg r /\ r_ackEnabled r' = r_ackEnabled r /\ r_ctrl r' = r_ctrl r.

Definition sender_spec {E} (r : Radio E) (c : ConnectionImpl) (s : Step E) : Prop :=
  statistics_ (st_con s) = incr_sent (statistics_ c) /\
  queue_recv_ (st_con s) = queue_recv_ c /\
  con_identity (st_con s) = con_identity c /\
  radio_same r (st_radio s) /\
  exists f pops, st_labels s = LTx (r_cfg r) f (st_ack s) :: map LPop pops.

Section Senders.
Context {E : Type}.
Variable send_fn : RadioCfg -> list Z -> E -> Ack * E.

Lemma transmit_spec (r : Radio E) (c : ConnectionImpl) (f : list Z) :
  sender_spec r c (transmit send_fn r c f).
Proof.
  unfold transmit; simpl_con. split_and!; try done; [apply sendPacket_cfg..|]. by exists f, [].
Qed.

Lemma safelink_handshake_spec (r : Radio E) (c : ConnectionImpl) :
  sender_spec r c (safelink_handshake send_fn r c).
Proof.
  unfold safelink_handshake. pose proof (transmit_spec r c enableSafelink) as H.
  destruct (ack_ok _); [|exact H].
  destruct H as (Hs & Hq & Hi & Hr & f & pops & Hl). simpl_con.
  split_and!; [done|done| |done|by exists f, pops]. by rewrite <- Hi.
Qed.

Lemma safelink_send_spec (r : Radio E) (c : ConnectionImpl) :
  sender_spec r c (safelink_send send_fn r c).
Proof.
  unfold safelink_send.
  match goal with |- context [transmit send_fn r c ?f] =>
    pose proof (transmit_spec r c f) as (Hs & Hq & Hi & Hr & f' & pops & Hl);
    destruct (transmit send_fn r c f) as [r1 c1 a l] end.
  simpl_con. subst l.
  repeat case_match; simpl_con; (split_and!; [done|done| |done|]);
    solve [ by rewrite <- Hi
          | by exists f', pops
          | match goal with t : Packet |- _ =>
              exists f', (pops ++ [t]); by rewrite map_app, app_comm_cons end ].
Qed.

Lemma plain_send_spec (r : Radio E) (c : ConnectionImpl) :
  sender_spec r c (plain_send send_fn r c).
Proof.
  unfold plain_send. destruct (pq_top (queue_send_ c)) as [p|]; [|apply transmit_spec].
  pose proof (transmit_spec r c (raw p)) as (Hs & Hq & Hi & Hr & f & pops & Hl).
  destruct (transmit send_fn r c (raw p)) as [r1 c1 a l]. simpl_con.
  destruct (ack_ok a); simpl_con; (split_and!; [done|done| |done|]);
    solve [ by rewrite <- Hi
          | by exists f, pops
          | exists f, (pops ++ [p]); subst l; by rewrite map_app, app_comm_cons ].
Qed.

End Senders.

(** ** Routing the acknowledgement *)

Definition b2n (b : bool) : nat := if b then 1%nat else 0%nat.

Lemma enqueue_result_spec (c : ConnectionImpl) (a : Ack) :
  let '(c', l) := enqueue_result c a in
  queue_send_ c' = queue_send_ c /\ con_identity c' = con_identity c /\
  (safelinkInitialized_ c', safelinkUp_ c', safelinkDown_ c')
    = (safelinkInitialized_ c, safelinkUp_ c, safelinkDown_ c) /\
  sent_count (statistics_ c') = sent_count (statistics_ c) /\
  enqueued_count (statistics_ c') = enqueued_count (statistics_ c) /\
  ack_count (statistics_ c') = (ack_count (statistics_ c) + b2n (ack_ok a))%nat /\
  receive_count (statistics_ c') = (receive_count (statistics_ c) + count is_recv l)%nat /\
  b2n (ack_ok a) = (count is_recv l + count is_rssi l)%nat /\
  count is_tx l = 0%nat /\ popped l = [] /\ transmissions l = [] /\ dequeued l = [] /\
  received l = (if ack_ok a && negb (is_rssi_frame (of_raw (ack_data a)))
                then [set_seq (of_raw (ack_data a)) (receive_count (statistics_ c))] else []) /\
  queue_recv_ c' = (if ack_ok a && negb (is_rssi_frame (of_raw (ack_data a)))
                    then pq_push (set_seq (of_raw (ack_data a)) (receive_count (statistics_ c)))
                           (queue_recv_ c) else queue_recv_ c).
Proof.
  unfold enqueue_result. destruct (ack_ok a); [|cbn; split_and!; done || lia].
  destruct (is_rssi_frame _); cbn; split_and!; done || lia.
Qed.

Lemma sender_spec_counts {E} (r : Radio E) (c : ConnectionImpl) (s : Step E) :
  sender_spec r c s ->
  count is_tx (st_labels s) = 1%nat /\ count is_acked_tx (st_labels s) = b2n (ack_ok (st_ack s))
  /\ count is_recv (st_labels s) = 0%nat /\ count is_rssi (st_labels s) = 0%nat.
Proof.
  intros (_ & _ & _ & _ & f & pops & ->). unfold count. simpl.
  induction pops as [|p pops IH]; [by destruct (ack_ok _)|]. simpl. done.
Qed.

Section Cycle_lemmas.
Context {E : Type}.
Variable send_fn : RadioCfg -> list Z -> E -> Ack * E.

(** The sender [con_cycle] dispatches to, on the reconfigured radio. *)
Definition select_send (r : Radio E) (c : ConnectionImpl) : Step E :=
  if useSafelink_ c
  then (if safelinkInitialized_ c then safelink_send send_fn r c else safelink_handshake send_fn r c)
  else plain_send send_fn r c.

Lemma select_send_spec (r : Radio E) (c : ConnectionImpl) :
  sender_spec r c (select_send r c).
Proof.
  unfold select_send. destruct (useSafelink_ c); [destruct (safelinkInitialized_ c)|].
  - apply safelink_send_spec.
  - apply safelink_handshake_spec.
  - apply plain_send_spec.
Qed.

Lemma con_cycle_unfold (r : Radio E) (c : ConnectionImpl) :
  con_cycle send_fn r c =
  (st_radio (select_send (reconfigure r c) c),
   (enqueue_result (st_con (select_send (reconfigure r c) c)) (st_ack (select_send (reconfigure r c) c))).1,
   st_labels (select_send (reconfigure r c) c) ++
   (enqueue_result (st_con (select_send (reconfigure r c) c)) (st_ack (select_send (reconfigure r c) c))).2).
Proof. unfold con_cycle, select_send. by destruct (enqueue_result _ _). Qed.

End Cycle_lemmas.

Lemma count_acked_le_tx (l : list Label) : (count is_acked_tx l <= count is_tx l)%nat.
Proof.
  unfold count. induction l as [|[] l IH]; simpl; try destruct (ack_ok _); simpl; lia.
Qed.

(** The statistics invariant of the specification (section 8, property
    1): every receive was an ack, every ack answered a transmission. *)
Definition stats_inv (s : Statistics) : Prop :=
  (receive_count s <= ack_count s <= sent_count s)%nat.

Section Cycle_theorems.
Context {E : Type}.
Variable send_fn : RadioCfg -> list Z -> E -> Ack * E.

(** The counters of one cycle against its labels. *)
Lemma con_cycle_counts (r : Radio E) (c : ConnectionImpl) :
  let '(r', c', l) := con_cycle send_fn r c in
  count is_tx l = 1%nat /\
  sent_count (statistics_ c') = S (sent_count (statistics_ c)) /\
  ack_count (statistics_ c') = (ack_count (statistics_ c) + count is_acked_tx l)%nat /\
  receive_count (statistics_ c') = (receive_count (statistics_ c) + count is_recv l)%nat /\
  count is_acked_tx l = (count is_recv l + count is_rssi l)%nat /\
  enqueued_count (statistics_ c') = enqueued_count (statistics_ c).
Proof.
  rewrite con_cycle_unfold.
  pose proof (select_send_spec send_fn (reconfigure r c) c) as Hs.
  destruct (sender_spec_counts _ _ _ Hs) as (Htx & Hack & Hrecv & Hrssi).
  destruct Hs as (Hstats & _).
  destruct (select_send send_fn (reconfigure r c) c) as [r1 c1 a l1]; simpl in *.
  pose proof (enqueue_result_spec c1 a) as He.
  destruct (enqueue_result c1 a) as [c2 l2]; simpl.
  destruct He as (_ & _ & _ & Hsent & Henq & Hack2 & Hrecv2 & Hsplit & Htx2 & _ & _ & _ & _ & _).
  pose proof (count_acked_le_tx l2). rewrite !count_app. rewrite Hstats in *; simpl in *. lia.
Qed.

(** C1: one cycle of [CrazyradioThread::run] on a connection transmits
    exactly one frame and adds one to [sent_count]; [ack_count] grows by
    the number of acknowledged transmissions, [receive_count] by the
    number of packets pushed on the receive queue, every acknowledgement
    is either such a packet or an RSSI sample, and [enqueued_count] is
    untouched.  Hence the cycle keeps the statistics invariant of the
    specification (section 8, property 1). *)
Theorem con_cycle_statistics (r : Radio E) (c : ConnectionImpl) :
  let '(r', c', l) := con_cycle send_fn r c in
  count is_tx l = 1%nat /\
  sent_count (statistics_ c') = S (sent_count (statistics_ c)) /\
  ack_count (statistics_ c') = (ack_count (statistics_ c) + count is_acked_tx l)%nat /\
  receive_count (statistics_ c') = (receive_count (statistics_ c) + count is_recv l)%nat /\
  count is_acked_tx l = (count is_recv l + count is_rssi l)%nat /\
  enqueued_count (statistics_ c') = enqueued_count (statistics_ c) /\
  (stats_inv (statistics_ c) -> stats_inv (statistics_ c')).
Proof.
  pose proof (con_cycle_counts r c) as H.
  destruct (con_cycle send_fn r c) as [[r' c'] l].
  destruct H as (H1 & H2 & H3 & H4 & H5 & H6). split_and!; try done.
  pose proof (count_acked_le_tx l). unfold stats_inv. lia.
Qed.

End Cycle_theorems.

(** ** Reconfiguration *)

(** One USB control transfer when the cached value differs. *)
Definition differs {A} `{EqDecision A} (x y : A) : nat := if decide (x = y) then 0%nat else 1%nat.

Section Reconfigure.
Context {E : Type}.
Variable send_fn : RadioCfg -> list Z -> E -> Ack * E.

(** [reconfigure] leaves the radio on the connection's address, channel
    and datarate with acknowledgements enabled, and issues one control
    transfer per setting that differed from the cached value. *)
Theorem reconfigure_spec (r : Radio E) (c : ConnectionImpl) :
  r_cfg (reconfigure r c) = con_cfg c /\ r_ackEnabled (reconfigure r c) = true /\
  r_env (reconfigure r c) = r_env r /\
  r_ctrl (reconfigure r c) =
    (r_ctrl r + differs (r_address r) (address_ c) + differs (r_channel r) (channel_ c)
     + differs (r_datarate r) (datarate_ c) + b2n (negb (r_ackEnabled r)))%nat.
Proof.
  destruct r as [a ch d ack n e]. unfold reconfigure, differs, con_cfg, r_cfg; simpl.
  repeat (case_decide; simpl in *); destruct ack; simpl; split_and!; try congruence; lia.
Qed.

(** With the cache already right, [reconfigure] does nothing. *)
Lemma reconfigure_noop (r : Radio E) (c : ConnectionImpl) :
  r_cfg r = con_cfg c -> r_ackEnabled r = true -> reconfigure r c = r.
Proof.
  intros H1 H2. pose proof (reconfigure_spec r c) as (Hc & Ha & He & Hn).
  destruct r as [a ch d ack n e]. unfold r_cfg, con_cfg in *; simpl in *.
  injection H1 as -> -> ->. subst ack. unfold differs in Hn. rewrite !decide_True in Hn by done.
  destruct (reconfigure _ c) as [a' ch' d' ack' n' e']. simpl in *.
  injection Hc as -> -> ->. subst. f_equal. lia.
Qed.

Lemma reconfigure_idem (r : Radio E) (c : ConnectionImpl) :
  reconfigure (reconfigure r c) c = reconfigure r c.
Proof. pose proof (reconfigure_spec r c) as (? & ? & _). by apply reconfigure_noop. Qed.

(** C5: a cycle on a connection puts its one frame on the air with the
    connection's own address, channel and datarate, leaves the radio so
    configured with acknowledgements enabled, and costs exactly one USB
    control transfer per cached radio setting that differed (lines
    113-129): none when the previous cycle was for a connection with the
    same configuration. *)
Theorem con_cycle_radio_config (r : Radio E) (c : ConnectionImpl) :
  let '(r', c', l) := con_cycle send_fn r c in
  r_cfg r' = con_cfg c /\ r_ackEnabled r' = true /\
  Forall (fun t => t.1.1 = con_cfg c) (transmissions l) /\ length (transmissions l) = 1%nat /\
  r_ctrl r' =
    (r_ctrl r + differs (r_address r) (address_ c) + differs (r_channel r) (channel_ c)
     + differs (r_datarate r) (datarate_ c) + b2n (negb (r_ackEnabled r)))%nat.
Proof.
  rewrite con_cycle_unfold.
  pose proof (select_send_spec send_fn (reconfigure r c) c) as (_ & _ & _ & (Hc & Ha & Hn) & f & pops & Hl).
  pose proof (reconfigure_spec r c) as (Hcfg & Hack & _ & Hctrl).
  pose proof (enqueue_result_spec (st_con (select_send send_fn (reconfigure r c) c))
                (st_ack (select_send send_fn (reconfigure r c) c))) as He.
  destruct (enqueue_result _ _) as [c2 l2]; simpl.
  destruct He as (_ & _ & _ & _ & _ & _ & _ & _ & _ & _ & Ht & _).
  rewrite Hl, transmissions_app, Ht. simpl.
  rewrite (proj1 (proj2 (proj2 (labels_of_pops pops)))).
  split_and!; [congruence|congruence| |done|congruence].
  constructor; [exact Hcfg | constructor].
Qed.

End Reconfigure.

(** ** Safelink *)

Section Safelink.
Context {E : Type}.
Variable send_fn : RadioCfg -> list Z -> E -> Ack * E.

(** The whole effect of [safelink_send]: one frame, [safelink_packet c];
    on an ack, [safelinkUp_] flips and the head, if any, leaves the queue;
    [safelinkDown_] flips exactly when the ack echoes it. *)
Lemma safelink_send_effect (r : Radio E) (c : ConnectionImpl) :
  let s := safelink_send send_fn r c in
  let a := st_ack s in
  st_labels s = LTx (r_cfg r) (raw (safelink_packet c)) a
                :: (if ack_ok a then map LPop (option_list (pq_top (queue_send_ c))) else []) /\
  queue_send_ (st_con s) = (if ack_ok a then pq_pop (queue_send_ c) else queue_send_ c) /\
  safelinkUp_ (st_con s) = xorb (safelinkUp_ c) (ack_ok a) /\
  safelinkDown_ (st_con s) = xorb (safelinkDown_ c) (down_matches a (safelinkDown_ c)) /\
  safelinkInitialized_ (st_con s) = safelinkInitialized_ c.
Proof.
  unfold safelink_send, transmit. simpl_con.
  destruct (sendPacket send_fn r _) as [a r1]; simpl.
  destruct (ack_ok a) eqn:Ha.
  - destruct (down_matches a (safelinkDown_ c)) eqn:Hd; simpl_con;
      destruct (pq_top (queue_send_ c)) as [t|] eqn:Ht; simpl_con; rewrite ?Ha, ?Hd; simpl;
      split_and!; try done;
      try (destruct (queue_send_ c); simpl in *; congruence);
      by destruct (safelinkUp_ c), (safelinkDown_ c).
  - unfold down_matches. simpl. rewrite Ha. simpl.
    split_and!; try done; by destruct (safelinkUp_ c), (safelinkDown_ c).
Qed.

Lemma safelink_packet_ext (c1 c2 : ConnectionImpl) :
  queue_send_ c1 = queue_send_ c2 -> safelinkUp_ c1 = safelinkUp_ c2 ->
  safelinkDown_ c1 = safelinkDown_ c2 -> safelink_packet c1 = safelink_packet c2.
Proof. unfold safelink_packet. by intros -> -> ->. Qed.

(** A whole cycle on an initialised safelink connection. *)
Lemma con_cycle_safelink (r : Radio E) (c : ConnectionImpl) :
  useSafelink_ c = true -> safelinkInitialized_ c = true ->
  let '(r', c', l) := con_cycle send_fn r c in
  exists a, transmissions l = [(con_cfg c, raw (safelink_packet c), a)] /\
  popped l = (if ack_ok a then option_list (pq_top (queue_send_ c)) else []) /\
  queue_send_ c' = (if ack_ok a then pq_pop (queue_send_ c) else queue_send_ c) /\
  safelinkUp_ c' = xorb (safelinkUp_ c) (ack_ok a) /\
  safelinkDown_ c' = xorb (safelinkDown_ c) (down_matches a (safelinkDown_ c)) /\
  safelinkInitialized_ c' = true /\
  received l = (if ack_ok a && negb (is_rssi_frame (of_raw (ack_data a)))
                then [set_seq (of_raw (ack_data a)) (receive_count (statistics_ c))] else []).
Proof.
  intros Hu Hi. rewrite con_cycle_unfold. unfold select_send. rewrite Hu, Hi.
  pose proof (safelink_send_effect (reconfigure r c) c) as (Hl & Hq & Hup & Hdn & Hin).
  pose proof (safelink_send_spec send_fn (reconfigure r c) c) as (Hst & _).
  pose proof (reconfigure_spec r c) as (Hcfg & _).
  destruct (safelink_send send_fn (reconfigure r c) c) as [r1 c1 a l1]; simpl in *.
  pose proof (enqueue_result_spec c1 a) as He.
  destruct (enqueue_result c1 a) as [c2 l2]; simpl.
  destruct He as (Hq2 & _ & Hsl & _ & _ & _ & _ & _ & _ & Hp2 & Ht2 & _ & Hrv2 & _).
  injection Hsl as Hin2 Hup2 Hdn2.
  exists a. rewrite transmissions_app, popped_app, received_app, Hl, Ht2, Hp2, Hrv2, Hcfg, Hst; simpl.
  destruct (labels_of_pops (if ack_ok a then option_list (pq_top (queue_send_ c)) else []))
    as (Hp & Hr & Ht & _).
  destruct (ack_ok a); simpl in *; rewrite ?Hp, ?Hr, ?Ht, ?app_nil_r; split_and!; try done; congruence.
Qed.

(** C3: on an initialised safelink connection, a cycle whose frame is not
    acknowledged changes neither the send queue nor the safelink bits and
    pops nothing, so the next cycle retransmits the very same frame, with
    the same [safelinkUp_] (specification, section 8, property 3, and
    scenario S5). *)
Theorem safelink_lost_ack_retransmits (r : Radio E) (c : ConnectionImpl) :
  useSafelink_ c = true -> safelinkInitialized_ c = true ->
  let '(r', c', l) := con_cycle send_fn r c in
  exists a, transmissions l = [(con_cfg c, raw (safelink_packet c), a)] /\
  (ack_ok a = false ->
     popped l = [] /\ queue_send_ c' = queue_send_ c /\
     safelinkUp_ c' = safelinkUp_ c /\ safelinkDown_ c' = safelinkDown_ c /\
     safelink_packet c' = safelink_packet c).
Proof.
  intros Hu Hi. pose proof (con_cycle_safelink r c Hu Hi) as H.
  destruct (con_cycle send_fn r c) as [[r' c'] l].
  destruct H as (a & Ht & Hp & Hq & Hup & Hdn & _). exists a. split; [done|].
  intros Ha. assert (Hdm : down_matches a (safelinkDown_ c) = false)
    by (unfold down_matches; by rewrite Ha).
  rewrite Ha, Hdm, !xorb_false_r in *.
  split_and!; try done. by apply safelink_packet_ext.
Qed.

(** C4: on an initialised safelink connection, an acknowledged cycle pops
    exactly the head of the send queue (nothing when it was empty and a
    ping went out), flips [safelinkUp_], and flips [safelinkDown_] exactly
    when bit 2 of the ack's first byte equals [safelinkDown_]. *)
Theorem safelink_ack_advances (r : Radio E) (c : ConnectionImpl) :
  useSafelink_ c = true -> safelinkInitialized_ c = true ->
  let '(r', c', l) := con_cycle send_fn r c in
  exists a, transmissions l = [(con_cfg c, raw (safelink_packet c), a)] /\
  (ack_ok a = true ->
     popped l = option_list (pq_top (queue_send_ c)) /\
     queue_send_ c' = pq_pop (queue_send_ c) /\
     safelinkUp_ c' = negb (safelinkUp_ c) /\
     safelinkDown_ c' = xorb (safelinkDown_ c) (down_matches a (safelinkDown_ c))).
Proof.
  intros Hu Hi. pose proof (con_cycle_safelink r c Hu Hi) as H.
  destruct (con_cycle send_fn r c) as [[r' c'] l].
  destruct H as (a & Ht & Hp & Hq & Hup & Hdn & _). exists a. split; [done|].
  intros Ha. rewrite Ha, xorb_true_r in *. done.
Qed.

(** C20: the downlink half of safelink is not enforced: on an
    initialised safelink connection, an acknowledgement whose bit 2 does
    not match [safelinkDown_] (the target repeating a payload the host
    already took) leaves [safelinkDown_] as it was, yet its payload is
    still pushed on the receive queue (lines 186-205 run for every ack),
    so a retransmitted downlink packet is delivered a second time,
    against the at-most-once delivery of section 4.3 of the
    specification. *)
Theorem safelink_stale_ack_delivered (r : Radio E) (c : ConnectionImpl) :
  useSafelink_ c = true -> safelinkInitialized_ c = true ->
  let '(r', c', l) := con_cycle send_fn r c in
  exists a, transmissions l = [(con_cfg c, raw (safelink_packet c), a)] /\
  (ack_ok a = true -> down_matches a (safelinkDown_ c) = false ->
   is_rssi_frame (of_raw (ack_data a)) = false ->
     safelinkDown_ c' = safelinkDown_ c /\
     received l = [set_seq (of_raw (ack_data a)) (receive_count (statistics_ c))]).
Proof.
  intros Hu Hi. pose proof (con_cycle_safelink r c Hu Hi) as H.
  destruct (con_cycle send_fn r c) as [[r' c'] l].
  destruct H as (a & Ht & _ & _ & _ & Hdn & _ & Hrv). exists a. split; [done|].
  intros Ha Hd Hr. rewrite Hdn, Hd, Hrv, Ha, Hr, xorb_false_r. done.
Qed.

End Safelink.

(** ** Queues across interleavings *)

Section Interleaving.
Context {E : Type}.
Variable send_fn : RadioCfg -> list Z -> E -> Ack * E.

(** What a sender does to the send queue: nothing, or pop its top. *)
Definition pops_top (q q' : list Packet) (pops : list Packet) : Prop :=
  (q' = q /\ pops = []) \/ (exists t, pq_top q = Some t /\ q' = pq_pop q /\ pops = [t]).

Lemma select_send_queue (r : Radio E) (c : ConnectionImpl) :
  pops_top (queue_send_ c) (queue_send_ (st_con (select_send send_fn r c)))
    (popped (st_labels (select_send send_fn r c))).
Proof.
  unfold select_send, pops_top. destruct (useSafelink_ c); [destruct (safelinkInitialized_ c)|].
  - pose proof (safelink_send_effect send_fn r c) as (-> & -> & _). simpl.
    destruct (ack_ok _); [|by left]. destruct (pq_top (queue_send_ c)) eqn:Ht; simpl.
    + right. by eexists.
    + left. destruct (queue_send_ c); simpl in *; [done|congruence].
  - unfold safelink_handshake, transmit. destruct (ack_ok _); simpl; by left.
  - unfold plain_send, transmit. destruct (pq_top (queue_send_ c)) eqn:Ht; [|by left].
    destruct (ack_ok _); simpl; first [by left | right; by eexists].
Qed.

(** What a whole cycle does to the two queues. *)
Lemma con_cycle_queues (r : Radio E) (c : ConnectionImpl) :
  let '(r', c', l) := con_cycle send_fn r c in
  pops_top (queue_send_ c) (queue_send_ c') (popped l) /\
  enqueued_count (statistics_ c') = enqueued_count (statistics_ c) /\
  dequeued l = [] /\
  exists rs, received l = rs /\ queue_recv_ c' = foldr pq_push (queue_recv_ c) rs /\
    (receive_count (statistics_ c') = receive_count (statistics_ c) + length rs)%nat /\
    Forall (fun p => priority p = default_priority /\
                     seq p = receive_count (statistics_ c)) rs /\ (length rs <= 1)%nat.
Proof.
  rewrite con_cycle_unfold.
  pose proof (select_send_queue (reconfigure r c) c) as Hq.
  pose proof (select_send_spec send_fn (reconfigure r c) c) as (Hs & Hr & _ & _ & f & pops & Hl).
  destruct (select_send send_fn (reconfigure r c) c) as [r1 c1 a l1]; simpl in *.
  pose proof (enqueue_result_spec c1 a) as He.
  destruct (enqueue_result c1 a) as [c2 l2]; simpl.
  destruct He as (Hq2 & _ & _ & _ & He2 & _ & Hrc & _ & _ & Hp2 & _ & Hd2 & Hrv2 & Hqr2).
  rewrite Hl in Hq |- *. simpl in Hq |- *.
  pose proof (labels_of_pops pops) as (Hpp & Hrp & _ & Hdp).
  rewrite !popped_app, !dequeued_app, !received_app, Hp2, Hd2, Hdp, Hrp, !app_nil_r in *.
  rewrite Hq2, He2, Hs. split_and!; [rewrite Hpp in *; exact Hq|done|done|].
  exists (received l2). rewrite Hrv2, Hqr2, Hrc, Hr, Hs. simpl.
  rewrite count_is_recv, Hrv2.
  destruct (_ && _); simpl; split_and!; try done; try lia.
  apply Forall_singleton. by destruct (ack_data a).
Qed.

(** Application sends, worker cycles and application receives on one
    connection, interleaved in any order (the queue mutexes make each of
    them atomic with respect to the others). *)
Inductive con_step : Radio E * ConnectionImpl -> list Label -> Radio E * ConnectionImpl -> Prop :=
| step_send r c p : con_step (r, c) [] (r, queue_send_push c p)
| step_cycle r c : con_step (r, c) (con_cycle send_fn r c).2 (con_cycle send_fn r c).1
| step_recv r c :
    con_step (r, c) (recv_labels c)
      (r, (recv_pop c).1).

Inductive con_steps : Radio E * ConnectionImpl -> list Label -> Radio E * ConnectionImpl -> Prop :=
| steps_refl st : con_steps st [] st
| steps_cons st1 l1 st2 l2 st3 :
    con_step st1 l1 st2 -> con_steps st2 l2 st3 -> con_steps st1 (l1 ++ l2) st3.

(** A connection as the constructor leaves it: empty queues, zero counters. *)
Definition fresh (c : ConnectionImpl) : Prop :=
  queue_send_ c = [] /\ queue_recv_ c = [] /\ statistics_ c = stats0.

End Interleaving.

(** *** The send queue *)

(** Two packets of the same priority, the first with the smaller [seq]. *)
Definition R_fifo (p q : Packet) : Prop := priority p = priority q -> (seq p < seq q)%nat.

(** The invariant of the send queue, given the packets already popped by
    the worker: the queue is in queue order; the popped and the queued
    packets carry distinct sequence numbers, all below [enqueued_count];
    every popped packet precedes every queued packet of its priority, and
    the popped ones precede each other by priority class; and nothing is
    lost: queued plus popped is what was enqueued. *)
Definition send_inv (c : ConnectionImpl) (pops : list Packet) : Prop :=
  let q := queue_send_ c in
  let n := enqueued_count (statistics_ c) in
  pq_sorted q /\ NoDup (seq <$> (pops ++ q)) /\ (forall x, x ∈ pops ++ q -> (seq x < n)%nat) /\
  (forall x y, x ∈ pops -> y ∈ q -> R_fifo x y) /\ ForallOrdPairs R_fifo pops /\
  (length q + length pops)%nat = n.

Lemma send_inv_fresh (c : ConnectionImpl) : fresh c -> send_inv c [].
Proof.
  intros (Hq & _ & Hs). unfold send_inv. rewrite Hq, Hs. simpl.
  split_and!; try done; try constructor; set_solver.
Qed.

Lemma send_inv_push (c : ConnectionImpl) (p : Packet) (pops : list Packet) :
  send_inv c pops -> send_inv (queue_send_push c p) pops.
Proof.
  unfold send_inv, queue_send_push. simpl_con.
  set (n := enqueued_count (statistics_ c)). set (q := queue_send_ c).
  intros (Hs & Hnd & Hlt & Hr & Ho & Hlen).
  assert (Hperm : pops ++ pq_push (set_seq p n) q ≡ₚ set_seq p n :: pops ++ q)
    by (rewrite pq_push_perm; by rewrite Permutation_middle).
  split_and!.
  - by apply pq_push_sorted.
  - rewrite Hperm, fmap_cons. apply NoDup_cons. split; [|done].
    intros Hin. apply list_elem_of_fmap in Hin as (x & Hx & Hxin).
    specialize (Hlt x Hxin). simpl in Hx. lia.
  - intros x. rewrite Hperm, elem_of_cons. intros [->|Hx]; [simpl; lia|].
    specialize (Hlt x Hx). lia.
  - intros x y Hx. rewrite elem_of_pq_push. intros [->|Hy]; [|by apply Hr].
    intros _. simpl. apply Hlt. set_solver.
  - done.
  - rewrite length_pq_push. lia.
Qed.

Lemma send_inv_pops_top (c c' : ConnectionImpl) (pops new : list Packet) :
  send_inv c pops -> pops_top (queue_send_ c) (queue_send_ c') new ->
  enqueued_count (statistics_ c') = enqueued_count (statistics_ c) ->
  send_inv c' (pops ++ new).
Proof.
  unfold send_inv. intros (Hs & Hnd & Hlt & Hr & Ho & Hlen) Hpt Hn. rewrite Hn.
  destruct Hpt as [(-> & ->) | (t & Ht & -> & ->)].
  { rewrite app_nil_r. done. }
  pose proof (pq_top_pop _ _ Ht) as Hq.
  set (rest := pq_pop (queue_send_ c)) in *.
  assert (Happ : (pops ++ [t]) ++ rest = pops ++ queue_send_ c)
    by (rewrite Hq, <- app_assoc; done).
  rewrite Happ. split_and!; try done.
  - by apply pq_pop_sorted.
  - intros x y Hx Hy. apply elem_of_app in Hx as [Hx|Hx%list_elem_of_singleton].
    + apply Hr; [done|]. rewrite Hq. by apply elem_of_cons; right.
    + subst x. intros Hp.
      pose proof (pq_top_min_seq (queue_send_ c) t y Hs Ht) as Hle.
      rewrite Hq in Hle. specialize (Hle ltac:(by apply elem_of_cons; right) (eq_sym Hp)).
      rewrite Hq, fmap_app, fmap_cons in Hnd.
      apply NoDup_app in Hnd as (_ & _ & Hnd). apply NoDup_cons in Hnd as [Hnin _].
      assert (seq t <> seq y); [|lia]. intros Heq. apply Hnin.
      apply list_elem_of_fmap. by exists y.
  - apply ForallOrdPairs_snoc. split; [done|].
    apply Forall_forall. intros x Hx. apply Hr; [done|]. rewrite Hq. by apply elem_of_cons; left.
  - rewrite Hq in Hlen. rewrite length_app. simpl in *. lia.
Qed.

Section Send_queue.
Context {E : Type}.
Variable send_fn : RadioCfg -> list Z -> E -> Ack * E.

Lemma send_inv_step (st st' : Radio E * ConnectionImpl) (l : list Label) (pops : list Packet) :
  con_step send_fn st l st' -> send_inv st.2 pops -> send_inv st'.2 (pops ++ popped l).
Proof.
  destruct 1 as [r c p|r c|r c]; simpl; intros Hi.
  - rewrite app_nil_r. by apply send_inv_push.
  - pose proof (con_cycle_queues send_fn r c) as Hq.
    destruct (con_cycle send_fn r c) as [[r' c'] l]; simpl.
    destruct Hq as (Hpt & Hn & _). by eapply send_inv_pops_top.
  - assert (Hp : popped (recv_labels c) = []) by (unfold recv_labels; by destruct (pq_empty _)).
    rewrite Hp, app_nil_r. unfold recv_pop. by destruct (pq_top _).
Qed.

Lemma send_inv_steps (st st' : Radio E * ConnectionImpl) (l : list Label) (pops : list Packet) :
  con_steps send_fn st l st' -> send_inv st.2 pops -> send_inv st'.2 (pops ++ popped l).
Proof.
  intros Hs. revert pops. induction Hs as [st|st1 l1 st2 l2 st3 H1 _ IH]; intros pops Hi.
  - by rewrite app_nil_r.
  - rewrite popped_app, app_assoc. apply IH. by eapply send_inv_step.
Qed.

End Send_queue.

(** *** The receive queue *)

(** The invariant of the receive queue, given the packets the worker
    pushed ([rcv]) and those [recv] returned ([deq]): the returned ones are
    a prefix of the pushed ones and the queue holds exactly the rest, in
    order; the pushed ones have the default priority and are numbered
    0, 1, 2, ... by [receive_count]. *)
Definition recv_inv (c : ConnectionImpl) (rcv deq : list Packet) : Prop :=
  rcv = deq ++ queue_recv_ c /\ Forall (fun x => priority x = default_priority) rcv /\
  seq <$> rcv = List.seq 0 (length rcv) /\ receive_count (statistics_ c) = length rcv.

Lemma recv_inv_fresh (c : ConnectionImpl) : fresh c -> recv_inv c [] [].
Proof. intros (_ & Hq & Hs). unfold recv_inv. rewrite Hq, Hs. by split_and!. Qed.

(** A packet numbered past every queued one goes to the back. *)
Lemma recv_inv_push (c c' : ConnectionImpl) (rcv deq rs : list Packet) :
  recv_inv c rcv deq ->
  queue_recv_ c' = foldr pq_push (queue_recv_ c) rs ->
  receive_count (statistics_ c') = (receive_count (statistics_ c) + length rs)%nat ->
  Forall (fun p => priority p = default_priority /\ seq p = receive_count (statistics_ c)) rs ->
  (length rs <= 1)%nat ->
  recv_inv c' (rcv ++ rs) deq.
Proof.
  intros (Hr & Hp & Hs & Hn) Hq' Hn' Hrs Hlen.
  destruct rs as [|p [|]]; simpl in *; [|clear Hlen|lia].
  { unfold recv_inv. rewrite !app_nil_r, Hq', Hn', Nat.add_0_r. by split_and!. }
  apply Forall_singleton in Hrs as [Hpp Hps].
  assert (Hlast : pq_push p (queue_recv_ c) = queue_recv_ c ++ [p]).
  { apply pq_push_last, Forall_forall. intros x Hx. apply packet_lt_false.
    assert (Hx' : x ∈ rcv) by (rewrite Hr; set_solver).
    rewrite Forall_forall in Hp. specialize (Hp x Hx').
    assert (Hlt : (seq x < length rcv)%nat).
    { assert (Hin : seq x ∈ List.seq 0 (length rcv))
        by (rewrite <- Hs; apply list_elem_of_fmap; by exists x).
      apply list_elem_of_In, in_seq in Hin. lia. }
    right. split; [congruence|lia]. }
  unfold recv_inv. rewrite Hq', Hlast, Hn', length_app. simpl. split_and!.
  - rewrite Hr. by rewrite app_assoc.
  - apply Forall_app. split; [done|by constructor].
  - rewrite fmap_app, Hs, Nat.add_1_r, seq_S. simpl. by rewrite Hps, Hn.
  - lia.
Qed.

Section Recv_queue.
Context {E : Type}.
Variable send_fn : RadioCfg -> list Z -> E -> Ack * E.

Lemma recv_inv_step (st st' : Radio E * ConnectionImpl) (l : list Label) (rcv deq : list Packet) :
  con_step send_fn st l st' -> recv_inv st.2 rcv deq ->
  recv_inv st'.2 (rcv ++ received l) (deq ++ dequeued l).
Proof.
  destruct 1 as [r c p|r c|r c]; simpl; intros Hi.
  - rewrite !app_nil_r. unfold queue_send_push. by destruct Hi.
  - pose proof (con_cycle_queues send_fn r c) as Hq.
    destruct (con_cycle send_fn r c) as [[r' c'] l]; simpl.
    destruct Hq as (_ & _ & Hd & rs & Hrs & Hq' & Hn & Hf & Hlen).
    rewrite Hd, Hrs, app_nil_r. by eapply recv_inv_push.
  - rewrite recv_labels_top. destruct Hi as (Hr & Hp & Hs & Hn). unfold recv_pop.
    destruct (pq_top (queue_recv_ c)) as [t|] eqn:Ht; simpl; rewrite ?app_nil_r; [|done].
    pose proof (pq_top_pop _ _ Ht) as Hq. unfold recv_inv. simpl_con.
    split_and!; try done. rewrite Hr, Hq, <- app_assoc. done.
Qed.

Lemma recv_inv_steps (st st' : Radio E * ConnectionImpl) (l : list Label) (rcv deq : list Packet) :
  con_steps send_fn st l st' -> recv_inv st.2 rcv deq ->
  recv_inv st'.2 (rcv ++ received l) (deq ++ dequeued l).
Proof.
  intros Hs. revert rcv deq.
  induction Hs as [st|st1 l1 st2 l2 st3 H1 _ IH]; intros rcv deq Hi.
  - by rewrite !app_nil_r.
  - rewrite received_app, dequeued_app, !app_assoc. apply IH. by eapply recv_inv_step.
Qed.

End Recv_queue.

Section Queue_theorems.
Context {E : Type}.
Variable send_fn : RadioCfg -> list Z -> E -> Ack * E.

(** C2: from a freshly constructed connection, whatever the interleaving
    of application sends, worker cycles (with any pattern of lost acks)
    and receives, the worker removes packets of equal priority from the
    send queue in strictly increasing [seq] order, i.e. in the order the
    application sent them (specification, section 8, property 2). *)
Theorem send_queue_fifo (r : Radio E) (c : ConnectionImpl) (l : list Label)
    (st' : Radio E * ConnectionImpl) :
  fresh c -> con_steps send_fn (r, c) l st' -> ForallOrdPairs R_fifo (popped l).
Proof.
  intros Hf Hs. pose proof (send_inv_steps send_fn _ _ _ [] Hs (send_inv_fresh c Hf)) as H.
  by destruct H as (_ & _ & _ & _ & H & _).
Qed.

(** C6: from a freshly constructed connection, no packet is lost and none
    is removed twice: the packets popped by the worker and those still
    queued have pairwise distinct sequence numbers, and together they are
    as many as [enqueued_count] says were sent. *)
Theorem send_queue_conservation (r : Radio E) (c : ConnectionImpl) (l : list Label)
    (st' : Radio E * ConnectionImpl) :
  fresh c -> con_steps send_fn (r, c) l st' ->
  NoDup (seq <$> (popped l ++ queue_send_ st'.2)) /\
  (length (queue_send_ st'.2) + length (popped l))%nat = enqueued_count (statistics_ st'.2).
Proof.
  intros Hf Hs. pose proof (send_inv_steps send_fn _ _ _ [] Hs (send_inv_fresh c Hf)) as H.
  by destruct H as (_ & H1 & _ & _ & _ & H2).
Qed.

(** C7: from a freshly constructed connection, [recv] returns the
    acknowledgement payloads exactly in the order the worker received
    them, each once: what [recv] returned followed by what the receive
    queue holds is the sequence of pushed payloads, numbered 0, 1, 2, ...
    (specification, section 5, ordering guarantees). *)
Theorem recv_in_ack_order (r : Radio E) (c : ConnectionImpl) (l : list Label)
    (st' : Radio E * ConnectionImpl) :
  fresh c -> con_steps send_fn (r, c) l st' ->
  received l = dequeued l ++ queue_recv_ st'.2 /\
  seq <$> received l = List.seq 0 (length (received l)) /\
  receive_count (statistics_ st'.2) = length (received l).
Proof.
  intros Hf Hs. pose proof (recv_inv_steps send_fn _ _ _ [] [] Hs (recv_inv_fresh c Hf)) as H.
  by destruct H as (H1 & _ & H2 & H3).
Qed.

End Queue_theorems.

(** *** The send queue on any [std::priority_queue]

    [Connection::send] stamps each packet with [enqueued_count] before
    pushing it (lines 134-137), so no two queued packets share a key.  The
    list model of the queue therefore shows the same [top]s as every
    implementation of the library's contract, whatever it does with ties. *)

(** The pushes of a run as [Connection::send] performs them from counter
    [n]: [p.seq_ = enqueued_count; push(p); ++enqueued_count]. *)
Fixpoint stamp (n : nat) (ops : list QOp) : list QOp :=
  match ops with
  | [] => []
  | QPush p :: ops' => QPush (set_seq p n) :: stamp (S n) ops'
  | QPop :: ops' => QPop :: stamp n ops'
  end.

(** The [top]s the worker sees on the model's send queue when the
    application sends and the worker pops in the order [ops]. *)
Fixpoint send_queue_trace (ops : list QOp) (c : ConnectionImpl) : list (option Packet) :=
  match ops with
  | [] => []
  | QPush p :: ops' => send_queue_trace ops' (queue_send_push c p)
  | QPop :: ops' =>
      pq_top (queue_send_ c) :: send_queue_trace ops' (set_queue_send c (pq_pop (queue_send_ c)))
  end.

Lemma stamp_seqs (n : nat) (ops : list QOp) :
  seq <$> pushed (stamp n ops) = List.seq n (length (pushed ops)).
Proof.
  revert n. induction ops as [|[p|] ops IH]; intros n; cbn; [done| |done].
  by rewrite IH.
Qed.

Lemma send_queue_trace_model (ops : list QOp) (c : ConnectionImpl) (Hs : pq_sorted (queue_send_ c)) :
  send_queue_trace ops c =
  observe (stamp (enqueued_count (statistics_ c)) ops) (mkSortedQueue (queue_send_ c) Hs).
Proof.
  revert c Hs. induction ops as [|[p|] ops IH]; intros c Hs; cbn; [done| |].
  - apply (IH (queue_send_push c p)).
  - f_equal. apply (IH (set_queue_send c (pq_pop (queue_send_ c)))).
Qed.

(** Distinct sequence numbers make distinct keys. *)
Lemma NoDup_pkey_of_seq (l : list Packet) : NoDup (seq <$> l) -> NoDup (pkey <$> l).
Proof.
  intros Hnd. apply (NoDup_fmap_1 snd). rewrite <- list_fmap_compose. done.
Qed.

Lemma send_inv_stamp_keys (c : ConnectionImpl) (pops : list Packet) (ops : list QOp) :
  send_inv c pops ->
  NoDup (pkey <$> (queue_send_ c ++ pushed (stamp (enqueued_count (statistics_ c)) ops))).
Proof.
  intros (_ & Hnd & Hlt & _). apply NoDup_pkey_of_seq.
  rewrite fmap_app, stamp_seqs. rewrite fmap_app in Hnd.
  apply NoDup_app in Hnd as (_ & _ & Hnd). apply NoDup_app. split_and!; [done| |apply NoDup_seq].
  intros z Hz Hz'. apply list_elem_of_fmap in Hz as (x & -> & Hx).
  apply elem_of_seq in Hz'. specialize (Hlt x ltac:(set_solver)). lia.
Qed.

(** C23: the model's send queue is faithful to [std::priority_queue]:
    from any state satisfying the send-queue invariant (every state
    reachable from a fresh connection does), for every implementation of
    the library's contract holding the same packets, and for every
    interleaving of [Connection::send] calls and worker pops, the worker
    sees the same [top]s on the implementation as on the model. *)
Theorem send_queue_any_priority_queue {Q : Type} `{PriorityQueueLaws Q}
    (c : ConnectionImpl) (pops : list Packet) (q : Q) (ops : list QOp) :
  send_inv c pops -> qelems q ≡ₚ queue_send_ c ->
  observe (stamp (enqueued_count (statistics_ c)) ops) q = send_queue_trace ops c.
Proof.
  intros Hi Hq. rewrite (send_queue_trace_model ops c (proj1 Hi)). apply observe_equiv; [done|].
  rewrite Hq. by eapply send_inv_stamp_keys.
Qed.

(** *** The statistics over a run *)

Section Statistics_run.
Context {E : Type}.
Variable send_fn : RadioCfg -> list Z -> E -> Ack * E.

Lemma stats_step (st st' : Radio E * ConnectionImpl) (l : list Label) :
  con_step send_fn st l st' ->
  sent_count (statistics_ st'.2) = (sent_count (statistics_ st.2) + count is_tx l)%nat /\
  ack_count (statistics_ st'.2) = (ack_count (statistics_ st.2) + count is_acked_tx l)%nat /\
  receive_count (statistics_ st'.2) = (receive_count (statistics_ st.2) + count is_recv l)%nat /\
  count is_acked_tx l = (count is_recv l + count is_rssi l)%nat.
Proof.
  destruct 1 as [r c p|r c|r c]; cbn [fst snd].
  - unfold queue_send_push. simpl_con. cbn. lia.
  - pose proof (con_cycle_counts send_fn r c) as H.
    destruct (con_cycle send_fn r c) as [[r' c'] l]. cbn [fst snd].
    destruct H as (H1 & H2 & H3 & H4 & H5 & _). lia.
  - unfold recv_labels, recv_pop. destruct (pq_empty _), (pq_top (queue_recv_ c)); cbn; lia.
Qed.

Lemma stats_steps (st st' : Radio E * ConnectionImpl) (l : list Label) :
  con_steps send_fn st l st' ->
  sent_count (statistics_ st'.2) = (sent_count (statistics_ st.2) + count is_tx l)%nat /\
  ack_count (statistics_ st'.2) = (ack_count (statistics_ st.2) + count is_acked_tx l)%nat /\
  receive_count (statistics_ st'.2) = (receive_count (statistics_ st.2) + count is_recv l)%nat /\
  count is_acked_tx l = (count is_recv l + count is_rssi l)%nat.
Proof.
  induction 1 as [st|st1 l1 st2 l2 st3 H1 _ IH]; [cbn; lia|].
  apply stats_step in H1. rewrite !count_app. lia.
Qed.

(** C27: the statistics of a connection count its run.  From a freshly
    constructed connection, over any interleaving of application sends,
    worker cycles and receives, [sent_count] is the number of frames
    sent, [ack_count] the number acknowledged, [receive_count] the number
    of packets pushed on the receive queue, and every acknowledgement is
    such a packet or an RSSI sample; so [sent_count >= ack_count =
    receive_count + rssi updates] at all times (specification, section
    8, property 1). *)
Theorem statistics_count_run (r : Radio E) (c : ConnectionImpl) (l : list Label)
    (st' : Radio E * ConnectionImpl) :
  fresh c -> con_steps send_fn (r, c) l st' ->
  sent_count (statistics_ st'.2) = count is_tx l /\
  ack_count (statistics_ st'.2) = count is_acked_tx l /\
  receive_count (statistics_ st'.2) = count is_recv l /\
  ack_count (statistics_ st'.2) = (receive_count (statistics_ st'.2) + count is_rssi l)%nat /\
  (ack_count (statistics_ st'.2) <= sent_count (statistics_ st'.2))%nat.
Proof.
  intros (_ & _ & Hs) Hr. apply stats_steps in Hr. cbn [snd] in Hr. rewrite Hs in Hr.
  pose proof (count_acked_le_tx l). cbn in Hr. lia.
Qed.

End Statistics_run.

(** ** Scripted interleavings *)

(** One interleaving as a list of actions: an application [send], a
    worker cycle, an application [recv]. *)
Inductive Action := ASend (p : Packet) | ACycle | ARecv.

Section Scripts.
Context {E : Type}.
Variable send_fn : RadioCfg -> list Z -> E -> Ack * E.

Definition act (a : Action) (st : Radio E * ConnectionImpl) : list Label * (Radio E * ConnectionImpl) :=
  let '(r, c) := st in
  match a with
  | ASend p => ([], (r, queue_send_push c p))
  | ACycle => ((con_cycle send_fn r c).2, (con_cycle send_fn r c).1)
  | ARecv => (recv_labels c,
              (r, (recv_pop c).1))
  end.

Fixpoint run_actions (acts : list Action) (st : Radio E * ConnectionImpl)
  : list Label * (Radio E * ConnectionImpl) :=
  match acts with
  | [] => ([], st)
  | a :: rest =>
      let res1 := act a st in
      let res2 := run_actions rest res1.2 in
      (res1.1 ++ res2.1, res2.2)
  end.

Lemma run_actions_steps (acts : list Action) (st : Radio E * ConnectionImpl) :
  con_steps send_fn st (run_actions acts st).1 (run_actions acts st).2.
Proof.
  revert st. induction acts as [|a acts IH]; intros [r c]; simpl; [constructor|].
  apply (steps_cons send_fn _ _ (act a (r, c)).2); [destruct a; simpl; constructor | apply IH].
Qed.

End Scripts.

(** ** Well-formed frames and packets

    A CRTP frame is at most [1 + CRTP_MAX_PAYLOAD] bytes; the radio can
    return acknowledgements of up to 32, so the invariant below is stated
    for runs in which every acknowledgement fits a CRTP frame. *)

Definition frame_wf (f : list Z) : bool :=
  forallb is_byte f && (1 <=? length f)%nat && (length f <=? S CRTP_MAX_PAYLOAD)%nat.

Definition ack_wf (a : Ack) : bool :=
  forallb is_byte (ack_data a) && (length (ack_data a) <=? S CRTP_MAX_PAYLOAD)%nat.

Definition wf_queue (q : list Packet) : Prop := Forall (fun p => wf_packet p = true) q.

(** The type invariant of a connection: both queues hold CRTP packets and
    [rssi_latest] is a [uint8_t]. *)
Definition con_wf (c : ConnectionImpl) : Prop :=
  wf_queue (queue_send_ c) /\ wf_queue (queue_recv_ c) /\ is_byte (rssi_latest (statistics_ c)) = true.

Definition action_wf (a : Action) : bool := match a with ASend p => wf_packet p | _ => true end.

(** The frame a cycle hands to [sendPacket], by the branch [run] takes. *)
Definition select_frame (c : ConnectionImpl) : list Z :=
  if useSafelink_ c
  then (if safelinkInitialized_ c then raw (safelink_packet c) else enableSafelink)
  else match pq_top (queue_send_ c) with Some p => raw p | None => ping end.

Definition sent_frame {E} (s : Step E) : option (list Z) :=
  match st_labels s with LTx _ f _ :: _ => Some f | _ => None end.

Lemma wf_packet_raw (p : Packet) : wf_packet p = true -> frame_wf (raw p) = true.
Proof.
  unfold wf_packet, frame_wf, raw. cbn [forallb length].
  rewrite !andb_true_iff, !Nat.leb_le. intros [[Hh Hp] Hl]. split_and!; done || lia.
Qed.

Lemma wf_queue_top (q : list Packet) (t : Packet) :
  wf_queue q -> pq_top q = Some t -> wf_packet t = true.
Proof. destruct q; cbn; [done|]. intros Hq [= <-]. by inversion Hq. Qed.

Lemma wf_queue_pop (q : list Packet) : wf_queue q -> wf_queue (pq_pop q).
Proof. destruct q; cbn; [done|]. by inversion 1. Qed.

Lemma wf_queue_push (p : Packet) (q : list Packet) :
  wf_packet p = true -> wf_queue q -> wf_queue (pq_push p q).
Proof. intros Hp Hq. unfold wf_queue. rewrite pq_push_perm. by constructor. Qed.

Lemma wf_set_seq (p : Packet) (n : nat) : wf_packet (set_seq p n) = wf_packet p.
Proof. done. Qed.

Lemma wf_setSafelink (p : Packet) (x : Z) :
  wf_packet p = true -> 0 <= x < 4 -> wf_packet (setSafelink p x) = true.
Proof.
  unfold wf_packet. intros [[Hh Hpl]%andb_true_iff Hl]%andb_true_iff Hx.
  destruct (setSafelink_fields p x Hh Hx) as (_ & _ & _ & Hh').
  rewrite Hh'. cbn [setSafelink set_header payload]. by rewrite Hpl, Hl.
Qed.

Lemma wf_safelink_packet (c : ConnectionImpl) :
  wf_queue (queue_send_ c) -> wf_packet (safelink_packet c) = true.
Proof.
  intros Hq. unfold safelink_packet. apply wf_setSafelink; [|apply safelink_bits_range].
  destruct (pq_top _) eqn:Ht; [by eapply wf_queue_top|done].
Qed.

Lemma select_frame_wf (c : ConnectionImpl) :
  wf_queue (queue_send_ c) -> frame_wf (select_frame c) = true.
Proof.
  intros Hq. unfold select_frame.
  destruct (useSafelink_ c); [destruct (safelinkInitialized_ c)|].
  - by apply wf_packet_raw, wf_safelink_packet.
  - done.
  - destruct (pq_top _) eqn:Ht; [|done]. by eapply wf_packet_raw, wf_queue_top.
Qed.

Lemma ack_packet_wf (a : Ack) (n : nat) :
  ack_wf a = true -> wf_packet (set_seq (of_raw (ack_data a)) n) = true.
Proof.
  unfold ack_wf, wf_packet. destruct (ack_data a) as [|h t]; [done|]. cbn.
  rewrite !andb_true_iff, !Nat.leb_le. intros [[Hh Ht] Hl]. split_and!; done || lia.
Qed.

Lemma rssi_byte_wf (a : Ack) : ack_wf a = true -> is_byte (rssi_byte (ack_data a)) = true.
Proof.
  unfold ack_wf, rssi_byte. destruct (ack_data a) as [|h [|x t]]; [done..|]. cbn.
  by rewrite !andb_true_iff; intros [(_ & Hx & _) _].
Qed.

Section Wf.
Context {E : Type}.
Variable send_fn : RadioCfg -> list Z -> E -> Ack * E.

Lemma sent_frame_select (r : Radio E) (c : ConnectionImpl) :
  sent_frame (select_send send_fn r c) = Some (select_frame c).
Proof.
  unfold select_send, select_frame, safelink_send, safelink_handshake, plain_send, transmit.
  repeat case_match; done.
Qed.

Lemma enqueue_result_wf (c : ConnectionImpl) (a : Ack) :
  con_wf c -> ack_wf a = true -> con_wf (enqueue_result c a).1.
Proof.
  intros (Hs & Hr & Hb) Ha. unfold enqueue_result.
  destruct (ack_ok a); [|done]. destruct (is_rssi_frame _); unfold con_wf; simpl_con.
  - split_and!; [done|done|by apply rssi_byte_wf].
  - split_and!; [done| |done]. by apply wf_queue_push; [apply ack_packet_wf|].
Qed.

Lemma con_cycle_wf (r : Radio E) (c : ConnectionImpl) :
  con_wf c ->
  let '(r', c', l) := con_cycle send_fn r c in
  Forall (fun t => ack_wf t.2 = true) (transmissions l) ->
  con_wf c' /\ Forall (fun t => frame_wf t.1.2 = true) (transmissions l) /\ dequeued l = [].
Proof.
  intros Hc. pose proof (con_cycle_queues send_fn r c) as Hq.
  destruct (con_cycle send_fn r c) as [[r' c'] l] eqn:Hcy. destruct Hq as (_ & _ & Hd & _).
  revert Hcy. rewrite con_cycle_unfold.
  pose proof (select_send_queue send_fn (reconfigure r c) c) as Hpt.
  pose proof (sent_frame_select (reconfigure r c) c) as Hf.
  pose proof (select_send_spec send_fn (reconfigure r c) c) as (Hs & Hr & _ & _ & f & pops & Hl).
  destruct (select_send send_fn (reconfigure r c) c) as [r1 c1 a l1]; simpl in *.
  pose proof (enqueue_result_spec c1 a) as He. pose proof (enqueue_result_wf c1 a) as Hw.
  destruct (enqueue_result c1 a) as [c2 l2].
  destruct He as (_ & _ & _ & _ & _ & _ & _ & _ & _ & _ & Ht2 & _).
  intros [= <- <- <-]. subst l1. unfold sent_frame in Hf; simpl in Hf. injection Hf as ->.
  pose proof (labels_of_pops pops) as (_ & _ & Htp & _).
  cbn [app transmissions]. rewrite transmissions_app, Htp, Ht2. cbn [app].
  rewrite !Forall_singleton. intros Ha.
  destruct Hc as (Hcs & Hcr & Hcb). split_and!; [|by apply select_frame_wf|done].
  apply Hw; [|done]. split_and!.
  - destruct Hpt as [(-> & _)|(t & _ & -> & _)]; [done|by apply wf_queue_pop].
  - by rewrite Hr.
  - by rewrite Hs.
Qed.

Lemma act_wf (a : Action) (st : Radio E * ConnectionImpl) :
  con_wf st.2 -> action_wf a = true ->
  Forall (fun t => ack_wf t.2 = true) (transmissions (act send_fn a st).1) ->
  con_wf (act send_fn a st).2.2 /\
  Forall (fun t => frame_wf t.1.2 = true) (transmissions (act send_fn a st).1) /\
  Forall (fun p => wf_packet p = true) (dequeued (act send_fn a st).1).
Proof.
  destruct st as [r c]. intros Hc Ha. destruct a as [p| |]; cbn [act fst snd].
  - intros _. destruct Hc as (Hs & Hr & Hb). unfold queue_send_push. simpl_con.
    split_and!; [split_and!; [by apply wf_queue_push|done..]|done..].
  - pose proof (con_cycle_wf r c Hc) as H. destruct (con_cycle send_fn r c) as [[r' c'] l].
    cbn [fst snd] in *. intros Ha'. destruct (H Ha') as (? & ? & ->). done.
  - intros _. rewrite recv_labels_top. destruct Hc as (Hs & Hr & Hb). unfold recv_pop.
    destruct (pq_top (queue_recv_ c)) eqn:Ht; simpl_con.
    + split_and!; [split_and!; [done|by apply wf_queue_pop|done]|done|].
      apply Forall_singleton. by eapply wf_queue_top.
    + split_and!; [split_and!|..]; done.
Qed.

(** C24: the type invariant of a connection holds over every scripted
    interleaving of application sends of CRTP packets, worker cycles and
    receives, as long as every acknowledgement the radio returns fits a
    CRTP frame: both queues keep holding CRTP packets (header byte,
    payload of at most 30 bytes), [rssi_latest] stays a byte, every frame
    handed to [sendPacket] is 1 to 31 bytes, and every packet [recv]
    returns is a CRTP packet. *)
Theorem run_actions_wf (acts : list Action) (st : Radio E * ConnectionImpl) :
  con_wf st.2 -> forallb action_wf acts = true ->
  Forall (fun t => ack_wf t.2 = true) (transmissions (run_actions send_fn acts st).1) ->
  con_wf (run_actions send_fn acts st).2.2 /\
  Forall (fun t => frame_wf t.1.2 = true) (transmissions (run_actions send_fn acts st).1) /\
  Forall (fun p => wf_packet p = true) (dequeued (run_actions send_fn acts st).1).
Proof.
  revert st. induction acts as [|a acts IH]; intros st Hc Hall Ha; [cbn; by split_and!|].
  cbn [forallb] in Hall. apply andb_true_iff in Hall as [Ha1 Hall].
  cbn [run_actions fst snd] in *. rewrite transmissions_app in Ha |- *. rewrite dequeued_app.
  apply Forall_app in Ha as [Ha1' Ha2].
  destruct (act_wf a st Hc Ha1 Ha1') as (Hc1 & Hf1 & Hd1).
  destruct (IH _ Hc1 Hall Ha2) as (Hc2 & Hf2 & Hd2).
  split_and!; [done|apply Forall_app; by split..].
Qed.

End Wf.

(** ** The frames as the target reads them, and scenario S4 *)

(** The frames a run put on the air, in order. *)
Definition frames (l : list Label) : list (list Z) := (fun t => t.1.2) <$> transmissions l.

Lemma frames_app (l1 l2 : list Label) : frames (l1 ++ l2) = frames l1 ++ frames l2.
Proof. unfold frames. by rewrite transmissions_app, fmap_app. Qed.

Lemma run_actions_app {E} (send_fn : RadioCfg -> list Z -> E -> Ack * E)
    (a1 a2 : list Action) (st : Radio E * ConnectionImpl) :
  run_actions send_fn (a1 ++ a2) st =
  ((run_actions send_fn a1 st).1 ++ (run_actions send_fn a2 (run_actions send_fn a1 st).2).1,
   (run_actions send_fn a2 (run_actions send_fn a1 st).2).2).
Proof.
  revert st. induction a1 as [|a a1 IH]; intros st; cbn [app run_actions fst snd]; [by destruct (run_actions send_fn a2 st)|].
  rewrite IH. cbn [fst snd]. by rewrite app_assoc.
Qed.

(** The target parses a frame with [Packet(data, size)]. *)
Lemma of_raw_raw (p : Packet) : of_raw (raw p) = mkPacket (header p) (payload p) 0 default_priority.
Proof. done. Qed.

(** C25: the frame of a safelink transmission round-trips through the
    target's parser: the port, the channel and the payload are those of
    the packet at the top of the send queue (of the link-control ping,
    port 15 channel 3 and no payload, when the queue is empty), and the
    safelink field carries [safelinkUp_ << 1 | safelinkDown_]
    (specification, section 8, property 6). *)
Theorem safelink_frame_roundtrip (c : ConnectionImpl) :
  Forall (fun p => is_byte (header p) = true) (queue_send_ c) ->
  safelink (of_raw (raw (safelink_packet c))) = safelink_bits (safelinkUp_ c) (safelinkDown_ c) /\
  match pq_top (queue_send_ c) with
  | Some t => port (of_raw (raw (safelink_packet c))) = port t /\
              channel (of_raw (raw (safelink_packet c))) = channel t /\
              payload (of_raw (raw (safelink_packet c))) = payload t
  | None => port (of_raw (raw (safelink_packet c))) = 15 /\
            channel (of_raw (raw (safelink_packet c))) = 3 /\
            payload (of_raw (raw (safelink_packet c))) = []
  end.
Proof.
  intros Hq. rewrite of_raw_raw. unfold safelink_packet.
  destruct (queue_send_ c) as [|t q]; cbn [pq_top head].
  - by destruct (safelinkUp_ c), (safelinkDown_ c).
  - apply Forall_inv in Hq.
    destruct (setSafelink_fields t _ Hq (safelink_bits_range (safelinkUp_ c) (safelinkDown_ c)))
      as (H1 & H2 & H3 & _).
    split_and!; [exact H1|exact H2|exact H3|done].
Qed.

Section Drain.
Context {E : Type}.
Variable send_fn : RadioCfg -> list Z -> E -> Ack * E.

Lemma transmit_ack (r : Radio E) (c : ConnectionImpl) (f : list Z) :
  st_ack (transmit send_fn r c f) = (send_fn (r_cfg r) f (r_env r)).1.
Proof. unfold transmit, sendPacket. by destruct (send_fn _ _ _). Qed.

Lemma con_cycle_transmissions (r : Radio E) (c : ConnectionImpl) :
  transmissions (con_cycle send_fn r c).2 =
  [(r_cfg (reconfigure r c), select_frame c, st_ack (select_send send_fn (reconfigure r c) c))].
Proof.
  rewrite con_cycle_unfold. cbn [snd].
  pose proof (sent_frame_select send_fn (reconfigure r c) c) as Hf.
  pose proof (select_send_spec send_fn (reconfigure r c) c) as (_ & _ & _ & _ & f & pops & Hl).
  destruct (select_send send_fn (reconfigure r c) c) as [r1 c1 a l1]; simpl in *.
  pose proof (enqueue_result_spec c1 a) as He. destruct (enqueue_result c1 a) as [c2 l2].
  destruct He as (_ & _ & _ & _ & _ & _ & _ & _ & _ & _ & Ht2 & _).
  subst l1. unfold sent_frame in Hf; simpl in Hf. injection Hf as ->.
  pose proof (labels_of_pops pops) as (_ & _ & Htp & _).
  cbn [snd app transmissions]. by rewrite transmissions_app, Htp, Ht2.
Qed.

(** A cycle keeps the fields fixed at construction. *)
Lemma con_cycle_identity (r : Radio E) (c : ConnectionImpl) :
  con_identity (con_cycle send_fn r c).1.2 = con_identity c.
Proof.
  rewrite con_cycle_unfold. cbn [fst snd].
  pose proof (select_send_spec send_fn (reconfigure r c) c) as (_ & _ & Hi & _).
  destruct (select_send send_fn (reconfigure r c) c) as [r1 c1 a l1]; simpl in *.
  pose proof (enqueue_result_spec c1 a) as He. destruct (enqueue_result c1 a) as [c2 l2].
  destruct He as (_ & Hi2 & _). cbn. by rewrite Hi2.
Qed.

(** The environment answers the frame of the branch [run] takes, and the
    radio keeps the environment's new state. *)
Lemma con_cycle_env (r : Radio E) (c : ConnectionImpl) :
  send_fn (r_cfg (reconfigure r c)) (select_frame c) (r_env r) =
  (st_ack (select_send send_fn (reconfigure r c) c), r_env (con_cycle send_fn r c).1.1).
Proof.
  pose proof (reconfigure_spec r c) as (_ & _ & Henv & _). rewrite <- Henv.
  rewrite con_cycle_unfold. cbn [fst]. generalize (reconfigure r c) as r0. intros r0.
  unfold select_send, select_frame, safelink_send, safelink_handshake, plain_send, transmit, sendPacket.
  destruct (useSafelink_ c); [destruct (safelinkInitialized_ c)|destruct (pq_top (queue_send_ c))];
    destruct (send_fn _ _ _) as [a e]; cbn; repeat case_match; done.
Qed.

Hypothesis acked : forall cfg f e, ack_ok (send_fn cfg f e).1 = true.

(** With a target that acknowledges every frame, a cycle on a connection
    without safelink sends the top of the send queue and pops it. *)
Lemma con_cycle_plain_acked (r : Radio E) (c : ConnectionImpl) (t : Packet) :
  useSafelink_ c = false -> pq_top (queue_send_ c) = Some t ->
  let '(r', c', l) := con_cycle send_fn r c in
  queue_send_ c' = pq_pop (queue_send_ c) /\ frames l = [raw t] /\
  sent_count (statistics_ c') = S (sent_count (statistics_ c)) /\
  enqueued_count (statistics_ c') = enqueued_count (statistics_ c) /\ useSafelink_ c' = false.
Proof.
  intros Hu Ht. pose proof (con_cycle_transmissions r c) as Htx.
  assert (Hf : select_frame c = raw t) by (unfold select_frame; by rewrite Hu, Ht).
  revert Htx. rewrite con_cycle_unfold. cbn [fst snd]. rewrite Hf.
  pose proof (select_send_spec send_fn (reconfigure r c) c) as (Hs & _ & Hi & _).
  assert (Hq : queue_send_ (st_con (select_send send_fn (reconfigure r c) c)) = pq_pop (queue_send_ c)).
  { unfold select_send, plain_send. rewrite Hu, Ht, transmit_ack, acked. done. }
  destruct (select_send send_fn (reconfigure r c) c) as [r1 c1 a l1]; simpl in *.
  pose proof (enqueue_result_spec c1 a) as He. destruct (enqueue_result c1 a) as [c2 l2].
  destruct He as (Hq2 & Hi2 & _ & Hs2 & He2 & _).
  intros Htx. unfold frames. rewrite Htx. cbn.
  apply (f_equal snd) in Hi, Hi2. cbn in Hi, Hi2.
  rewrite Hq2, Hs2, He2, Hs, Hi2, Hi. done.
Qed.

Lemma cycles_plain_drain (k : nat) (r : Radio E) (c : ConnectionImpl) :
  useSafelink_ c = false -> (k <= length (queue_send_ c))%nat ->
  let '(l, (r', c')) := run_actions send_fn (repeat ACycle k) (r, c) in
  frames l = raw <$> take k (queue_send_ c) /\ popped l = take k (queue_send_ c) /\
  queue_send_ c' = drop k (queue_send_ c) /\
  sent_count (statistics_ c') = (sent_count (statistics_ c) + k)%nat /\
  enqueued_count (statistics_ c') = enqueued_count (statistics_ c) /\ useSafelink_ c' = false.
Proof.
  revert r c. induction k as [|k IH]; intros r c Hu Hk.
  { cbn. rewrite drop_0. split_and!; done || lia. }
  destruct (queue_send_ c) as [|t q] eqn:Hq; [simpl in Hk; lia|].
  pose proof (con_cycle_plain_acked r c t Hu ltac:(by rewrite Hq)) as Hc.
  pose proof (con_cycle_queues send_fn r c) as Hpq.
  cbn [repeat run_actions act fst snd].
  destruct (con_cycle send_fn r c) as [[r1 c1] l1]. cbn [fst snd].
  rewrite Hq in Hc, Hpq. destruct Hc as (Hq1 & Hf1 & Hs1 & He1 & Hu1).
  assert (Hp1 : popped l1 = [t]).
  { destruct Hpq as ([(Heq & _)|(t' & Ht' & _ & ->)] & _); [|by injection Ht' as ->].
    rewrite Hq1 in Heq. cbn in Heq. apply (f_equal length) in Heq. cbn in Heq. lia. }
  specialize (IH r1 c1 Hu1 ltac:(rewrite Hq1; simpl in *; lia)).
  destruct (run_actions send_fn (repeat ACycle k) (r1, c1)) as [l2 [r2 c2]].
  destruct IH as (Hf2 & Hp2 & Hq2 & Hs2 & He2 & Hu2).
  cbn [fst snd]. rewrite frames_app, popped_app, Hf1, Hf2, Hp1, Hp2, Hq2, Hs2, He2, He1, Hs1, Hq1.
  cbn. split_and!; done || lia.
Qed.

End Drain.

(** [Connection::send] of a packet of the priority of every queued one,
    all numbered below [enqueued_count], appends it. *)
Lemma queue_send_push_last (c : ConnectionImpl) (p : Packet) (pr : Z) :
  Forall (fun x => priority x = pr /\ (seq x < enqueued_count (statistics_ c))%nat) (queue_send_ c) ->
  priority p = pr ->
  queue_send_ (queue_send_push c p) = queue_send_ c ++ [set_seq p (enqueued_count (statistics_ c))].
Proof.
  intros Hq Hp. unfold queue_send_push. simpl_con. apply pq_push_last.
  eapply Forall_impl; [exact Hq|]. intros x [Hx Hs]. apply packet_lt_false. cbn. lia.
Qed.

Lemma sends_append {E} (send_fn : RadioCfg -> list Z -> E -> Ack * E)
    (ps : list Packet) (pr : Z) (r : Radio E) (c : ConnectionImpl) :
  Forall (fun x => priority x = pr /\ (seq x < enqueued_count (statistics_ c))%nat) (queue_send_ c) ->
  Forall (fun p => priority p = pr) ps ->
  let '(l, (r', c')) := run_actions send_fn (map ASend ps) (r, c) in
  l = [] /\ (exists qs, queue_send_ c' = queue_send_ c ++ qs /\ raw <$> qs = raw <$> ps /\
                        seq <$> qs = List.seq (enqueued_count (statistics_ c)) (length ps)) /\
  sent_count (statistics_ c') = sent_count (statistics_ c) /\ useSafelink_ c' = useSafelink_ c.
Proof.
  revert c. induction ps as [|p ps IH]; intros c Hq Hps.
  { cbn. split_and!; [done| |done..]. exists []. by rewrite app_nil_r. }
  apply Forall_cons in Hps as [Hp Hps]. cbn [map run_actions act fst snd].
  pose proof (queue_send_push_last c p pr Hq Hp) as Hpush.
  assert (Hq' : Forall (fun x => priority x = pr /\
                  (seq x < enqueued_count (statistics_ (queue_send_push c p)))%nat)
                  (queue_send_ (queue_send_push c p))).
  { rewrite Hpush. apply Forall_app. split; [|apply Forall_singleton; cbn; lia].
    eapply Forall_impl; [exact Hq|]. cbn. intros x [? ?]. lia. }
  specialize (IH (queue_send_push c p) Hq' Hps).
  destruct (run_actions send_fn (map ASend ps) (r, queue_send_push c p)) as [l [r' c']].
  destruct IH as (-> & (qs & Hqs & Hraw & Hseq) & Hs & Hu). cbn [app].
  split_and!; [done| |done|done].
  exists (set_seq p (enqueued_count (statistics_ c)) :: qs).
  rewrite Hqs, Hpush, <- app_assoc. split_and!; [done|by rewrite !fmap_cons, Hraw|].
  rewrite fmap_cons, Hseq. done.
Qed.

(** C26: scenario S4 of the specification.  From a freshly constructed
    connection without safelink, whose target acknowledges every frame,
    the application sends packets of one priority and the worker then
    runs one cycle per packet: exactly those packets went on the air, in
    the order they were sent, the send queue is empty, and [sent_count]
    is the number of packets. *)
Theorem plain_sends_drain_in_order {E} (send_fn : RadioCfg -> list Z -> E -> Ack * E)
    (acked : forall cfg f e, ack_ok (send_fn cfg f e).1 = true)
    (r : Radio E) (c : ConnectionImpl) (ps : list Packet) (pr : Z) :
  fresh c -> useSafelink_ c = false -> Forall (fun p => priority p = pr) ps ->
  let '(l, (r', c')) := run_actions send_fn (map ASend ps ++ repeat ACycle (length ps)) (r, c) in
  frames l = raw <$> ps /\ seq <$> popped l = List.seq 0 (length ps) /\
  queue_send_ c' = [] /\ sent_count (statistics_ c') = length ps.
Proof.
  intros (Hq & _ & Hst) Hu Hps. rewrite run_actions_app.
  pose proof (sends_append send_fn ps pr r c ltac:(by rewrite Hq) Hps) as Hs.
  destruct (run_actions send_fn (map ASend ps) (r, c)) as [l1 [r1 c1]]. cbn [fst snd].
  destruct Hs as (-> & (qs & Hqs & Hraw & Hseq) & Hsent & Hu1). rewrite Hq in Hqs. cbn in Hqs.
  rewrite Hst in Hseq. cbn in Hseq.
  assert (Hlen : length qs = length ps) by (by rewrite <- (length_fmap raw qs), Hraw, length_fmap).
  pose proof (cycles_plain_drain send_fn acked (length ps) r1 c1 ltac:(by rewrite Hu1)
                ltac:(rewrite Hqs; lia)) as Hc.
  destruct (run_actions send_fn (repeat ACycle (length ps)) (r1, c1)) as [l2 [r2 c2]].
  destruct Hc as (Hf & Hp & Hq2 & Hs2 & _). rewrite Hqs, <- Hlen, take_ge, drop_ge in * by lia.
  rewrite Hsent, Hst in Hs2. cbn in Hs2. cbn [fst snd app].
  split_and!; [by rewrite Hf, Hraw|by rewrite Hp, Hseq|done|lia].
Qed.

(** A scripted air: the acks a test harness would feed back, in order;
    once they run out, nothing is acknowledged. *)
Definition scripted (cfg : RadioCfg) (f : list Z) (acks : list Ack) : Ack * list Ack :=
  match acks with a :: rest => (a, rest) | [] => (no_ack, []) end.

Definition ex_radio (acks : list Ack) : Radio (list Ack) :=
  mkRadio 0 2 Datarate_250KPS false 0 acks.

(** [radio://0/80/2M/E7E7E7E7E7] as the constructor leaves it. *)
Definition ex_con (safelink : bool) : ConnectionImpl :=
  mkConn "radio://0/80/2M/E7E7E7E7E7"%string 0 false 80 Datarate_2MPS 996028180455
    safelink false false false [] [] stats0.

Definition ex_packet (n : Z) : Packet := mkPacket 48 [n] 0 default_priority.

Definition ack_with (data : list Z) : Ack := mkAck true data.

(** Scenario S4 of the specification with a lost ack and an RSSI frame:
    three sends, four cycles (the second one unacknowledged), a receive. *)
Definition ex_script : list Action :=
  [ASend (ex_packet 1); ASend (ex_packet 2); ACycle; ASend (ex_packet 3);
   ACycle; ACycle; ACycle; ARecv].
Definition ex_acks : list Ack :=
  [ack_with [243; 40]; no_ack; ack_with [16; 7]; ack_with [243; 41]].

(** An initialised safelink connection with one queued packet. *)
Definition ex_safelink_con : ConnectionImpl :=
  queue_send_push (set_safelink (ex_con true) true false false) (ex_packet 9).

(** ** Witnesses *)

Lemma send_queue_fifo_witness :
  fresh (ex_con false) /\
  ForallOrdPairs R_fifo (popped (run_actions scripted ex_script (ex_radio ex_acks, ex_con false)).1) /\
  seq <$> popped (run_actions scripted ex_script (ex_radio ex_acks, ex_con false)).1 = [0; 1; 2]%nat.
Proof.
  split; [by split_and!|]. split; [|vm_compute; reflexivity].
  eapply (send_queue_fifo scripted (ex_radio ex_acks) (ex_con false)); [by split_and!|].
  apply run_actions_steps.
Defined.

Lemma send_queue_conservation_witness :
  fresh (ex_con false) /\
  NoDup (seq <$> (popped (run_actions scripted ex_script (ex_radio ex_acks, ex_con false)).1 ++
                  queue_send_ (run_actions scripted ex_script (ex_radio ex_acks, ex_con false)).2.2)) /\
  (length (queue_send_ (run_actions scripted ex_script (ex_radio ex_acks, ex_con false)).2.2) +
   length (popped (run_actions scripted ex_script (ex_radio ex_acks, ex_con false)).1))%nat =
  enqueued_count (statistics_ (run_actions scripted ex_script (ex_radio ex_acks, ex_con false)).2.2).
Proof.
  split; [by split_and!|].
  eapply (send_queue_conservation scripted (ex_radio ex_acks) (ex_con false)); [by split_and!|].
  apply run_actions_steps.
Defined.

Lemma recv_in_ack_order_witness :
  fresh (ex_con false) /\
  received (run_actions scripted ex_script (ex_radio ex_acks, ex_con false)).1 =
    dequeued (run_actions scripted ex_script (ex_radio ex_acks, ex_con false)).1 ++
    queue_recv_ (run_actions scripted ex_script (ex_radio ex_acks, ex_con false)).2.2 /\
  seq <$> received (run_actions scripted ex_script (ex_radio ex_acks, ex_con false)).1 =
    List.seq 0 (length (received (run_actions scripted ex_script (ex_radio ex_acks, ex_con false)).1)) /\
  receive_count (statistics_ (run_actions scripted ex_script (ex_radio ex_acks, ex_con false)).2.2) =
    length (received (run_actions scripted ex_script (ex_radio ex_acks, ex_con false)).1).
Proof.
  split; [by split_and!|].
  eapply (recv_in_ack_order scripted (ex_radio ex_acks) (ex_con false)); [by split_and!|].
  apply run_actions_steps.
Defined.

Lemma safelink_lost_ack_retransmits_witness :
  useSafelink_ ex_safelink_con = true /\ safelinkInitialized_ ex_safelink_con = true /\
  let '(r', c', l) := con_cycle scripted (ex_radio [no_ack]) ex_safelink_con in
  exists a, transmissions l = [(con_cfg ex_safelink_con, raw (safelink_packet ex_safelink_con), a)] /\
  (ack_ok a = false ->
     popped l = [] /\ queue_send_ c' = queue_send_ ex_safelink_con /\
     safelinkUp_ c' = safelinkUp_ ex_safelink_con /\
     safelinkDown_ c' = safelinkDown_ ex_safelink_con /\
     safelink_packet c' = safelink_packet ex_safelink_con).
Proof.
  split; [reflexivity|]. split; [reflexivity|].
  apply safelink_lost_ack_retransmits; reflexivity.
Defined.

Lemma safelink_ack_advances_witness :
  useSafelink_ ex_safelink_con = true /\ safelinkInitialized_ ex_safelink_con = true /\
  let '(r', c', l) := con_cycle scripted (ex_radio [ack_with [4]]) ex_safelink_con in
  exists a, transmissions l = [(con_cfg ex_safelink_con, raw (safelink_packet ex_safelink_con), a)] /\
  (ack_ok a = true ->
     popped l = option_list (pq_top (queue_send_ ex_safelink_con)) /\
     queue_send_ c' = pq_pop (queue_send_ ex_safelink_con) /\
     safelinkUp_ c' = negb (safelinkUp_ ex_safelink_con) /\
     safelinkDown_ c' = xorb (safelinkDown_ ex_safelink_con)
                             (down_matches a (safelinkDown_ ex_safelink_con))).
Proof.
  split; [reflexivity|]. split; [reflexivity|].
  apply safelink_ack_advances; reflexivity.
Defined.

(** A stale acknowledgement: bit 2 set while [safelinkDown_] is false. *)
Definition stale_ack : Ack := ack_with [4; 7].

Lemma safelink_stale_ack_delivered_witness :
  let '(r', c', l) := con_cycle scripted (ex_radio [stale_ack]) ex_safelink_con in
  exists a, transmissions l = [(con_cfg ex_safelink_con, raw (safelink_packet ex_safelink_con), a)] /\
  (ack_ok a = true -> down_matches a (safelinkDown_ ex_safelink_con) = false ->
   is_rssi_frame (of_raw (ack_data a)) = false ->
     safelinkDown_ c' = safelinkDown_ ex_safelink_con /\
     received l = [set_seq (of_raw (ack_data a)) (receive_count (statistics_ ex_safelink_con))]).
Proof. apply safelink_stale_ack_delivered; reflexivity. Defined.


(** The run of [ex_ops] (four sends, five pops) on the linear-scan
    reference queue and on the model of a fresh connection's send queue:
    the same [top]s, the higher priority first and then FIFO. *)
Lemma send_queue_any_priority_queue_witness :
  send_inv (ex_con false) [] /\
  observe (stamp (enqueued_count (statistics_ (ex_con false))) ex_ops) (RefQueue []) =
    send_queue_trace ex_ops (ex_con false) /\
  map (option_map seq) (send_queue_trace ex_ops (ex_con false)) = [Some 0; Some 2; Some 1; Some 3; None]%nat.
Proof.
  assert (Hi : send_inv (ex_con false) []) by (apply send_inv_fresh; by split_and!).
  split; [done|]. split; [|vm_compute; reflexivity].
  apply (send_queue_any_priority_queue (Q := ref_queue) _ [] (RefQueue [])); [done|reflexivity].
Defined.

(** Two cycles, the target repeating the same payload with the stale
    parity: the payload [7] reaches the receive queue twice. *)
Example safelink_duplicate_delivery :
  payload <$> received (run_actions scripted [ACycle; ACycle]
                          (ex_radio [stale_ack; stale_ack], ex_safelink_con)).1 = [[7]; [7]].
Proof. vm_compute. reflexivity. Qed.

(** The scripted run of scenario S4: every acknowledgement fits a CRTP
    frame, and the connection stays well formed. *)
Lemma run_actions_wf_witness :
  con_wf (run_actions scripted ex_script (ex_radio ex_acks, ex_con false)).2.2 /\
  Forall (fun t => frame_wf t.1.2 = true)
    (transmissions (run_actions scripted ex_script (ex_radio ex_acks, ex_con false)).1) /\
  Forall (fun p => wf_packet p = true)
    (dequeued (run_actions scripted ex_script (ex_radio ex_acks, ex_con false)).1).
Proof.
  apply run_actions_wf; [split_and!; [constructor|constructor|reflexivity]|reflexivity|].
  apply (bool_decide_unpack _). vm_compute. reflexivity.
Defined.

(** A 32-byte acknowledgement, which the radio returns, becomes a packet
    of 31 payload bytes on the receive queue: the invariant is lost. *)
Example oversized_ack_breaks_wf :
  con_wf (ex_con false) /\
  map size (queue_recv_ (run_actions scripted [ACycle]
                           (ex_radio [ack_with (repeat 1 32)], ex_con false)).2.2) = [31%nat] /\
  ~ con_wf (run_actions scripted [ACycle] (ex_radio [ack_with (repeat 1 32)], ex_con false)).2.2.
Proof.
  split_and!; [split_and!; [constructor|constructor|reflexivity]|vm_compute; reflexivity|].
  intros (_ & Hr & _). apply Forall_inv in Hr. vm_compute in Hr. discriminate.
Qed.

(** The frame of the initialised safelink connection with packet [9]
    queued: header [48] keeps its port and channel, and the safelink
    field is [0]. *)
Lemma safelink_frame_roundtrip_witness :
  Forall (fun p => is_byte (header p) = true) (queue_send_ ex_safelink_con) /\
  (safelink (of_raw (raw (safelink_packet ex_safelink_con))) =
     safelink_bits (safelinkUp_ ex_safelink_con) (safelinkDown_ ex_safelink_con) /\
   match pq_top (queue_send_ ex_safelink_con) with
   | Some t => port (of_raw (raw (safelink_packet ex_safelink_con))) = port t /\
               channel (of_raw (raw (safelink_packet ex_safelink_con))) = channel t /\
               payload (of_raw (raw (safelink_packet ex_safelink_con))) = payload t
   | None => port (of_raw (raw (safelink_packet ex_safelink_con))) = 15 /\
             channel (of_raw (raw (safelink_packet ex_safelink_con))) = 3 /\
             payload (of_raw (raw (safelink_packet ex_safelink_con))) = []
   end).
Proof.
  assert (Hq : Forall (fun p => is_byte (header p) = true) (queue_send_ ex_safelink_con))
    by (apply (bool_decide_unpack _); vm_compute; reflexivity).
  split; [exact Hq|]. exact (safelink_frame_roundtrip ex_safelink_con Hq).
Defined.

(** A target that acknowledges every frame with an RSSI sample; its state
    counts the frames. *)
Definition ack_all (cfg : RadioCfg) (f : list Z) (n : nat) : Ack * nat := (ack_with [243; 40], S n).

Definition ex_three : list Packet := [ex_packet 1; ex_packet 2; ex_packet 3].

Lemma plain_sends_drain_in_order_witness :
  let '(l, (r', c')) := run_actions ack_all (map ASend ex_three ++ repeat ACycle (length ex_three))
                          (mkRadio 0 2 Datarate_250KPS false 0 0%nat, ex_con false) in
  frames l = raw <$> ex_three /\ seq <$> popped l = List.seq 0 (length ex_three) /\
  queue_send_ c' = [] /\ sent_count (statistics_ c') = length ex_three.
Proof.
  assert (Hf : fresh (ex_con false)) by (by split_and!).
  assert (Hps : Forall (fun p => priority p = 0) ex_three) by (repeat constructor).
  exact (plain_sends_drain_in_order ack_all (fun _ _ _ => eq_refl)
           (mkRadio 0 2 Datarate_250KPS false 0 0%nat) (ex_con false) ex_three 0 Hf eq_refl Hps).
Defined.

(** The scripted run of scenario S4 with a lost ack and an RSSI frame:
    four frames, three acknowledged, one packet received, one RSSI
    sample. *)
Definition ex_run : list Label * (Radio (list Ack) * ConnectionImpl) :=
  run_actions scripted ex_script (ex_radio ex_acks, ex_con false).

Lemma statistics_count_run_witness :
  fresh (ex_con false) /\
  (sent_count (statistics_ ex_run.2.2) = count is_tx ex_run.1 /\
   ack_count (statistics_ ex_run.2.2) = count is_acked_tx ex_run.1 /\
   receive_count (statistics_ ex_run.2.2) = count is_recv ex_run.1 /\
   ack_count (statistics_ ex_run.2.2) = (receive_count (statistics_ ex_run.2.2) + count is_rssi ex_run.1)%nat /\
   (ack_count (statistics_ ex_run.2.2) <= sent_count (statistics_ ex_run.2.2))%nat) /\
  (sent_count (statistics_ ex_run.2.2), ack_count (statistics_ ex_run.2.2),
   receive_count (statistics_ ex_run.2.2)) = (4, 3, 1)%nat.
Proof.
  assert (Hf : fresh (ex_con false)) by (by split_and!).
  split; [exact Hf|]. split; [|vm_compute; reflexivity].
  exact (statistics_count_run scripted (ex_radio ex_acks) (ex_con false) ex_run.1 ex_run.2 Hf
           (run_actions_steps scripted ex_script (ex_radio ex_acks, ex_con false))).
Defined.
