(* ===== verification/Safelink.v ===== *)
(** The safelink protocol end to end.  The receiving side runs in the
    Crazyflie's firmware, not in this repository: it is modelled from the
    specification (section 4, "Safelink mode, initialized": a frame whose
    up parity repeats the last accepted one is a retransmission and is
    dropped; every received frame is acknowledged, and an acknowledgement
    may be lost on the way back) as the environment [send_fn] the worker's
    radio talks to.  Against it, the worker's side ([safelink_send],
    [CrazyradioThread.cpp] lines 142-165) delivers every acknowledged frame
    exactly once and in order, whatever frames and acknowledgements the air
    loses, as long as no packet is sent meanwhile; and a send between two
    cycles breaks the guarantee, since the frame retransmitted after a lost
    acknowledgement is the queue's new top. *)

From S2P Require Import Prelude.
From S2P Require Import Crtp.
From S2P Require Import PQueue.
From S2P Require Import Radio.
From S2P Require Import ConnImpl.
From S2P Require Import Worker.

Local Open Scope Z_scope.

(** ** The target *)

(** The fate of one frame on the air. *)
Inductive Outcome := Lost | AckLost | Acked.

(** What the target keeps of a frame: port, channel and payload. *)
Definition content (f : list Z) : Z * Z * list Z :=
  let p := of_raw f in (port p, channel p, payload p).

(** The up parity of a frame, bit 3 of its header. *)
Definition up_parity (f : list Z) : bool := Z.testbit (safelink (of_raw f)) 1.

Record Target := mkTarget {
  t_expect : bool;                      (** the up parity of the next new frame *)
  t_delivered : list (Z * Z * list Z);  (** what the target accepted, in order *)
  t_script : list Outcome               (** what the air does to the next frames *)
}.

Definition accept (f : list Z) (t : Target) : Target :=
  if Bool.eqb (up_parity f) (t_expect t)
  then mkTarget (negb (t_expect t)) (t_delivered t ++ [content f]) (t_script t)
  else t.

(** The air and the target as the environment of the radio; once the
    script is exhausted every frame is lost. *)
Definition safelink_target (cfg : RadioCfg) (f : list Z) (t : Target) : Ack * Target :=
  match t_script t with
  | [] => (no_ack, t)
  | Lost :: s => (no_ack, mkTarget (t_expect t) (t_delivered t) s)
  | AckLost :: s => (no_ack, accept f (mkTarget (t_expect t) (t_delivered t) s))
  | Acked :: s => (mkAck true [], accept f (mkTarget (t_expect t) (t_delivered t) s))
  end.

(** The frames of a run that came back acknowledged. *)
Definition acked_frames (l : list Label) : list (list Z) :=
  (fun t => t.1.2) <$> List.filter (fun t => ack_ok t.2) (transmissions l).

(** The frame the target holds but the worker does not know it does: the
    one whose acknowledgement was lost, which is the next one sent. *)
Definition pending (t : Target) (c : ConnectionImpl) : list (Z * Z * list Z) :=
  if Bool.eqb (t_expect t) (safelinkUp_ c) then [] else [content (raw (safelink_packet c))].

Definition sl_ready (c : ConnectionImpl) : Prop :=
  useSafelink_ c = true /\ safelinkInitialized_ c = true /\
  Forall (fun p => is_byte (header p) = true) (queue_send_ c).

(** ** Lemmas *)

Lemma acked_frames_app (l1 l2 : list Label) :
  acked_frames (l1 ++ l2) = acked_frames l1 ++ acked_frames l2.
Proof. unfold acked_frames. by rewrite transmissions_app, List.filter_app, fmap_app. Qed.

Lemma up_parity_frame (c : ConnectionImpl) :
  Forall (fun p => is_byte (header p) = true) (queue_send_ c) ->
  up_parity (raw (safelink_packet c)) = safelinkUp_ c.
Proof.
  intros Hq. unfold up_parity.
  change (safelink (of_raw (raw (safelink_packet c)))) with (safelink (safelink_packet c)).
  unfold safelink_packet.
  destruct (queue_send_ c) as [|t q]; cbn [pq_top head].
  - by destruct (safelinkUp_ c), (safelinkDown_ c).
  - apply Forall_inv in Hq.
    destruct (setSafelink_fields t _ Hq (safelink_bits_range (safelinkUp_ c) (safelinkDown_ c)))
      as (H1 & _). rewrite H1.
    by destruct (safelinkUp_ c), (safelinkDown_ c).
Qed.

Lemma Forall_pq_pop {P : Packet -> Prop} (q : list Packet) : Forall P q -> Forall P (pq_pop q).
Proof. destruct q; cbn; [done|]. by inversion 1. Qed.

(** The target's acknowledgements carry no payload, so they never move
    [safelinkDown_]: the frame is the same until an acknowledgement. *)
Lemma down_matches_empty (b : bool) (down : bool) : down_matches (mkAck b []) down = false.
Proof. by destruct b. Qed.

(** The target keeps its script position whether it accepts or not. *)
Lemma accept_script (f : list Z) (t : Target) : t_script (accept f t) = t_script t.
Proof. unfold accept. by destruct (Bool.eqb _ _). Qed.

Lemma accept_fresh (f : list Z) (t : Target) :
  up_parity f = t_expect t ->
  accept f t = mkTarget (negb (t_expect t)) (t_delivered t ++ [content f]) (t_script t).
Proof. unfold accept. intros ->. by rewrite eqb_reflx. Qed.

Lemma accept_repeat (f : list Z) (t : Target) : up_parity f = negb (t_expect t) -> accept f t = t.
Proof. unfold accept. intros ->. by destruct (t_expect t). Qed.

(** What the target keeps of the safelink frame: the top's port, channel
    and payload, or those of the ping. *)
Lemma content_safelink_packet (c : ConnectionImpl) :
  Forall (fun p => is_byte (header p) = true) (queue_send_ c) ->
  content (raw (safelink_packet c)) =
  match pq_top (queue_send_ c) with Some t => content (raw t) | None => (15, 3, []) end.
Proof.
  intros Hq. change (content (raw (safelink_packet c)))
    with (port (safelink_packet c), channel (safelink_packet c), payload (safelink_packet c)).
  unfold safelink_packet. destruct (queue_send_ c) as [|t q]; cbn [pq_top head].
  - by destruct (safelinkUp_ c), (safelinkDown_ c).
  - apply Forall_inv in Hq.
    destruct (setSafelink_fields t _ Hq (safelink_bits_range (safelinkUp_ c) (safelinkDown_ c)))
      as (_ & H2 & H3 & _). by rewrite H2, H3.
Qed.

(** One cycle on an initialised safelink connection, against the target:
    the target answers the frame [run] builds, and the worker's state
    moves as [con_cycle_safelink] says. *)
Lemma safelink_cycle_env (r : Radio Target) (c : ConnectionImpl) :
  useSafelink_ c = true -> safelinkInitialized_ c = true ->
  let '(r', c', l) := con_cycle safelink_target r c in
  exists a,
  safelink_target (r_cfg (reconfigure r c)) (raw (safelink_packet c)) (r_env r) = (a, r_env r') /\
  transmissions l = [(con_cfg c, raw (safelink_packet c), a)] /\
  popped l = (if ack_ok a then option_list (pq_top (queue_send_ c)) else []) /\
  queue_send_ c' = (if ack_ok a then pq_pop (queue_send_ c) else queue_send_ c) /\
  safelinkUp_ c' = xorb (safelinkUp_ c) (ack_ok a) /\
  safelinkDown_ c' = xorb (safelinkDown_ c) (down_matches a (safelinkDown_ c)) /\
  safelinkInitialized_ c' = true /\ useSafelink_ c' = true /\
  enqueued_count (statistics_ c') = enqueued_count (statistics_ c).
Proof.
  intros Hu Hi.
  pose proof (con_cycle_safelink safelink_target r c Hu Hi) as Hc.
  pose proof (con_cycle_env safelink_target r c) as Henv.
  pose proof (con_cycle_transmissions safelink_target r c) as Htx.
  pose proof (con_cycle_identity safelink_target r c) as Hid.
  pose proof (con_cycle_queues safelink_target r c) as Hqs.
  assert (Hf : select_frame c = raw (safelink_packet c)) by (unfold select_frame; by rewrite Hu, Hi).
  rewrite Hf in Henv, Htx.
  destruct (con_cycle safelink_target r c) as [[r' c'] l]. cbn [fst snd] in *.
  destruct Hc as (a & Ht & Hp & Hq & Hup & Hdn & Hin & _). destruct Hqs as (_ & Hen & _).
  assert (Ha : st_ack (select_send safelink_target (reconfigure r c) c) = a)
    by (rewrite Ht in Htx; injection Htx; intros; congruence).
  rewrite Ha in Henv. apply (f_equal snd) in Hid. cbn in Hid.
  exists a. split_and!; congruence.
Qed.

Definition outcome_acked (o : Outcome) : bool := match o with Acked => true | _ => false end.

(** The target after a frame met fate [o]. *)
Definition target_after (o : Outcome) (f : list Z) (t : Target) : Target :=
  match o with Lost => t | _ => accept f t end.

(** One cycle when the air's next move is [o]. *)
Lemma safelink_cycle_outcome (r : Radio Target) (c : ConnectionImpl) (o : Outcome) (s : list Outcome) :
  useSafelink_ c = true -> safelinkInitialized_ c = true -> t_script (r_env r) = o :: s ->
  let '(r', c', l) := con_cycle safelink_target r c in
  r_env r' = target_after o (raw (safelink_packet c))
               (mkTarget (t_expect (r_env r)) (t_delivered (r_env r)) s) /\
  popped l = (if outcome_acked o then option_list (pq_top (queue_send_ c)) else []) /\
  queue_send_ c' = (if outcome_acked o then pq_pop (queue_send_ c) else queue_send_ c) /\
  safelinkUp_ c' = xorb (safelinkUp_ c) (outcome_acked o) /\
  safelinkDown_ c' = safelinkDown_ c /\ safelinkInitialized_ c' = true /\ useSafelink_ c' = true /\
  enqueued_count (statistics_ c') = enqueued_count (statistics_ c).
Proof.
  intros Hu Hi Hs. pose proof (safelink_cycle_env r c Hu Hi) as H.
  destruct (con_cycle safelink_target r c) as [[r' c'] l].
  destruct H as (a & Henv & _ & Hp & Hq & Hup & Hdn & Hin & Hus & Hen).
  unfold safelink_target in Henv. rewrite Hs in Henv.
  destruct o; injection Henv as Ha Hr; subst a; rewrite <- Hr;
    rewrite ?down_matches_empty, ?xorb_false_r in Hdn; split_and!; done.
Qed.

(** One cycle keeps the delivery invariant: what the target accepted is
    what came back acknowledged, plus the pending frame. *)
Lemma safelink_cycle_delivery (r : Radio Target) (c : ConnectionImpl) (D : list (Z * Z * list Z)) :
  sl_ready c -> t_delivered (r_env r) = D ++ pending (r_env r) c ->
  let '(r', c', l) := con_cycle safelink_target r c in
  sl_ready c' /\ t_delivered (r_env r') = (D ++ (content <$> acked_frames l)) ++ pending (r_env r') c'.
Proof.
  intros (Hu & Hi & Hh) Hd.
  pose proof (safelink_cycle_env r c Hu Hi) as Hc.
  pose proof (up_parity_frame c Hh) as Hpar.
  destruct (con_cycle safelink_target r c) as [[r' c'] l].
  destruct Hc as (a & Henv & Ht & _ & Hq & Hup & Hdn & Hin & Hid & _).
  unfold acked_frames. rewrite Ht.
  set (f := raw (safelink_packet c)) in *.
  unfold pending in *. destruct (r_env r) as [e d s]. cbn in Hd.
  unfold safelink_target in Henv; cbn [t_script t_expect t_delivered] in Henv.
  destruct s as [|[| |] s]; injection Henv as Ha' Hr'; subst a; rewrite <- Hr';
    rewrite ?down_matches_empty, ?xorb_false_r, ?xorb_true_r in Hdn, Hup; cbn in Hq.
  all: split; [split_and!; [congruence|done|rewrite Hq; by try apply Forall_pq_pop]|].
  all: unfold accept; cbn [t_delivered t_expect t_script ack_ok List.filter fst snd].
  1-3: rewrite (safelink_packet_ext c' c) by congruence; fold f.
  all: rewrite Hup, ?Hpar; destruct e, (safelinkUp_ c); cbn;
    rewrite ?Hd, ?app_nil_r, <- ?app_assoc; done.
Qed.

Lemma safelink_cycles_delivery (n : nat) (r : Radio Target) (c : ConnectionImpl)
    (D : list (Z * Z * list Z)) :
  sl_ready c -> t_delivered (r_env r) = D ++ pending (r_env r) c ->
  let '(l, (r', c')) := run_actions safelink_target (repeat ACycle n) (r, c) in
  t_delivered (r_env r') = (D ++ (content <$> acked_frames l)) ++ pending (r_env r') c'.
Proof.
  revert r c D. induction n as [|n IH]; intros r c D Hc Hd.
  { cbn. by rewrite app_nil_r. }
  cbn [repeat run_actions act fst snd].
  pose proof (safelink_cycle_delivery r c D Hc Hd) as H1.
  destruct (con_cycle safelink_target r c) as [[r1 c1] l1]. cbn [fst snd].
  destruct H1 as [Hc1 Hd1]. specialize (IH r1 c1 _ Hc1 Hd1).
  destruct (run_actions safelink_target (repeat ACycle n) (r1, c1)) as [l2 [r2 c2]].
  cbn [fst snd]. rewrite IH, acked_frames_app, fmap_app. by rewrite <- !app_assoc.
Qed.

(** C29: safelink delivers exactly once and in order.  On an initialised
    safelink connection whose target expects the up parity the worker
    holds, over any number of worker cycles and whatever frames and
    acknowledgements the air loses, the target accepts exactly the frames
    that came back acknowledged, each once and in the order they were
    sent, followed by at most the one frame whose acknowledgement was
    lost, which is the frame the worker will send next (specification,
    section 4 and section 8, property 3). *)
Theorem safelink_exactly_once (n : nat) (r : Radio Target) (c : ConnectionImpl) :
  useSafelink_ c = true -> safelinkInitialized_ c = true ->
  Forall (fun p => is_byte (header p) = true) (queue_send_ c) ->
  t_expect (r_env r) = safelinkUp_ c ->
  let '(l, (r', c')) := run_actions safelink_target (repeat ACycle n) (r, c) in
  t_delivered (r_env r') = t_delivered (r_env r) ++ (content <$> acked_frames l) ++ pending (r_env r') c'.
Proof.
  intros Hu Hi Hh He.
  assert (Hd : t_delivered (r_env r) = t_delivered (r_env r) ++ pending (r_env r) c)
    by (unfold pending; rewrite He, eqb_reflx; by rewrite app_nil_r).
  pose proof (safelink_cycles_delivery n r c _ (conj Hu (conj Hi Hh)) Hd) as H.
  destruct (run_actions safelink_target (repeat ACycle n) (r, c)) as [l [r' c']].
  by rewrite H, <- app_assoc.
Qed.

(** ** Fixtures *)

(** [radio://0/80/2M/E7E7E7E7E7?safelink=1] after the handshake, and the
    radio of a target whose air follows [s]. *)
Definition sl_con : ConnectionImpl := set_safelink (ex_con true) true false false.
Definition sl_radio (s : list Outcome) : Radio Target :=
  mkRadio 0 2 Datarate_250KPS false 0 (mkTarget false [] s).

(** A packet of a higher priority than [ex_packet]'s. *)
Definition urgent_packet : Packet := mkPacket 48 [0] 0 1.

(** C30: a packet sent after a ping whose acknowledgement was lost is
    lost.  On an initialised safelink connection with an empty send queue,
    in step with its target, let the ping's acknowledgement be lost, the
    application send a packet [p], and the next frame be acknowledged:
    that frame is [p] with the ping's up parity, the target drops it as a
    retransmission of the ping, and the worker pops it on the
    acknowledgement.  The target has gained only the ping; [p] is gone
    from the queue (against section 4 of the specification: a lost ack
    must cause a retransmission of the same frame). *)
Theorem safelink_send_after_lost_ping (r : Radio Target) (c : ConnectionImpl) (p : Packet)
    (s : list Outcome) :
  useSafelink_ c = true -> safelinkInitialized_ c = true -> queue_send_ c = [] ->
  is_byte (header p) = true -> t_expect (r_env r) = safelinkUp_ c ->
  t_script (r_env r) = AckLost :: Acked :: s ->
  let '(l, (r', c')) := run_actions safelink_target [ACycle; ASend p; ACycle] (r, c) in
  popped l = [set_seq p (enqueued_count (statistics_ c))] /\ queue_send_ c' = [] /\
  t_delivered (r_env r') = t_delivered (r_env r) ++ [(15, 3, [])].
Proof.
  intros Hu Hi Hq Hh He Hs. cbn [run_actions act fst snd].
  pose proof (safelink_cycle_outcome r c _ _ Hu Hi Hs) as H1.
  pose proof (content_safelink_packet c ltac:(by rewrite Hq)) as Hc1.
  pose proof (up_parity_frame c ltac:(by rewrite Hq)) as Hpar1.
  destruct (con_cycle safelink_target r c) as [[r1 c1] l1]. cbn [fst snd].
  destruct H1 as (Henv1 & Hp1 & Hq1 & Hup1 & Hdn1 & Hin1 & Hus1 & Hen1). cbn in Hp1, Hq1, Hup1.
  rewrite xorb_false_r in Hup1. cbn [act fst snd].
  set (c2 := queue_send_push c1 p).
  assert (Hq2 : queue_send_ c2 = [set_seq p (enqueued_count (statistics_ c))])
    by (unfold c2, queue_send_push; cbn; by rewrite Hq1, Hq, Hen1).
  assert (Hs2 : t_script (r_env r1) = Acked :: s) by (by rewrite Henv1; cbn; rewrite accept_script).
  pose proof (safelink_cycle_outcome r1 c2 _ _ Hus1 Hin1 Hs2) as H2.
  pose proof (up_parity_frame c2 ltac:(rewrite Hq2; by repeat constructor)) as Hpar2.
  destruct (con_cycle safelink_target r1 c2) as [[r2 c3] l2]. cbn [fst snd].
  destruct H2 as (Henv2 & Hp2 & Hq3 & _). rewrite Hq2 in Hp2, Hq3. cbn [outcome_acked] in Hp2, Hq3.
  rewrite !popped_app, Hp1, Hp2, Hq3, Henv2, Henv1. cbn.
  split_and!; [done|done|].
  rewrite (accept_fresh (raw (safelink_packet c))) by (rewrite Hpar1; cbn [t_expect]; by rewrite He).
  cbn [t_delivered t_expect t_script].
  rewrite accept_repeat by (rewrite Hpar2; cbn; by rewrite Hup1, He, negb_involutive).
  cbn. by rewrite Hc1, Hq.
Qed.

(** C31: a packet sent while another is under retransmission and of a
    higher priority takes its place and is lost, and the preempted packet
    is delivered twice.  On an initialised safelink connection in step
    with its target whose send queue has top [t], let the acknowledgement
    of [t]'s frame be lost, the application send [u] of a higher priority,
    and the next two frames be acknowledged: the worker pops [u] and then
    [t], but the target drops [u] (it carries [t]'s up parity) and
    accepts [t] a second time. *)
Theorem safelink_preempted_delivered_twice (r : Radio Target) (c : ConnectionImpl) (t u : Packet)
    (s : list Outcome) :
  useSafelink_ c = true -> safelinkInitialized_ c = true ->
  Forall (fun x => is_byte (header x) = true) (queue_send_ c) -> is_byte (header u) = true ->
  pq_top (queue_send_ c) = Some t -> (priority t < priority u)%Z ->
  t_expect (r_env r) = safelinkUp_ c -> t_script (r_env r) = AckLost :: Acked :: Acked :: s ->
  let '(l, (r', c')) := run_actions safelink_target [ACycle; ASend u; ACycle; ACycle] (r, c) in
  popped l = [set_seq u (enqueued_count (statistics_ c)); t] /\
  t_delivered (r_env r') = t_delivered (r_env r) ++ [content (raw t); content (raw t)].
Proof.
  intros Hu Hi Hh Hhu Ht Hpr He Hs.
  destruct (queue_send_ c) as [|t0 q] eqn:Hq; [done|]. injection Ht as ->.
  cbn [run_actions act fst snd].
  pose proof (safelink_cycle_outcome r c _ _ Hu Hi Hs) as H1.
  pose proof (content_safelink_packet c ltac:(by rewrite Hq)) as Hc1.
  pose proof (up_parity_frame c ltac:(by rewrite Hq)) as Hpar1.
  destruct (con_cycle safelink_target r c) as [[r1 c1] l1]. cbn [act fst snd].
  destruct H1 as (Henv1 & Hp1 & Hq1 & Hup1 & _ & Hin1 & Hus1 & Hen1). cbn in Hp1, Hq1, Hup1.
  rewrite xorb_false_r in Hup1.
  set (c2 := queue_send_push c1 u).
  assert (Hq2 : queue_send_ c2 = set_seq u (enqueued_count (statistics_ c)) :: t :: q).
  { unfold c2, queue_send_push. cbn. rewrite Hq1, Hq, Hen1. cbn.
    unfold packet_lt. cbn [priority set_seq]. by rewrite (proj2 (Z.ltb_lt _ _) Hpr). }
  assert (Hs2 : t_script (r_env r1) = Acked :: Acked :: s) by (by rewrite Henv1; cbn; rewrite accept_script).
  pose proof (safelink_cycle_outcome r1 c2 _ _ Hus1 Hin1 Hs2) as H2.
  pose proof (up_parity_frame c2 ltac:(rewrite Hq2; by constructor)) as Hpar2.
  destruct (con_cycle safelink_target r1 c2) as [[r2 c3] l2]. cbn [act fst snd].
  destruct H2 as (Henv2 & Hp2 & Hq3 & Hup3 & _ & Hin3 & Hus3 & _).
  rewrite Hq2 in Hp2, Hq3. cbn [outcome_acked option_list pq_top pq_pop head tail] in Hp2, Hq3, Hup3.
  assert (Hs3 : t_script (r_env r2) = Acked :: s) by (by rewrite Henv2; cbn; rewrite accept_script).
  pose proof (safelink_cycle_outcome r2 c3 _ _ Hus3 Hin3 Hs3) as H3.
  pose proof (content_safelink_packet c3 ltac:(by rewrite Hq3)) as Hc3.
  pose proof (up_parity_frame c3 ltac:(by rewrite Hq3)) as Hpar3.
  destruct (con_cycle safelink_target r2 c3) as [[r3 c4] l3]. cbn [fst snd].
  destruct H3 as (Henv3 & Hp3 & _). rewrite Hq3 in Hp3, Hc3. cbn in Hp3, Hc3.
  rewrite Hq in Hc1. cbn in Hc1.
  rewrite !popped_app, Hp1, Hp2, Hp3. cbn. split; [done|].
  rewrite Henv3, Henv2, Henv1. cbn [target_after].
  rewrite (accept_fresh (raw (safelink_packet c))) by (rewrite Hpar1; cbn [t_expect]; by rewrite He).
  cbn [t_delivered t_expect t_script].
  rewrite (accept_repeat (raw (safelink_packet c2)))
    by (rewrite Hpar2; cbn; by rewrite Hup1, He, negb_involutive).
  rewrite accept_fresh by (rewrite Hpar3, Hup3; cbn; by rewrite Hup1, He).
  cbn. by rewrite Hc1, Hc3, <- app_assoc.
Qed.

(** The ping of [sl_con] loses its acknowledgement, then [ex_packet 1] is
    sent and its frame acknowledged: the target holds only the ping. *)
Lemma safelink_send_after_lost_ping_witness :
  let '(l, (r', c')) := run_actions safelink_target [ACycle; ASend (ex_packet 1); ACycle]
                          (sl_radio [AckLost; Acked], sl_con) in
  popped l = [set_seq (ex_packet 1) (enqueued_count (statistics_ sl_con))] /\ queue_send_ c' = [] /\
  t_delivered (r_env (sl_radio [AckLost; Acked])) = [] /\
  t_delivered (r_env r') = t_delivered (r_env (sl_radio [AckLost; Acked])) ++ [(15, 3, [])].
Proof.
  pose proof (safelink_send_after_lost_ping (sl_radio [AckLost; Acked]) sl_con (ex_packet 1) []
    eq_refl eq_refl eq_refl eq_refl eq_refl eq_refl) as H.
  destruct (run_actions _ _ _) as [l [r' c']]. destruct H as (H1 & H2 & H3). by split_and!.
Defined.

(** [ex_packet 1] is queued on [sl_con] and loses its acknowledgement,
    then [urgent_packet] is sent: the target accepts [ex_packet 1] twice. *)
Lemma safelink_preempted_delivered_twice_witness :
  let c := queue_send_push sl_con (ex_packet 1) in
  let '(l, (r', c')) := run_actions safelink_target [ACycle; ASend urgent_packet; ACycle; ACycle]
                          (sl_radio [AckLost; Acked; Acked], c) in
  popped l = [set_seq urgent_packet (enqueued_count (statistics_ c)); set_seq (ex_packet 1) 0] /\
  t_delivered (r_env r') = t_delivered (r_env (sl_radio [AckLost; Acked; Acked])) ++
    [content (raw (ex_packet 1)); content (raw (ex_packet 1))].
Proof.
  exact (safelink_preempted_delivered_twice (sl_radio [AckLost; Acked; Acked])
    (queue_send_push sl_con (ex_packet 1)) (set_seq (ex_packet 1) 0) urgent_packet []
    eq_refl eq_refl ltac:(repeat constructor) eq_refl eq_refl eq_refl eq_refl eq_refl).
Defined.

(** A run with every kind of loss on a connection with two packets
    queued: both are accepted once, in order. *)
Lemma safelink_exactly_once_witness :
  let '(l, (r', c')) := run_actions safelink_target (repeat ACycle 5)
                          (sl_radio [Lost; AckLost; Acked; AckLost; AckLost],
                           queue_send_push (queue_send_push sl_con (ex_packet 1)) (ex_packet 2)) in
  t_delivered (r_env (sl_radio [Lost; AckLost; Acked; AckLost; AckLost])) ++
    (content <$> acked_frames l) ++ pending (r_env r') c' = t_delivered (r_env r').
Proof.
  pose proof (safelink_exactly_once 5 (sl_radio [Lost; AckLost; Acked; AckLost; AckLost])
    (queue_send_push (queue_send_push sl_con (ex_packet 1)) (ex_packet 2))
    eq_refl eq_refl ltac:(repeat constructor) eq_refl) as H.
  destruct (run_actions _ _ _) as [l [r' c']]. by rewrite H.
Defined.
