(* ===== verification/Uri.v ===== *)
(** The URI syntax of [Connection::Connection] ([src/src/Connection.cpp]
    lines 22-26): [std::regex_match] against
    [(usb://(\d+)|radio://(\d+|STAR)/(\d+)/(250K|1M|2M)/([a-fA-F0-9]{10}|STAR))]
    (escapes dropped, STAR standing for the escaped asterisk) and the
    capture groups the constructor reads (2 for [usb://], 3 to 6
    for [radio://]).  [uri_regex_match] is an executable matcher; the
    lemmas [uri_regex_match_sound] and [uri_regex_match_complete] relate
    it to [uri_lang], the expression read group by group.  The
    conversions [std::stoi], [std::stoul(.., 16)] and [std::to_string]
    follow, with their error cases and the round trips the constructor
    and [Connection::scan] rely on. *)

From stdpp Require Import strings.
From Stdlib Require Import Ascii DecimalString DecimalN DecimalPos.
From S2P Require Import Prelude.

Local Open Scope string_scope.

(** ** Character classes and splitting *)

Definition in_range (lo hi : nat) (a : ascii) : bool :=
  (lo <=? nat_of_ascii a)%nat && (nat_of_ascii a <=? hi)%nat.

(** [\d] and [[a-fA-F0-9]]. *)
Definition is_digit (a : ascii) : bool := in_range 48 57 a.
Definition is_hex (a : ascii) : bool := is_digit a || in_range 97 102 a || in_range 65 70 a.

Fixpoint all_chars (f : ascii -> bool) (s : string) : bool :=
  match s with
  | EmptyString => true
  | String a s' => f a && all_chars f s'
  end.

(** [\d+] and [[a-fA-F0-9]{10}]. *)
Definition digits_plus (s : string) : bool := negb (String.eqb s "") && all_chars is_digit s.
Definition hex10 (s : string) : bool := (String.length s =? 10)%nat && all_chars is_hex s.

Definition is_rate (s : string) : bool :=
  String.eqb s "250K" || String.eqb s "1M" || String.eqb s "2M".

Definition slash : ascii := "/"%char.

(** The pieces of a string between its slashes. *)
Fixpoint split_slash (s : string) : list string :=
  match s with
  | EmptyString => [""]
  | String a s' =>
      if Ascii.eqb a slash then "" :: split_slash s'
      else match split_slash s' with
           | [] => [String a ""]
           | x :: xs => String a x :: xs
           end
  end.

Fixpoint strip_prefix (p s : string) : option string :=
  match p, s with
  | EmptyString, _ => Some s
  | String a p', String b s' => if Ascii.eqb a b then strip_prefix p' s' else None
  | String _ _, EmptyString => None
  end.

(** ** The matcher *)

(** The matched alternative with its capture groups. *)
Inductive UriMatch :=
| UsbMatch (g2 : string)
| RadioMatch (g3 g4 g5 g6 : string).

Definition radio_fields (rest : string) : option UriMatch :=
  match split_slash rest with
  | [g3; g4; g5; g6] =>
      if (String.eqb g3 "*" || digits_plus g3) && digits_plus g4 && is_rate g5
         && (hex10 g6 || String.eqb g6 "*")
      then Some (RadioMatch g3 g4 g5 g6) else None
  | _ => None
  end.

(** [std::regex_match(uri, match, uri_regex)]: the whole string must match. *)
Definition uri_regex_match (s : string) : option UriMatch :=
  match strip_prefix "usb://" s with
  | Some g2 => if digits_plus g2 then Some (UsbMatch g2) else None
  | None =>
      match strip_prefix "radio://" s with
      | Some rest => radio_fields rest
      | None => None
      end
  end.

(** The language of the regular expression, group by group. *)
Definition uri_lang (s : string) (m : UriMatch) : Prop :=
  match m with
  | UsbMatch g2 => s = "usb://" +:+ g2 /\ digits_plus g2 = true
  | RadioMatch g3 g4 g5 g6 =>
      s = "radio://" +:+ g3 +:+ "/" +:+ g4 +:+ "/" +:+ g5 +:+ "/" +:+ g6 /\
      (g3 = "*" \/ digits_plus g3 = true) /\ digits_plus g4 = true /\
      (g5 = "250K" \/ g5 = "1M" \/ g5 = "2M") /\ (hex10 g6 = true \/ g6 = "*")
  end.

(** ** Lemmas on the pieces *)

(** [String.append] does not unfold under [simpl] here: its two
    equations, for rewriting. *)
Lemma sapp_nil (t : string) : "" +:+ t = t.
Proof. reflexivity. Qed.
Lemma sapp_cons (a : ascii) (s t : string) : String a s +:+ t = String a (s +:+ t).
Proof. reflexivity. Qed.
Lemma sapp_assoc (s t u : string) : (s +:+ t) +:+ u = s +:+ (t +:+ u).
Proof. induction s as [|a s IH]; [done|]. rewrite !sapp_cons, IH. done. Qed.

#[export] Hint Rewrite sapp_nil sapp_cons : cfrw.

Lemma strip_prefix_spec (p s r : string) : strip_prefix p s = Some r <-> s = p +:+ r.
Proof.
  revert s. induction p as [|a p IH]; intros [|b s]; simpl; rewrite ?sapp_nil, ?sapp_cons;
    try (split; congruence).
  destruct (Ascii.eqb_spec a b) as [->|Hne]; [rewrite IH; split; congruence|].
  split; [done|congruence].
Qed.

Lemma all_chars_app (f : ascii -> bool) (s t : string) :
  all_chars f (s +:+ t) = all_chars f s && all_chars f t.
Proof. induction s as [|a s IH]; simpl; [done|]. rewrite ?sapp_cons. simpl. rewrite IH. by destruct (f a). Qed.

(** A string none of whose characters is a slash is one piece. *)
Definition no_slash (s : string) : bool := all_chars (fun a => negb (Ascii.eqb a slash)) s.

Lemma split_slash_app (s t : string) :
  no_slash s = true -> split_slash (s +:+ String slash t) = s :: split_slash t.
Proof.
  induction s as [|a s IH]; simpl; [done|]. rewrite ?sapp_cons. simpl.
  intros [Ha Hs]%andb_true_iff. apply negb_true_iff in Ha. rewrite Ha, IH by done. done.
Qed.

Lemma split_slash_last (s : string) : no_slash s = true -> split_slash s = [s].
Proof.
  induction s as [|a s IH]; simpl; [done|].
  intros [Ha Hs]%andb_true_iff. apply negb_true_iff in Ha. rewrite Ha, IH by done. done.
Qed.

(** Splitting loses nothing: the pieces, joined with slashes, give the
    string back, and no piece holds a slash. *)
Fixpoint join_slash (xs : list string) : string :=
  match xs with
  | [] => ""
  | [x] => x
  | x :: xs' => x +:+ String slash (join_slash xs')
  end.

Lemma join_slash_cons (x y : string) (ys : list string) :
  join_slash (x :: y :: ys) = x +:+ String slash (join_slash (y :: ys)).
Proof. reflexivity. Qed.

Lemma split_slash_ne (s : string) : split_slash s <> [].
Proof.
  destruct s as [|a s]; simpl; [done|].
  destruct (Ascii.eqb a slash); [done|]. by destruct (split_slash s).
Qed.

Lemma split_slash_join (s : string) :
  join_slash (split_slash s) = s /\ Forall (fun x => no_slash x = true) (split_slash s).
Proof.
  induction s as [|a s [IHj IHf]]; simpl; [by repeat constructor|].
  destruct (split_slash s) as [|x xs] eqn:Hs; [by apply split_slash_ne in Hs|].
  destruct (Ascii.eqb a slash) eqn:Ha.
  - apply Ascii.eqb_eq in Ha as ->. split; [|by constructor].
    rewrite join_slash_cons, sapp_nil. by rewrite IHj.
  - apply Forall_cons in IHf as [Hx Hxs]. split.
    + destruct xs as [|y ys]; [simpl in *; by subst|].
      rewrite join_slash_cons in IHj |- *. rewrite sapp_cons. by rewrite IHj.
    + constructor; [unfold no_slash in *; cbn [all_chars]; rewrite Ha; exact Hx|done].
Qed.

Lemma all_chars_impl (f g : ascii -> bool) (s : string) :
  (forall a, f a = true -> g a = true) -> all_chars f s = true -> all_chars g s = true.
Proof.
  intros Hfg. induction s as [|a s IH]; simpl; [done|].
  intros [Ha Hs]%andb_true_iff. by rewrite Hfg, IH.
Qed.

Lemma digits_no_slash (s : string) : all_chars is_digit s = true -> no_slash s = true.
Proof.
  apply all_chars_impl. intros a Ha.
  destruct (Ascii.eqb_spec a slash) as [->|]; [discriminate Ha|done].
Qed.

Lemma hex_no_slash (s : string) : all_chars is_hex s = true -> no_slash s = true.
Proof.
  apply all_chars_impl. intros a Ha.
  destruct (Ascii.eqb_spec a slash) as [->|]; [discriminate Ha|done].
Qed.

Lemma digits_plus_no_slash (s : string) : digits_plus s = true -> no_slash s = true.
Proof. unfold digits_plus. intros [_ H]%andb_true_iff. by apply digits_no_slash. Qed.

Lemma hex10_no_slash (s : string) : hex10 s = true -> no_slash s = true.
Proof. unfold hex10. intros [_ H]%andb_true_iff. by apply hex_no_slash. Qed.

Lemma slash_sapp (t : string) : "/" +:+ t = String slash t.
Proof. reflexivity. Qed.

(** The four radio fields, joined by slashes, split back into them. *)
Lemma split_radio_fields (g3 g4 g5 g6 : string) :
  no_slash g3 = true -> no_slash g4 = true -> no_slash g5 = true -> no_slash g6 = true ->
  split_slash (g3 +:+ "/" +:+ g4 +:+ "/" +:+ g5 +:+ "/" +:+ g6) = [g3; g4; g5; g6].
Proof.
  intros H3 H4 H5 H6. rewrite !slash_sapp, !split_slash_app, split_slash_last by done. done.
Qed.

Lemma is_rate_spec (s : string) : is_rate s = true <-> s = "250K" \/ s = "1M" \/ s = "2M".
Proof. unfold is_rate. rewrite !orb_true_iff, !String.eqb_eq. tauto. Qed.

(** Every rate and the star are single pieces. *)
Lemma rate_no_slash (s : string) : is_rate s = true -> no_slash s = true.
Proof. intros [-> | [-> | ->]]%is_rate_spec; reflexivity. Qed.

Lemma star_or_digits_no_slash (s : string) :
  s = "*" \/ digits_plus s = true -> no_slash s = true.
Proof. intros [->|H]; [reflexivity|by apply digits_plus_no_slash]. Qed.

(** The matcher only accepts strings of the regular expression's
    language, with the groups it reports. *)
Lemma uri_regex_match_sound (s : string) (m : UriMatch) :
  uri_regex_match s = Some m -> uri_lang s m.
Proof.
  unfold uri_regex_match.
  destruct (strip_prefix "usb://" s) as [g2|] eqn:Hu.
  + apply strip_prefix_spec in Hu. destruct (digits_plus g2) eqn:Hd; [|done].
    intros [= <-]. by split.
  + destruct (strip_prefix "radio://" s) as [rest|] eqn:Hr; [|done].
    apply strip_prefix_spec in Hr as ->. unfold radio_fields.
    pose proof (split_slash_join rest) as [Hj _].
    destruct (split_slash rest) as [|g3 [|g4 [|g5 [|g6 [|]]]]]; try done.
    destruct (_ && _) eqn:Hc; [|done]. intros [= <-].
    rewrite !andb_true_iff, !orb_true_iff, !String.eqb_eq in Hc.
    destruct Hc as [[[H3 H4] H5] H6]. apply is_rate_spec in H5.
    simpl. split_and!; try tauto. rewrite <- Hj. simpl. by rewrite !slash_sapp.
Qed.

(** Every string of the language is accepted, with its groups. *)
Lemma uri_regex_match_complete (s : string) (m : UriMatch) :
  uri_lang s m -> uri_regex_match s = Some m.
Proof.
  unfold uri_regex_match.
  destruct m as [g2|g3 g4 g5 g6]; unfold uri_lang.
  + intros [-> Hd]. rewrite (proj2 (strip_prefix_spec "usb://" _ g2) eq_refl), Hd. done.
  + intros (-> & H3 & H4 & H5 & H6).
    rewrite (proj2 (strip_prefix_spec "radio://" _ _) eq_refl).
    assert (Hnu : forall t, strip_prefix "usb://" ("radio://" +:+ t) = None) by done.
    rewrite Hnu. unfold radio_fields.
    rewrite split_radio_fields.
    * apply is_rate_spec in H5 as H5'. rewrite H4, H5'.
      destruct H3 as [->|H3]; destruct H6 as [H6 | ->]; rewrite ?H3, ?H6, ?orb_true_r; done.
    * by apply star_or_digits_no_slash.
    * by apply digits_plus_no_slash.
    * by apply rate_no_slash, is_rate_spec.
    * destruct H6 as [H6 | ->]; [by apply hex10_no_slash|reflexivity].
Qed.

(** ** Numeric conversions *)

(** The exceptions the constructor can end with: [std::runtime_error]
    ("Invalid uri!"), [std::out_of_range] and [std::invalid_argument]. *)
Inductive CtorError := InvalidUri | OutOfRange | InvalidArgument.

#[export] Instance CtorError_eq_dec : EqDecision CtorError.
Proof. solve_decision. Defined.

Fixpoint take_while (f : ascii -> bool) (s : string) : string :=
  match s with
  | EmptyString => EmptyString
  | String a s' => if f a then String a (take_while f s') else EmptyString
  end.

Definition INT_MAX : Z := 2147483647.
Definition ULONG_MAX : Z := 2 ^ 64 - 1.

(** The value of a string of decimal digits. *)
Definition dec_value (s : string) : N :=
  match NilEmpty.uint_of_string s with Some d => N.of_uint d | None => 0%N end.

(** [std::stoi] on a string that starts with its digits (no blanks, no
    sign: the regular expression passes only [\d+] groups): the longest
    prefix of digits, [invalid_argument] when there is none,
    [out_of_range] above [INT_MAX]. *)
Definition stoi (s : string) : CtorError + Z :=
  let p := take_while is_digit s in
  if String.eqb p "" then inl InvalidArgument
  else let v := Z.of_N (dec_value p) in
       if (v <=? INT_MAX)%Z then inr v else inl OutOfRange.

Definition hex_digit_value (a : ascii) : Z :=
  let n := Z.of_nat (nat_of_ascii a) in
  if is_digit a then (n - 48)%Z else if in_range 97 102 a then (n - 87)%Z else (n - 55)%Z.

Fixpoint hex_acc (acc : Z) (s : string) : Z :=
  match s with
  | EmptyString => acc
  | String a s' => hex_acc (acc * 16 + hex_digit_value a)%Z s'
  end.

(** [std::stoul(s, nullptr, 16)] on a string that starts with its digits
    (group 6 of the regular expression: ten hex digits or a star): the
    longest prefix of hex digits, [invalid_argument] when there is none,
    [out_of_range] above [ULONG_MAX]. *)
Definition stoul16 (s : string) : CtorError + Z :=
  let p := take_while is_hex s in
  if String.eqb p "" then inl InvalidArgument
  else let v := hex_acc 0 p in
       if (v <=? ULONG_MAX)%Z then inr v else inl OutOfRange.

(** [std::to_string] of a non-negative integer. *)
Definition to_string_N (n : N) : string := NilEmpty.string_of_uint (N.to_uint n).

Definition hex_char (v : Z) : ascii :=
  ascii_of_nat (Z.to_nat (if (v <? 10)%Z then 48 + v else 55 + v)%Z).

(** [w] upper-case hex digits of [a], most significant first: the form
    of the address in a canonical URI. *)
Fixpoint hex_string (w : nat) (a : Z) : string :=
  match w with
  | O => EmptyString
  | S w' => String (hex_char ((a / 16 ^ Z.of_nat w') mod 16)%Z) (hex_string w' a)
  end.

(** ** Round trips and bounds of the conversions *)

Lemma take_while_all (f : ascii -> bool) (s : string) :
  all_chars f s = true -> take_while f s = s.
Proof.
  induction s as [|a s IH]; simpl; [done|]. intros [Ha Hs]%andb_true_iff. by rewrite Ha, IH.
Qed.

Lemma string_of_uint_digits (d : Decimal.uint) :
  all_chars is_digit (NilEmpty.string_of_uint d) = true.
Proof. induction d; simpl; rewrite ?IHd; reflexivity. Qed.

Lemma to_string_N_nonempty (n : N) : to_string_N n <> "".
Proof.
  unfold to_string_N. destruct n as [|p]; [discriminate|]. simpl.
  pose proof (DecimalPos.Unsigned.to_uint_nonnil p) as H.
  destruct (Pos.to_uint p); simpl; congruence.
Qed.

Lemma to_string_N_all_digits (n : N) : all_chars is_digit (to_string_N n) = true.
Proof. apply string_of_uint_digits. Qed.

Lemma to_string_N_digits (n : N) : digits_plus (to_string_N n) = true.
Proof.
  unfold digits_plus. rewrite to_string_N_all_digits, andb_true_r.
  apply negb_true_iff, String.eqb_neq, to_string_N_nonempty.
Qed.

(** [std::stoi] on what [std::to_string] printed: the number when it
    fits an [int], [std::out_of_range] above [INT_MAX]. *)
Lemma stoi_to_string_bounds (n : N) :
  stoi (to_string_N n) = if (Z.of_N n <=? INT_MAX)%Z then inr (Z.of_N n) else inl OutOfRange.
Proof.
  unfold stoi. rewrite take_while_all by apply to_string_N_all_digits.
  destruct (String.eqb_spec (to_string_N n) "") as [H|_]; [by apply to_string_N_nonempty in H|].
  unfold dec_value, to_string_N. by rewrite NilEmpty.usu, DecimalN.Unsigned.of_to.
Qed.

(** [std::stoi] reads back what [std::to_string] printed. *)
Lemma stoi_to_string (n : N) : (Z.of_N n <= INT_MAX)%Z -> stoi (to_string_N n) = inr (Z.of_N n).
Proof. intros Hn. by rewrite stoi_to_string_bounds, (proj2 (Z.leb_le _ _) Hn). Qed.

(** Hex digits, checked on all 256 characters and all 16 values. *)
Lemma hex_digit_check :
  forallb (fun n => negb (is_hex (ascii_of_nat n)) ||
                    ((0 <=? hex_digit_value (ascii_of_nat n)) && (hex_digit_value (ascii_of_nat n) <? 16))%Z)
          (List.seq 0 256) = true.
Proof. vm_compute. reflexivity. Qed.

Lemma hex_char_check :
  forallb (fun v => (hex_digit_value (hex_char v) =? v)%Z && is_hex (hex_char v)) (zrange 0 16) = true.
Proof. vm_compute. reflexivity. Qed.

Lemma hex_digit_value_range (a : ascii) : is_hex a = true -> (0 <= hex_digit_value a < 16)%Z.
Proof.
  intros Ha. pose proof hex_digit_check as H. rewrite forallb_forall in H.
  specialize (H (nat_of_ascii a)). rewrite ascii_nat_embedding, Ha in H.
  assert (Hin : In (nat_of_ascii a) (List.seq 0 256))
    by (apply in_seq; pose proof (nat_ascii_bounded a); lia).
  specialize (H Hin). simpl in H. apply andb_true_iff in H as [H1 H2]. lia.
Qed.

Lemma hex_char_spec (v : Z) : (0 <= v < 16)%Z -> hex_digit_value (hex_char v) = v /\ is_hex (hex_char v) = true.
Proof.
  intros Hv. pose proof (check_all_below 16 _ hex_char_check v ltac:(lia)) as H.
  cbv beta in H. apply andb_true_iff in H as [H1 H2]. split; [lia|done].
Qed.

Lemma hex_acc_string (w : nat) (acc a : Z) :
  hex_acc acc (hex_string w a) = (acc * 16 ^ Z.of_nat w + a mod 16 ^ Z.of_nat w)%Z.
Proof.
  revert acc. induction w as [|w IH]; intros acc; simpl.
  - rewrite Z.mod_1_r. lia.
  - rewrite IH. destruct (hex_char_spec ((a / 16 ^ Z.of_nat w) mod 16)) as [-> _];
      [apply Z.mod_pos_bound; lia|].
    rewrite Nat2Z.inj_succ, Z.pow_succ_r by lia.
    rewrite (Z.mul_comm 16 (16 ^ Z.of_nat w)), Z.rem_mul_r by (try apply Z.pow_nonzero; lia).
    lia.
Qed.

Lemma hex_string_hex (w : nat) (a : Z) :
  all_chars is_hex (hex_string w a) = true /\ String.length (hex_string w a) = w.
Proof.
  induction w as [|w [IH1 IH2]]; simpl; [done|]. rewrite IH1, IH2.
  rewrite (proj2 (hex_char_spec _ ltac:(apply Z.mod_pos_bound; lia))). done.
Qed.

Lemma hex_acc_bound (s : string) (acc : Z) :
  all_chars is_hex s = true -> (0 <= acc)%Z ->
  (acc * 16 ^ Z.of_nat (String.length s) <= hex_acc acc s < (acc + 1) * 16 ^ Z.of_nat (String.length s))%Z.
Proof.
  revert acc. induction s as [|a s IH]; intros acc Hs Hacc; simpl in *; [lia|].
  apply andb_true_iff in Hs as [Ha Hs]. pose proof (hex_digit_value_range a Ha) as Hv.
  specialize (IH (acc * 16 + hex_digit_value a)%Z Hs ltac:(lia)).
  rewrite Nat2Z.inj_succ, Z.pow_succ_r by lia. nia.
Qed.

(** A ten-digit hex group converts without error to a 40-bit address. *)
Lemma stoul16_hex10 (g : string) :
  hex10 g = true -> exists v, stoul16 g = inr v /\ (0 <= v < 2 ^ 40)%Z.
Proof.
  unfold hex10, stoul16. intros [Hl Hh]%andb_true_iff. apply Nat.eqb_eq in Hl.
  rewrite take_while_all by done.
  destruct (String.eqb_spec g "") as [->|_]; [discriminate|].
  pose proof (hex_acc_bound g 0 Hh ltac:(lia)) as Hb. rewrite Hl in Hb. simpl in Hb.
  rewrite (proj2 (Z.leb_le _ ULONG_MAX)) by (unfold ULONG_MAX; lia).
  eexists; split; [reflexivity|lia].
Qed.

Lemma stoul16_hex_string (a : Z) : (0 <= a < 2 ^ 40)%Z -> stoul16 (hex_string 10 a) = inr a.
Proof.
  intros Ha. destruct (hex_string_hex 10 a) as [Hh Hl]. unfold stoul16.
  rewrite take_while_all by done.
  destruct (String.eqb_spec (hex_string 10 a) "") as [H|_]; [by rewrite H in Hl|].
  rewrite hex_acc_string, Z.mod_small by (simpl; lia).
  rewrite (proj2 (Z.leb_le _ ULONG_MAX)) by (unfold ULONG_MAX; simpl; lia).
  done.
Qed.

Lemma hex10_hex_string (a : Z) : hex10 (hex_string 10 a) = true.
Proof.
  destruct (hex_string_hex 10 a) as [Hh Hl]. unfold hex10. by rewrite Hl, Hh.
Qed.
