(* ===== verification/Connection.v ===== *)
(** The public facade of [src/src/Connection.cpp]: the constructor
    ([connection_ctor], lines 13-65), the destructor's choice
    ([dtor_detaches], lines 67-73), [send] (lines 128-139), [recv] (lines
    141-168), [operator<<] (lines 170-175), [uri] (lines 177-180),
    [statistics] (lines 182-185) and [scan] (lines 75-126).  The
    device registry [USBManager] is not under [src/]: the constructor's
    call [crazyfliesOverUSB().at(devid)] is modelled by the number of
    USB-attached targets, and [addRadioConnection] by the attach step of
    [Thread].  The probes of [scan] are answered by an oracle: whether the
    first transmission of the probe connection was acknowledged.

    The theorems show the constructor's results and errors (the S1 and S2
    scenarios of the specification, the canonical-URI round trip, the
    [usb://] index check, the [*] address that [std::stoul] rejects), the
    behaviour of [send] and [recv] under the condition [!crazyflieUSB_]
    the code tests, and what [scan] enumerates, returns and rejects. *)

From stdpp Require Import strings.
From Stdlib Require Import DecimalString DecimalN.
From S2P Require Import Prelude.
From S2P Require Import Crtp.
From S2P Require Import PQueue.
From S2P Require Import Radio.
From S2P Require Import ConnImpl.
From S2P Require Import Worker.
From S2P Require Import Uri.

Local Open Scope string_scope.
Local Open Scope cf_scope.

(** [Connection::Settings]. *)
Record Settings := mkSettings { use_safelink : bool }.

Definition default_settings : Settings := mkSettings false.

(** [std::make_shared<ConnectionImpl>()]: every field at its default. *)
Definition impl0 : ConnectionImpl :=
  mkConn "" 0 false 0 Datarate_250KPS 0 false false false false [] [] stats0.

(** Lines 49-55: the [if]/[else if] chain on group 5; a string none of the
    branches names leaves the field as it was. *)
Definition datarate_of (g5 : string) (dflt : Datarate) : Datarate :=
  if String.eqb g5 "250K" then Datarate_250KPS
  else if String.eqb g5 "1M" then Datarate_1MPS
  else if String.eqb g5 "2M" then Datarate_2MPS
  else dflt.

(** Lines 13-65.  [n_usb] is [USBManager::get().crazyfliesOverUSB().size()].
    The [usb://] branch stores the USB handle; the [radio://] branch fills
    the radio fields and resets the safelink state (the attach to the
    dongle's worker follows, see [Thread]). *)
Definition connection_ctor (n_usb : nat) (uri : string) (settings : Settings)
  : CtorError + ConnectionImpl :=
  match uri_regex_match uri with
  | None => inl InvalidUri
  | Some (UsbMatch g2) =>
      devid <- stoi g2 ;;
      if (Z.to_nat devid <? n_usb)%nat
      then inr (mkConn uri devid true (channel_ impl0) (datarate_ impl0) (address_ impl0)
                  (useSafelink_ impl0) (safelinkInitialized_ impl0) (safelinkUp_ impl0)
                  (safelinkDown_ impl0) [] [] stats0)
      else inl OutOfRange
  | Some (RadioMatch g3 g4 g5 g6) =>
      devid <- (if String.eqb g3 "*" then inr (-1)%Z else stoi g3) ;;
      ch <- stoi g4 ;;
      addr <- stoul16 g6 ;;
      inr (mkConn uri devid false ch (datarate_of g5 (datarate_ impl0)) addr
             (use_safelink settings) false false false [] [] stats0)
  end.

(** [Connection::uri()]. *)
Definition uri (c : ConnectionImpl) : string := uri_ c.

(** Lines 67-73: the destructor detaches from the radio worker exactly
    when no USB handle is set. *)
Definition dtor_detaches (c : ConnectionImpl) : bool := negb (crazyflieUSB_ c).

(** What a call of the facade does: return, dereference the null
    [crazyflieUSB_] pointer, or block for ever on the condition
    variable. *)
Inductive Outcome (A : Type) := Done (a : A) | NullDeref | Blocks.
Arguments Done {A}. Arguments NullDeref {A}. Arguments Blocks {A}.

(** Lines 128-139.  The branch taken is the one under
    [if (!impl_->crazyflieUSB_)], as written. *)
Definition send (c : ConnectionImpl) (p : Packet) : Outcome ConnectionImpl :=
  if negb (crazyflieUSB_ c) then NullDeref
  else Done (queue_send_push c p).

(** Lines 141-168, under the same condition; a blocking [recv] on an
    empty queue waits for a push that only the worker makes. *)
Definition recv (c : ConnectionImpl) (blocking : bool) : Outcome (ConnectionImpl * Packet) :=
  if negb (crazyflieUSB_ c) then NullDeref
  else if blocking
       then match pq_top (queue_recv_ c) with
            | Some _ => Done (recv_pop c)
            | None => Blocks
            end
       else Done (recv_pop c).

(** [operator<<(std::ostream&, const Connection&)], lines 170-175. *)
Definition print_connection (c : ConnectionImpl) : string := "Connection(" +:+ uri_ c +:+ ")".

(** [Connection::statistics()], lines 182-185: the worker's counters,
    shared by reference. *)
Definition statistics (c : ConnectionImpl) : Statistics := statistics_ c.

(** ** Scan, lines 75-126 *)

Definition usb_uris (n_usb : nat) : list string :=
  map (fun i => "usb://" +:+ to_string_N (N.of_nat i)) (List.seq 0 n_usb).

Definition scan_rates : list string := ["250K"; "1M"; "2M"].

(** Lines 85-95: the probe URIs, datarate by datarate, channel by channel,
    [for (int channel = 0; channel < 125; ++channel)]. *)
Definition scan_uris (address : string) : list string :=
  let a := if String.eqb address "" then "E7E7E7E7E7" else address in
  flat_map (fun rate =>
    map (fun ch => "radio://*/" +:+ to_string_N (N.of_nat ch) +:+ "/" +:+ rate +:+ "/" +:+ a)
        (List.seq 0 125)) scan_rates.

(** Lines 96-123: each probe constructs a connection (whose exception
    [future.get()] rethrows, in the order of the futures) and keeps its
    URI when the oracle says its first transmission was acknowledged. *)
Fixpoint collect_probes (n_usb : nat) (probe : string -> bool) (uris : list string)
  : CtorError + list string :=
  match uris with
  | [] => inr []
  | u :: us =>
      _ <- connection_ctor n_usb u default_settings ;;
      rest <- collect_probes n_usb probe us ;;
      inr (if probe u then u :: rest else rest)
  end.

Definition scan (n_usb : nat) (probe : string -> bool) (address : string)
  : CtorError + list string :=
  found <- collect_probes n_usb probe (scan_uris address) ;;
  inr (usb_uris n_usb ++ found)%list.

(** ** Canonical URIs *)

Definition rate_string (d : Datarate) : string :=
  match d with
  | Datarate_250KPS => "250K"
  | Datarate_1MPS => "1M"
  | Datarate_2MPS => "2M"
  end.

(** The canonical [radio://] URI of a connection: decimal dongle index or
    [*], decimal channel, datarate, ten upper-case hex digits. *)
Definition radio_uri (dev : option N) (ch : N) (d : Datarate) (addr : Z) : string :=
  "radio://" +:+ (match dev with Some k => to_string_N k | None => "*" end) +:+ "/" +:+
  to_string_N ch +:+ "/" +:+ rate_string d +:+ "/" +:+ hex_string 10 addr.

(** ** Lemmas *)

Lemma connection_ctor_radio (n_usb : nat) (s : string) (settings : Settings) (g3 g4 g5 g6 : string) :
  uri_regex_match s = Some (RadioMatch g3 g4 g5 g6) ->
  connection_ctor n_usb s settings =
    (devid <- (if String.eqb g3 "*" then inr (-1)%Z else stoi g3) ;;
     ch <- stoi g4 ;;
     addr <- stoul16 g6 ;;
     inr (mkConn s devid false ch (datarate_of g5 (datarate_ impl0)) addr
            (use_safelink settings) false false false [] [] stats0)).
Proof. unfold connection_ctor. by intros ->. Qed.

Lemma datarate_of_rate_string (d dflt : Datarate) : datarate_of (rate_string d) dflt = d.
Proof. by destruct d. Qed.

Lemma rate_string_is_rate (d : Datarate) : is_rate (rate_string d) = true.
Proof. by destruct d. Qed.

Lemma to_string_N_not_star (k : N) : String.eqb (to_string_N k) "*" = false.
Proof.
  apply String.eqb_neq. intros H. pose proof (to_string_N_all_digits k) as Hd.
  rewrite H in Hd. discriminate.
Qed.

Lemma connection_ctor_uri (n_usb : nat) (s : string) (settings : Settings) (c : ConnectionImpl) :
  connection_ctor n_usb s settings = inr c -> uri_ c = s.
Proof.
  unfold connection_ctor. destruct (uri_regex_match s) as [[g2|g3 g4 g5 g6]|]; [| |done].
  - destruct (stoi g2); [done|]. destruct (_ <? _)%nat; [|done]. by intros [= <-].
  - destruct (if String.eqb g3 "*" then _ else _); [done|].
    destruct (stoi g4); [done|]. destruct (stoul16 g6); [done|]. by intros [= <-].
Qed.

Lemma connection_ctor_kind (n_usb : nat) (s : string) (settings : Settings) (c : ConnectionImpl) :
  connection_ctor n_usb s settings = inr c ->
  match uri_regex_match s with
  | Some (UsbMatch _) => crazyflieUSB_ c = true
  | Some (RadioMatch _ _ _ _) => crazyflieUSB_ c = false /\ fresh c
  | None => False
  end.
Proof.
  unfold connection_ctor. destruct (uri_regex_match s) as [[g2|g3 g4 g5 g6]|]; [| |done].
  - destruct (stoi g2); [done|]. destruct (_ <? _)%nat; [|done]. by intros [= <-].
  - destruct (if String.eqb g3 "*" then _ else _); [done|].
    destruct (stoi g4); [done|]. destruct (stoul16 g6); [done|]. intros [= <-].
    split; [done|]. by split_and!.
Qed.

(** The constructor on a canonical [radio://] URI whose index fits an
    [int] and whose address has 40 bits: the channel alone decides. *)
Lemma connection_ctor_radio_uri (n_usb : nat) (dev : option N) (ch : N) (d : Datarate)
    (addr : Z) (settings : Settings) :
  (forall k, dev = Some k -> (Z.of_N k <= INT_MAX)%Z) -> (0 <= addr < 2 ^ 40)%Z ->
  connection_ctor n_usb (radio_uri dev ch d addr) settings =
  if (Z.of_N ch <=? INT_MAX)%Z
  then inr (mkConn (radio_uri dev ch d addr) (match dev with Some k => Z.of_N k | None => (-1)%Z end)
              false (Z.of_N ch) d addr (use_safelink settings) false false false [] [] stats0)
  else inl OutOfRange.
Proof.
  intros Hdev Haddr.
  set (g3 := match dev with Some k => to_string_N k | None => "*" end).
  assert (Hm : uri_regex_match (radio_uri dev ch d addr)
               = Some (RadioMatch g3 (to_string_N ch) (rate_string d) (hex_string 10 addr))).
  { apply uri_regex_match_complete. unfold uri_lang. split_and!; [reflexivity| | |apply is_rate_spec, rate_string_is_rate|].
    - destruct dev; [right; apply to_string_N_digits|by left].
    - apply to_string_N_digits.
    - left. apply hex10_hex_string. }
  rewrite (connection_ctor_radio _ _ _ _ _ _ _ Hm).
  rewrite stoi_to_string_bounds. rewrite datarate_of_rate_string. subst g3.
  destruct dev as [k|]; cbn [String.eqb].
  - rewrite to_string_N_not_star, stoi_to_string by (by apply Hdev).
    destruct (_ <=? _)%Z; [|done]. by rewrite stoul16_hex_string.
  - destruct (_ <=? _)%Z; [|done]. by rewrite stoul16_hex_string.
Qed.

(** ** Theorems *)

(** C8: the constructor on a canonical [radio://] URI (index or [*],
    channel and index within [int], 40-bit address) succeeds and yields a
    fresh radio connection whose [uri()] is that string and whose address,
    channel, datarate and index are the ones printed (specification,
    section 8, property 7, and scenario S1). *)
Theorem connection_ctor_radio_roundtrip (n_usb : nat) (dev : option N) (ch : N) (d : Datarate)
    (addr : Z) (settings : Settings) :
  (forall k, dev = Some k -> (Z.of_N k <= INT_MAX)%Z) -> (Z.of_N ch <= INT_MAX)%Z ->
  (0 <= addr < 2 ^ 40)%Z ->
  connection_ctor n_usb (radio_uri dev ch d addr) settings =
  inr (mkConn (radio_uri dev ch d addr) (match dev with Some k => Z.of_N k | None => (-1)%Z end)
         false (Z.of_N ch) d addr (use_safelink settings) false false false [] [] stats0).
Proof.
  intros Hdev Hch Haddr. rewrite (connection_ctor_radio_uri n_usb dev ch d addr settings Hdev Haddr).
  by rewrite (proj2 (Z.leb_le _ _) Hch).
Qed.

(** C9: every successfully constructed connection reports as [uri()] the
    exact string it was constructed from (specification, section 4.4). *)
Theorem connection_uri_verbatim (n_usb : nat) (s : string) (settings : Settings) (c : ConnectionImpl) :
  connection_ctor n_usb s settings = inr c -> uri c = s.
Proof. apply connection_ctor_uri. Qed.

Lemma stoul16_star : stoul16 "*" = inl InvalidArgument.
Proof. reflexivity. Qed.

(** A [radio://] URI whose address group is [*] never yields a
    connection. *)
Lemma connection_ctor_star_address_fails (n_usb : nat) (s : string) (settings : Settings)
    (g3 g4 g5 : string) :
  uri_regex_match s = Some (RadioMatch g3 g4 g5 "*") -> exists e, connection_ctor n_usb s settings = inl e.
Proof.
  intros Hm. rewrite (connection_ctor_radio _ _ _ _ _ _ _ Hm), stoul16_star.
  destruct (if String.eqb g3 "*" then _ else _) as [e|dv]; [by exists e|].
  destruct (stoi g4) as [e|ch]; by eexists.
Qed.

(** C10: the form "radio://*/80/2M/*", which the constructor's comment
    (line 20) documents for broadcast sniffing, throws: whenever the index
    and channel groups convert, a [radio://] URI whose address group is
    [*] makes the constructor throw [std::invalid_argument] from
    [std::stoul] (line 56). *)
Theorem connection_ctor_star_address_throws (n_usb : nat) (s : string) (settings : Settings)
    (g3 g4 g5 : string) :
  uri_regex_match s = Some (RadioMatch g3 g4 g5 "*") ->
  (g3 = "*" \/ exists v, stoi g3 = inr v) -> (exists v, stoi g4 = inr v) ->
  connection_ctor n_usb s settings = inl InvalidArgument.
Proof.
  intros Hm H3 [ch Hch]. rewrite (connection_ctor_radio _ _ _ _ _ _ _ Hm), stoul16_star, Hch.
  destruct H3 as [->|[v Hv]]; [done|]. by destruct (String.eqb g3 "*"); rewrite ?Hv.
Qed.

(** C11: [send] and [recv] test [!impl_->crazyflieUSB_] and then call
    through [crazyflieUSB_] (lines 130-131 and 143-145): on every radio
    connection the constructor builds, that pointer is null, so [send]
    and both forms of [recv] dereference it, while the destructor (whose
    identical test is the right one) detaches it from the worker. *)
Theorem radio_send_recv_null_deref (n_usb : nat) (s : string) (settings : Settings)
    (c : ConnectionImpl) (p : Packet) (blocking : bool) (g3 g4 g5 g6 : string) :
  uri_regex_match s = Some (RadioMatch g3 g4 g5 g6) ->
  connection_ctor n_usb s settings = inr c ->
  send c p = NullDeref /\ recv c blocking = NullDeref /\ dtor_detaches c = true.
Proof.
  intros Hm Hc. pose proof (connection_ctor_kind _ _ _ _ Hc) as Hk. rewrite Hm in Hk.
  destruct Hk as [Hu _]. unfold send, recv, dtor_detaches. by rewrite Hu.
Qed.

(** C12: on a [usb://] connection, [send] takes the queueing branch:
    the packet goes to [queue_send_], which no worker serves (the
    destructor confirms the connection is never attached), and a blocking
    [recv] waits on a receive queue nothing fills. *)
Theorem usb_send_recv_misrouted (n_usb : nat) (s : string) (settings : Settings)
    (c : ConnectionImpl) (p : Packet) (g2 : string) :
  uri_regex_match s = Some (UsbMatch g2) ->
  connection_ctor n_usb s settings = inr c ->
  send c p = Done (queue_send_push c p) /\ recv c true = Blocks /\ dtor_detaches c = false.
Proof.
  intros Hm Hc. pose proof (connection_ctor_kind _ _ _ _ Hc) as Hk. rewrite Hm in Hk.
  unfold connection_ctor in Hc. rewrite Hm in Hc.
  destruct (stoi g2); [done|]. destruct (_ <? _)%nat; [|done]. injection Hc as <-.
  unfold send, recv, dtor_detaches. simpl. done.
Qed.

(** *** Scan *)

Lemma collect_probes_ok (n_usb : nat) (probe : string -> bool) (uris : list string) :
  Forall (fun u => exists c, connection_ctor n_usb u default_settings = inr c) uris ->
  collect_probes n_usb probe uris = inr (List.filter probe uris).
Proof.
  induction 1 as [|u us [c Hc] _ IH]; simpl; [done|].
  rewrite Hc, IH. by destruct (probe u).
Qed.

Definition scan_address (address : string) : string :=
  if String.eqb address "" then "E7E7E7E7E7" else address.

(** One probe URI, as the loop body of lines 93-94 builds it. *)
Definition probe_uri (ch : nat) (rate : string) (a : string) : string :=
  "radio://*/" +:+ to_string_N (N.of_nat ch) +:+ "/" +:+ rate +:+ "/" +:+ a.

Lemma scan_uris_alt (address : string) :
  scan_uris address =
  flat_map (fun rate => map (fun ch => probe_uri ch rate (scan_address address)) (List.seq 0 125))
    scan_rates.
Proof. reflexivity. Qed.

Lemma probe_uri_ctor (n_usb : nat) (ch : nat) (rate a : string) :
  (ch < 125)%nat -> is_rate rate = true -> hex10 a = true ->
  exists c, connection_ctor n_usb (probe_uri ch rate a) default_settings = inr c /\
    devid_ c = (-1)%Z /\ channel_ c = Z.of_nat ch.
Proof.
  intros Hch Hr Ha.
  assert (Hm : uri_regex_match (probe_uri ch rate a)
               = Some (RadioMatch "*" (to_string_N (N.of_nat ch)) rate a)).
  { apply uri_regex_match_complete. unfold uri_lang.
    split_and!; [reflexivity|by left|apply to_string_N_digits|by apply is_rate_spec|by left]. }
  rewrite (connection_ctor_radio _ _ _ _ _ _ _ Hm).
  rewrite stoi_to_string by (unfold INT_MAX; lia).
  destruct (stoul16_hex10 a Ha) as [v [-> _]]. eexists. split; [reflexivity|].
  simpl. split; [done|lia].
Qed.

(** Every probe URI of a valid address constructs a connection on an
    auto-picked dongle on a channel below 125. *)
Lemma scan_uris_construct (n_usb : nat) (address : string) :
  (address = "" \/ hex10 address = true) ->
  Forall (fun u => exists c, connection_ctor n_usb u default_settings = inr c /\
                             devid_ c = (-1)%Z /\ (0 <= channel_ c < 125)%Z) (scan_uris address).
Proof.
  intros Ha.
  assert (Hh : hex10 (scan_address address) = true).
  { unfold scan_address. destruct Ha as [->|Ha]; [reflexivity|].
    destruct (String.eqb_spec address ""); [subst; discriminate|done]. }
  rewrite scan_uris_alt. apply Forall_forall. intros u Hu.
  apply list_elem_of_In, in_flat_map in Hu as (rate & Hr & Hu).
  apply in_map_iff in Hu as (ch & <- & Hch). apply in_seq in Hch.
  assert (Hrate : is_rate rate = true)
    by (destruct Hr as [<-|[<-|[<-|[]]]]; reflexivity).
  destruct (probe_uri_ctor n_usb ch rate _ ltac:(lia) Hrate Hh) as (c & Hc & Hd & Hcl).
  exists c. split_and!; [done|done|lia|lia].
Qed.

(** C13: for the default or any ten-hex-digit address, [scan] probes
    3 x 125 = 375 URIs, every one of which constructs a connection on an
    auto-picked dongle ([devid_] = -1) on a channel in [0, 125): channel
    125, inside the range the specification gives, is never probed. *)
Theorem scan_probes (n_usb : nat) (address : string) :
  (address = "" \/ hex10 address = true) ->
  length (scan_uris address) = 375%nat /\
  Forall (fun u => exists c, connection_ctor n_usb u default_settings = inr c /\
                             devid_ c = (-1)%Z /\ (0 <= channel_ c < 125)%Z) (scan_uris address).
Proof. intros Ha. split; [by rewrite scan_uris_alt|by apply scan_uris_construct]. Qed.

(** C14: for the default or any ten-hex-digit address, [scan] returns the
    [usb://i] URIs of the USB-attached targets followed by the probe URIs
    whose first transmission was acknowledged, in probe order. *)
Theorem scan_result (n_usb : nat) (probe : string -> bool) (address : string) :
  (address = "" \/ hex10 address = true) ->
  scan n_usb probe address = inr (usb_uris n_usb ++ List.filter probe (scan_uris address))%list.
Proof.
  intros Ha. pose proof (scan_uris_construct n_usb address Ha) as Hall.
  unfold scan. rewrite collect_probes_ok; [done|].
  eapply Forall_impl; [exact Hall|]. intros u (c & Hc & _). by exists c.
Qed.

(** The first probe, channel 0 at 250K, with an address that is not ten
    hex digits, fails: the regular expression rejects it, or its address
    is the star that [stoul] rejects. *)
Lemma probe_uri_ctor_fails (n_usb : nat) (a : string) :
  hex10 a = false -> exists e, connection_ctor n_usb (probe_uri 0 "250K" a) default_settings = inl e.
Proof.
  intros Ha. destruct (uri_regex_match (probe_uri 0 "250K" a)) as [m|] eqn:Hm;
    [|unfold connection_ctor; rewrite Hm; by eexists].
  assert (Hs : uri_regex_match (probe_uri 0 "250K" a)
               = radio_fields ("*" +:+ "/" +:+ "0" +:+ "/" +:+ "250K" +:+ "/" +:+ a)) by reflexivity.
  rewrite Hs in Hm. unfold radio_fields in Hm.
  rewrite !slash_sapp, !split_slash_app in Hm by done.
  destruct (split_slash_join a) as [Hj _].
  destruct (split_slash a) as [|g6 [|]]; try discriminate.
  simpl in Hj. subst g6. rewrite Ha in Hm. simpl in Hm.
  destruct (String.eqb_spec a "*") as [->|]; [|discriminate].
  injection Hm as <-. eapply connection_ctor_star_address_fails. rewrite Hs. reflexivity.
Qed.

(** C15: [scan] throws for every address other than the empty string and
    ten hex digits: its first probe URI fails in the constructor, and
    [future.get()] rethrows the exception (line 120), so no URI list is
    returned at all. *)
Theorem scan_rejects_address (n_usb : nat) (probe : string -> bool) (address : string) :
  address <> "" -> hex10 address = false -> exists e, scan n_usb probe address = inl e.
Proof.
  intros Hne Ha. unfold scan. rewrite scan_uris_alt. unfold scan_address.
  destruct (String.eqb_spec address "") as [|_]; [done|].
  destruct (probe_uri_ctor_fails n_usb address Ha) as [e He].
  exists e. simpl. by rewrite He.
Qed.

(** C21: the constructor on [usb://i] with [i] printed in decimal
    succeeds exactly when [i] indexes one of the [n_usb] targets attached
    over USB, giving a USB connection with index [i] and every radio
    field at its default, and throws [std::out_of_range] otherwise
    (lines 27-35). *)
Theorem connection_ctor_usb (n_usb : nat) (i : N) (settings : Settings) :
  (Z.of_N i <= INT_MAX)%Z ->
  connection_ctor n_usb ("usb://" +:+ to_string_N i) settings =
  if (N.to_nat i <? n_usb)%nat
  then inr (mkConn ("usb://" +:+ to_string_N i) (Z.of_N i) true 0 Datarate_250KPS 0
              false false false false [] [] stats0)
  else inl OutOfRange.
Proof.
  intros Hi.
  assert (Hm : uri_regex_match ("usb://" +:+ to_string_N i) = Some (UsbMatch (to_string_N i)))
    by (apply uri_regex_match_complete; split; [done|apply to_string_N_digits]).
  unfold connection_ctor. rewrite Hm, stoi_to_string by done. cbn.
  by rewrite <- N_nat_Z, Nat2Z.id.
Qed.

(** C28: the channel of a [radio://] URI is bounded only by [int]: on a
    canonical URI (index within [int], 40-bit address) every channel up to
    [INT_MAX] is accepted and stored as is, far beyond the radio's 0..125,
    and the constructor throws [std::out_of_range] from [std::stoi] for
    every channel above [INT_MAX]. *)
Theorem connection_ctor_channel_bounds (n_usb : nat) (dev : option N) (ch : N) (d : Datarate)
    (addr : Z) (settings : Settings) :
  (forall k, dev = Some k -> (Z.of_N k <= INT_MAX)%Z) -> (0 <= addr < 2 ^ 40)%Z ->
  ((Z.of_N ch <= INT_MAX)%Z ->
     exists c, connection_ctor n_usb (radio_uri dev ch d addr) settings = inr c /\
               channel_ c = Z.of_N ch) /\
  ((INT_MAX < Z.of_N ch)%Z ->
     connection_ctor n_usb (radio_uri dev ch d addr) settings = inl OutOfRange).
Proof.
  intros Hdev Haddr. rewrite (connection_ctor_radio_uri n_usb dev ch d addr settings Hdev Haddr).
  split; intros Hch.
  - rewrite (proj2 (Z.leb_le _ _) Hch). by eexists.
  - by rewrite (proj2 (Z.leb_gt _ _) Hch).
Qed.

(** ** Witnesses *)

Definition S1_address : Z := 996028180455.   (** 0xE7E7E7E7E7 *)
Definition S1_uri : string := "radio://0/80/2M/E7E7E7E7E7".
Definition ex_packet0 : Packet := mkPacket 0 [] 0 default_priority.
Definition probe_S1 (u : string) : bool := String.eqb u "radio://*/80/2M/E7E7E7E7E7".

Lemma connection_ctor_radio_roundtrip_witness :
  radio_uri (Some 0%N) 80 Datarate_2MPS S1_address = S1_uri /\
  connection_ctor 0 (radio_uri (Some 0%N) 80 Datarate_2MPS S1_address) default_settings =
  inr (mkConn S1_uri 0 false 80 Datarate_2MPS S1_address false false false false [] [] stats0).
Proof.
  split; [reflexivity|].
  apply (connection_ctor_radio_roundtrip 0 (Some 0%N) 80 Datarate_2MPS S1_address default_settings).
  - intros k [= <-]. unfold INT_MAX. lia.
  - unfold INT_MAX. lia.
  - unfold S1_address. lia.
Defined.

Lemma connection_uri_verbatim_witness :
  exists c, connection_ctor 0 S1_uri default_settings = inr c /\ uri c = S1_uri.
Proof.
  eexists. split; [reflexivity|].
  apply (connection_uri_verbatim 0 S1_uri default_settings). reflexivity.
Defined.

Lemma connection_ctor_star_address_throws_witness :
  connection_ctor 0 "radio://*/80/2M/*" default_settings = inl InvalidArgument.
Proof.
  apply (connection_ctor_star_address_throws 0 _ default_settings "*" "80" "2M");
    [reflexivity|by left|eexists; reflexivity].
Defined.

Lemma radio_send_recv_null_deref_witness :
  exists c, connection_ctor 0 S1_uri default_settings = inr c /\
    send c ex_packet0 = NullDeref /\ recv c false = NullDeref /\ dtor_detaches c = true.
Proof.
  eexists. split; [reflexivity|].
  apply (radio_send_recv_null_deref 0 S1_uri default_settings _ _ _ "0" "80" "2M" "E7E7E7E7E7");
    reflexivity.
Defined.

Lemma usb_send_recv_misrouted_witness :
  exists c, connection_ctor 1 "usb://0" default_settings = inr c /\
    send c ex_packet0 = Done (queue_send_push c ex_packet0) /\ recv c true = Blocks /\
    dtor_detaches c = false.
Proof.
  eexists. split; [reflexivity|].
  apply (usb_send_recv_misrouted 1 "usb://0" default_settings _ _ "0"); reflexivity.
Defined.

Lemma scan_probes_witness :
  length (scan_uris "") = 375%nat /\
  Forall (fun u => exists c, connection_ctor 0 u default_settings = inr c /\
                             devid_ c = (-1)%Z /\ (0 <= channel_ c < 125)%Z) (scan_uris "").
Proof. apply (scan_probes 0 ""). by left. Defined.

Lemma scan_result_witness :
  scan 1 probe_S1 "" = inr ["usb://0"; "radio://*/80/2M/E7E7E7E7E7"].
Proof. rewrite (scan_result 1 probe_S1 "") by (by left). vm_compute. reflexivity. Defined.

Lemma scan_rejects_address_witness :
  exists e, scan 0 probe_S1 "*" = inl e.
Proof. apply (scan_rejects_address 0 probe_S1 "*"); [discriminate|reflexivity]. Defined.

Lemma connection_ctor_usb_witness :
  connection_ctor 2 ("usb://" +:+ to_string_N 1) default_settings =
    inr (mkConn "usb://1" 1 true 0 Datarate_250KPS 0 false false false false [] [] stats0) /\
  connection_ctor 1 ("usb://" +:+ to_string_N 1) default_settings = inl OutOfRange.
Proof.
  split.
  - rewrite (connection_ctor_usb 2 1 default_settings) by (unfold INT_MAX; lia). reflexivity.
  - rewrite (connection_ctor_usb 1 1 default_settings) by (unfold INT_MAX; lia). reflexivity.
Defined.


(** The boundary: channel [INT_MAX] is accepted, [INT_MAX + 1] throws. *)
Lemma connection_ctor_channel_bounds_witness :
  (exists c, connection_ctor 0 (radio_uri (Some 0%N) 2147483647%N Datarate_2MPS S1_address)
               default_settings = inr c /\ channel_ c = 2147483647%Z) /\
  connection_ctor 0 (radio_uri (Some 0%N) 2147483648%N Datarate_2MPS S1_address) default_settings
    = inl OutOfRange.
Proof.
  assert (Hdev : forall k, Some 0%N = Some k -> (Z.of_N k <= INT_MAX)%Z)
    by (intros k [= <-]; unfold INT_MAX; lia).
  assert (Ha : (0 <= S1_address < 2 ^ 40)%Z) by (unfold S1_address; lia).
  split.
  - apply (connection_ctor_channel_bounds 0 (Some 0%N) 2147483647%N Datarate_2MPS S1_address
             default_settings Hdev Ha). unfold INT_MAX; lia.
  - apply (connection_ctor_channel_bounds 0 (Some 0%N) 2147483648%N Datarate_2MPS S1_address
             default_settings Hdev Ha). unfold INT_MAX; lia.
Defined.
