(* ===== verification/Thread.v ===== *)
(** The per-dongle worker thread of [CrazyradioThread.cpp] and the
    attach/detach protocol against it: [addConnection] (lines 28-56),
    [removeConnection] (lines 58-76), the loop of [run] (lines 87-106),
    the constructor (lines 8-13) and the destructor's join (lines 15-21).

    The state is the [CrazyradioThread] object: [connections_] as a set
    of connection identifiers (the [std::set] of [shared_ptr]s, ordered
    by pointer, here by identifier), [connections_updated_],
    [thread_ending_], [thread_] (joinable or not, and where the thread
    is), whether [thread_mutex_] is held by a detaching caller or the
    destructor, the radio
    the worker drives and the store of the [ConnectionImpl]s the
    [shared_ptr]s point to.  Every logical connection has an owner thread,
    the one running its [Connection] constructor and destructor; its
    phase says where that thread is in [addConnection] or
    [removeConnection].

    One step of the system is one atomic section of one thread: a block
    under [connections_mutex_], a block under [thread_mutex_], one pass
    iteration of the worker over one connection.  [tstep] computes the
    step of the thread a scheduler picks, or [None] when that thread is
    blocked (on a mutex, a condition variable or a join); every
    interleaving is a list of picks.  The predicate of
    [connections_updated_cv_.wait] is a parameter of the step, so that the
    lemmas hold for any predicate; the theorems on the removal use the
    code's, [remove_wait_pred] (line 66). *)

From stdpp Require Import strings gmap.
From S2P Require Import Prelude.
From S2P Require Import Crtp.
From S2P Require Import PQueue.
From S2P Require Import Radio.
From S2P Require Import ConnImpl.
From S2P Require Import Worker.

Local Open Scope Z_scope.

(** Where the worker thread is. *)
Inductive WPhase :=
| WStart                      (** created, [run] not yet entered *)
| WTop                        (** at the top of [while (true)] *)
| WPass (pending : list nat)  (** iterating [connections_copy] *)
| WExited.                    (** [run] returned; still joinable *)

(** Where the owner thread of one connection is. *)
Inductive Phase :=
| PFresh                      (** constructed, [addConnection] not called *)
| PAddStart                   (** inserted, before the [thread_mutex_] block *)
| PAttached                   (** [addConnection] returned *)
| PRemWait (endThread : bool) (** blocked in [connections_updated_cv_.wait] *)
| PRemEnd                     (** past the wait with [endThread] set *)
| PRemJoin                    (** holding [thread_mutex_], in [thread_.join()] *)
| PDetached                   (** [removeConnection] returned *)
| PJoinError.                 (** [join()] on a non-joinable thread threw *)

#[export] Instance WPhase_eq_dec : EqDecision WPhase.
Proof. solve_decision. Defined.
#[export] Instance Phase_eq_dec : EqDecision Phase.
Proof. solve_decision. Defined.

Record TState (E : Type) := mkT {
  connections_ : gset nat;
  connections_updated_ : bool;
  thread_ending_ : bool;
  thread_ : option WPhase;          (** [Some]: [thread_.joinable()] *)
  thread_mutex_held : bool;         (** by a detaching owner or the destructor *)
  t_radio : Radio E;
  t_store : gmap nat ConnectionImpl;
  phases : gmap nat Phase
}.
Arguments mkT {E}.
Arguments connections_ {E}. Arguments connections_updated_ {E}.
Arguments thread_ending_ {E}. Arguments thread_ {E}. Arguments thread_mutex_held {E}.
Arguments t_radio {E}. Arguments t_store {E}. Arguments phases {E}.

(** Who a scheduler picks: the worker, or the owner of a connection. *)
Inductive Who := Wkr | Owner (c : nat).

(** What a step shows. *)
Inductive TLabel :=
| TSpawn                            (** [std::thread(&run, this)] *)
| TSnapshot (snap : list nat) (ending : bool)
| TCycle (c : nat) (l : list Label) (** one connection served *)
| TExit
| TAttached (c : nat)
| TDetached (c : nat)
| TJoinError (c : nat).             (** [std::system_error] from [join()] *)

Section Setters.
Context {E : Type}.
Implicit Types s : TState E.

Definition set_connections s (x : gset nat) (u : bool) : TState E :=
  mkT x u (thread_ending_ s) (thread_ s) (thread_mutex_held s) (t_radio s) (t_store s) (phases s).
Definition set_thread s (t : option WPhase) : TState E :=
  mkT (connections_ s) (connections_updated_ s) (thread_ending_ s) t (thread_mutex_held s)
    (t_radio s) (t_store s) (phases s).
Definition set_ending s (e held : bool) : TState E :=
  mkT (connections_ s) (connections_updated_ s) e (thread_ s) held (t_radio s) (t_store s) (phases s).
Definition set_radio_store s (r : Radio E) (st : gmap nat ConnectionImpl) : TState E :=
  mkT (connections_ s) (connections_updated_ s) (thread_ending_ s) (thread_ s)
    (thread_mutex_held s) r st (phases s).
Definition set_phase s (c : nat) (ph : Phase) : TState E :=
  mkT (connections_ s) (connections_updated_ s) (thread_ending_ s) (thread_ s)
    (thread_mutex_held s) (t_radio s) (t_store s) (<[c := ph]> (phases s)).

End Setters.

(** [CrazyradioThread(libusb_device* dev)], lines 8-13: no connection,
    [thread_ending_] false, no thread.  [connections_updated_] is not set
    by the constructor (its initialiser, if any, is in
    [CrazyradioThread.h], outside [src/]), so it is a parameter; [r] is
    the radio state of the dongle and [st], [ph] the connections and their
    owners as the rest of the program holds them. *)
Definition thread_ctor {E} (updated : bool) (r : Radio E) (st : gmap nat ConnectionImpl)
    (ph : gmap nat Phase) : TState E :=
  mkT ∅ updated false None false r st ph.

(** The predicate of [connections_updated_cv_.wait] in the code, line 66. *)
Definition remove_wait_pred (updated : bool) : bool := negb updated.

Section Step.
Context {E : Type}.
Variable send_fn : RadioCfg -> list Z -> E -> Ack * E.
(** [Crazyradio radio(dev_)] at the start of [run] (line 89; the driver is
    not under [src/]): what opening the dongle does to the radio. *)
Variable radio_open : Radio E -> Radio E.
(** The predicate [connections_updated_cv_.wait] waits for. *)
Variable wait_pred : bool -> bool.

(** One step of the worker thread. *)
Definition worker_step (s : TState E) : option (TState E * list TLabel) :=
  match thread_ s with
  | Some WStart =>
      Some (set_thread (set_radio_store s (radio_open (t_radio s)) (t_store s)) (Some WTop), [])
  | Some WTop =>
      (* lines 95-106: snapshot under [connections_mutex_], then test the flag *)
      let snap := elements (connections_ s) in
      let s1 := set_connections s (connections_ s) true in
      if thread_ending_ s
      then Some (set_thread s1 (Some WExited), [TSnapshot snap true; TExit])
      else Some (set_thread s1 (Some (WPass snap)), [TSnapshot snap false])
  | Some (WPass []) => Some (set_thread s (Some WTop), [])
  | Some (WPass (x :: rest)) =>
      (* lines 107-205 for one connection of the copy *)
      match t_store s !! x with
      | Some c =>
          let '(r', c', l) := con_cycle send_fn (t_radio s) c in
          Some (set_thread (set_radio_store s r' (<[x := c']> (t_store s))) (Some (WPass rest)),
                [TCycle x l])
      | None => Some (set_thread s (Some (WPass rest)), [])
      end
  | Some WExited | None => None
  end.

(** Past the wait of [removeConnection]: the [if (endThread)] of line 69. *)
Definition after_wait (s : TState E) (c : nat) (endThread : bool) : TState E * list TLabel :=
  if endThread then (set_phase s c PRemEnd, []) else (set_phase s c PDetached, [TDetached c]).

(** One step of the owner thread of connection [c]. *)
Definition owner_step (s : TState E) (c : nat) : option (TState E * list TLabel) :=
  match phases s !! c with
  | Some PFresh =>
      (* lines 31-36 *)
      Some (set_phase (set_connections s ({[c]} ∪ connections_ s) (connections_updated_ s)) c PAddStart, [])
  | Some PAddStart =>
      (* lines 38-44 *)
      if thread_mutex_held s then None
      else match thread_ s with
           | None => Some (set_phase (set_thread s (Some WStart)) c PAttached, [TSpawn; TAttached c])
           | Some _ => Some (set_phase s c PAttached, [TAttached c])
           end
  | Some PAttached =>
      (* lines 61-66: the wait returns at once when its predicate holds *)
      let conns := connections_ s ∖ {[c]} in
      let endThread := bool_decide (conns = ∅) in
      let s1 := set_connections s conns false in
      if wait_pred false then Some (after_wait s1 c endThread)
      else Some (set_phase s1 c (PRemWait endThread), [])
  | Some (PRemWait endThread) =>
      if wait_pred (connections_updated_ s) then Some (after_wait s c endThread) else None
  | Some PRemEnd =>
      (* lines 69-71 *)
      if thread_mutex_held s then None
      else Some (set_phase (set_ending s true true) c PRemJoin, [])
  | Some PRemJoin =>
      (* lines 72-74 *)
      match thread_ s with
      | Some WExited =>
          Some (set_phase (set_ending (set_thread s None) false false) c PDetached, [TDetached c])
      | Some _ => None
      | None =>
          (* [std::thread::join] on a non-joinable thread throws; the lock
             guard unwinds, [thread_ending_] stays set *)
          Some (set_phase (set_ending s true false) c PJoinError, [TJoinError c])
      end
  | Some PDetached | Some PJoinError | None => None
  end.

Definition tstep (w : Who) (s : TState E) : option (TState E * list TLabel) :=
  match w with Wkr => worker_step s | Owner c => owner_step s c end.

(** [~CrazyradioThread()], lines 15-21: take [thread_mutex_]
    ([thread_dtor_lock], blocked while a detaching owner holds it), then
    join the thread if it is joinable and release the mutex
    ([thread_dtor_join], blocked until [run] has returned).  Nothing in
    it sets [thread_ending_]. *)
Definition thread_dtor_lock (s : TState E) : option (TState E) :=
  if thread_mutex_held s then None else Some (set_ending s (thread_ending_ s) true).

Definition thread_dtor_join (s : TState E) : option (TState E) :=
  match thread_ s with
  | None => Some (set_ending s (thread_ending_ s) false)
  | Some WExited => Some (set_ending (set_thread s None) (thread_ending_ s) false)
  | Some _ => None
  end.

(** An interleaving: the picks in order; [None] if a pick is blocked. *)
Fixpoint trun (sched : list Who) (s : TState E) : option (TState E * list TLabel) :=
  match sched with
  | [] => Some (s, [])
  | w :: rest =>
      match tstep w s with
      | Some (s1, l1) =>
          match trun rest s1 with
          | Some (s2, l2) => Some (s2, l1 ++ l2)
          | None => None
          end
      | None => None
      end
  end.

(** Reachability, by steps of any thread. *)
Inductive treach : TState E -> list TLabel -> TState E -> Prop :=
| treach_refl s : treach s [] s
| treach_step s w s1 l1 l2 s2 :
    tstep w s = Some (s1, l1) -> treach s1 l2 s2 -> treach s (l1 ++ l2) s2.

End Step.

(** ** Invariants of the protocol *)

(** An initial object: no connection inserted, no thread, every owner
    before its [addConnection]. *)
Definition tinit {E} (s : TState E) : Prop :=
  connections_ s = ∅ /\ thread_ s = None /\ thread_mutex_held s = false /\
  map_Forall (fun _ ph => ph = PFresh) (phases s).

(** A freshly constructed object, before any owner has called
    [addConnection], is initial. *)
Lemma thread_ctor_tinit {E} (u : bool) (r : Radio E) (st : gmap nat ConnectionImpl) (ph : gmap nat Phase) :
  map_Forall (fun _ p => p = PFresh) ph -> tinit (thread_ctor u r st ph).
Proof. intros H. by split_and!. Qed.

Ltac tstep_cases H :=
  unfold tstep, worker_step, owner_step, after_wait in H;
  repeat (case_match; simplify_eq/=); try done.

Section Runs.
Context {E : Type}.
Variable send_fn : RadioCfg -> list Z -> E -> Ack * E.
Variable radio_open : Radio E -> Radio E.
Variable wait_pred : bool -> bool.

Lemma trun_treach (sched : list Who) (s s' : TState E) (l : list TLabel) :
  trun send_fn radio_open wait_pred sched s = Some (s', l) ->
  treach send_fn radio_open wait_pred s l s'.
Proof.
  revert s l. induction sched as [|w sched IH]; intros s l H; simpl in H; [simplify_eq; constructor|].
  destruct (tstep _ _ _ w s) as [[s1 l1]|] eqn:H1; [|done].
  destruct (trun _ _ _ sched s1) as [[s2 l2]|] eqn:H2; [|done]. simplify_eq.
  econstructor; [exact H1|]. by apply IH.
Qed.

End Runs.

(** ** Detach *)

(** C16: with the predicate the code passes, [!connections_updated_]
    (line 66), the wait of [removeConnection] returns at once, since the
    line before has just cleared the flag: the owner of a connection
    still pending in the worker's current pass returns from
    [removeConnection], and the worker's next step serves that connection
    and writes its state (specification, section 8, invariant 4, does not
    hold). *)
Theorem remove_returns_before_pass_ends {E : Type} (send_fn : RadioCfg -> list Z -> E -> Ack * E)
    (radio_open : Radio E -> Radio E) (s : TState E) (c d : nat) (rest : list nat)
    (cc : ConnectionImpl) :
  phases s !! c = Some PAttached -> d ∈ connections_ s -> d <> c ->
  thread_ s = Some (WPass (c :: rest)) -> t_store s !! c = Some cc ->
  exists s' ls,
    trun send_fn radio_open remove_wait_pred [Owner c; Wkr] s = Some (s', [TDetached c; TCycle c ls]) /\
    phases s' !! c = Some PDetached /\
    t_store s' !! c = Some (con_cycle send_fn (t_radio s) cc).1.2.
Proof.
  intros Hc Hd Hne Ht Hst. cbn. unfold owner_step. rewrite Hc. cbn.
  rewrite bool_decide_eq_false_2 by set_solver. cbn. unfold worker_step. cbn. rewrite Ht. cbn. rewrite Hst.
  destruct (con_cycle send_fn (t_radio s) cc) as [[r' c'] l'] eqn:Hcc.
  eexists _, l'. split_and!; [reflexivity| |]; cbn; by simplify_map_eq.
Qed.

(** ** The last removal against an addition *)

(** C17: [removeConnection] decides [endThread] under
    [connections_mutex_] but acts on it later under [thread_mutex_]:
    when the last connection [c] is removed while the owner of [d] adds
    it in between, [addConnection] finds the old thread still joinable
    and starts none, and the removal then ends and joins it.  The object
    is left with [d] attached and no worker (section 8, invariant 5, does
    not hold), and removing [d] afterwards calls [join()] on a
    non-joinable [std::thread], which throws from the destructor of
    [Connection]. *)
Theorem add_during_last_remove_orphans {E : Type} (send_fn : RadioCfg -> list Z -> E -> Ack * E)
    (radio_open : Radio E -> Radio E) (s : TState E) (c d : nat) :
  phases s !! c = Some PAttached -> phases s !! d = Some PFresh -> c <> d ->
  connections_ s = {[c]} -> thread_ s = Some WTop -> thread_mutex_held s = false ->
  exists s' l s'',
    trun send_fn radio_open remove_wait_pred [Owner c; Owner d; Owner d; Owner c; Wkr; Owner c] s
      = Some (s', l) /\
    connections_ s' = {[d]} /\ thread_ s' = None /\
    phases s' !! d = Some PAttached /\ phases s' !! c = Some PDetached /\
    trun send_fn radio_open remove_wait_pred [Owner d; Owner d; Owner d] s' = Some (s'', [TJoinError d]).
Proof.
  intros Hc Hd Hne Hconn Ht Hm.
  unfold trun, tstep.
  repeat first [ progress cbn | progress unfold owner_step, worker_step, after_wait, set_phase, set_ending, set_thread, set_connections
               | progress simplify_map_eq | progress rewrite ?Ht, ?Hm, ?Hconn
               | rewrite bool_decide_eq_true_2 by set_solver ].
  do 3 eexists. split; [reflexivity|].
  repeat first [ progress cbn | progress unfold owner_step, worker_step, after_wait, set_phase, set_ending, set_thread, set_connections
               | progress simplify_map_eq
               | rewrite bool_decide_eq_true_2 by set_solver ].
  split_and!; [set_solver|done..].
Qed.

(** ** Teardown *)

(** The owner is inside [removeConnection], before it returns. *)
Definition in_remove (ph : Phase) : bool :=
  match ph with PRemWait _ | PRemEnd | PRemJoin => true | _ => false end.

Section Teardown.
Context {E : Type}.
Variable send_fn : RadioCfg -> list Z -> E -> Ack * E.
Variable radio_open : Radio E -> Radio E.
Variable wait_pred : bool -> bool.

(** An added connection stays in the set until its own removal; a
    joinable thread with an empty set is being ended by a removal that
    saw the set empty. *)
Record teardown_inv (s : TState E) : Prop := {
  ti_member : forall c ph, phases s !! c = Some ph -> (ph = PAddStart \/ ph = PAttached) ->
              c ∈ connections_ s;
  ti_stopping : thread_ s <> None -> connections_ s = ∅ ->
              exists c ph, phases s !! c = Some ph /\ in_remove ph = true /\ ph <> PRemWait false
}.

Lemma teardown_inv_init (s : TState E) : tinit s -> teardown_inv s.
Proof.
  intros (Hc & Ht & _ & Hp). split; [|by rewrite Ht].
  intros c ph Hph. rewrite map_Forall_lookup in Hp. by rewrite (Hp _ _ Hph); intros [].
Qed.

Lemma teardown_inv_step (w : Who) (s s' : TState E) (l : list TLabel) :
  teardown_inv s -> tstep send_fn radio_open wait_pred w s = Some (s', l) -> teardown_inv s'.
Proof.
  intros [Hm Hs] H. tstep_cases H.
  all: constructor; simpl; [intros cx phx Hph Hor|intros Hnone Hempty].
  all: rewrite ?lookup_insert_Some in *; rewrite ?bool_decide_eq_true, ?bool_decide_eq_false in *.
  all: repeat match goal with H : _ \/ _ |- _ => destruct H end; destruct_and?; simplify_eq/=.
  all: repeat match goal with
         | H : phases _ !! ?c = Some ?ph |- _ =>
             try pose proof (Hm c ph H ltac:(by auto)); revert H
         end; intros.
  all: try (match goal with |- _ ∈ _ => clear Hm Hs; set_solver end).
  all: try (match goal with H : {[_]} ∪ _ = ∅ |- _ => exfalso; clear Hm Hs; set_solver end).
  all: try (match goal with H : _ ∈ ?X, H' : ?X = ∅ |- _ => exfalso; rewrite H' in H; set_solver end).
  all: try (apply Hs; [congruence|done]).
  all: try (eexists c, _; rewrite lookup_insert_eq, ?bool_decide_eq_true_2 by done; done).
  all: destruct (Hs ltac:(done) ltac:(done)) as (c' & ph' & Hc' & Hin & Hne').
  all: exists c', ph'; rewrite lookup_insert_ne; [done|intros ->; congruence].
Qed.

Lemma teardown_inv_reach (s s' : TState E) (l : list TLabel) :
  teardown_inv s -> treach send_fn radio_open wait_pred s l s' -> teardown_inv s'.
Proof.
  intros Hi Hr. induction Hr as [|s w s1 l1 l2 s2 Hst _ IH]; [done|].
  apply IH. by eapply teardown_inv_step.
Qed.

Lemma trun_step (w : Who) (sched : list Who) (s s1 : TState E) (l1 : list TLabel) :
  tstep send_fn radio_open wait_pred w s = Some (s1, l1) ->
  trun send_fn radio_open wait_pred (w :: sched) s =
  option_map (fun '(s2, l2) => (s2, l1 ++ l2)) (trun send_fn radio_open wait_pred sched s1).
Proof. intros H. simpl. rewrite H. by destruct (trun _ _ _ sched s1) as [[]|]. Qed.

End Teardown.

Lemma repeat_wrap {A} (x : A) (n : nat) : repeat x (n + 2) = x :: repeat x n ++ [x].
Proof. induction n as [|n IH]; [done|]. cbn in *. by rewrite IH. Qed.

(** The worker's own steps, from a point of its loop until it returns:
    the rest of the pass, the step back to the top, the snapshot. *)
Definition worker_fuel (w : WPhase) : nat :=
  match w with WStart => 2 | WTop => 1 | WPass l => length l + 2 | WExited => 0 end.

(** The worker's own steps back to the top of its loop. *)
Definition fuel_to_top (w : WPhase) : nat :=
  match w with WStart => 1 | WTop => 0 | WPass l => length l + 1 | WExited => 0 end.

Lemma worker_fuel_top (w : WPhase) : w <> WExited -> worker_fuel w = (fuel_to_top w + 1)%nat.
Proof. intros Hw. destruct w; cbn; [lia|lia|lia|done]. Qed.

(** The labels of the connections served, tagged as [run_pass] tags them. *)
Fixpoint tcycle_labels (l : list TLabel) : list (nat * Label) :=
  match l with
  | [] => []
  | TCycle x ls :: l' => map (pair x) ls ++ tcycle_labels l'
  | _ :: l' => tcycle_labels l'
  end.

Lemma tcycle_labels_app (l1 l2 : list TLabel) :
  tcycle_labels (l1 ++ l2) = tcycle_labels l1 ++ tcycle_labels l2.
Proof. induction l1 as [|[] l1 IH]; simpl; rewrite ?IH, ?app_assoc; done. Qed.

(** C18: in every interleaving from an initial object, when no owner is
    inside [removeConnection] and the set of connections is empty, the
    worker has been joined and [thread_] is empty: the half of invariant 5
    of the specification (section 8) that the code keeps, and the
    teardown of scenario S6. *)
Theorem worker_stopped_when_empty {E : Type} (send_fn : RadioCfg -> list Z -> E -> Ack * E)
    (radio_open : Radio E -> Radio E) (wait_pred : bool -> bool) (s0 s : TState E) (l : list TLabel) :
  tinit s0 -> treach send_fn radio_open wait_pred s0 l s ->
  (forall c ph, phases s !! c = Some ph -> in_remove ph = false) ->
  connections_ s = ∅ -> thread_ s = None.
Proof.
  intros H0 Hr Hq He.
  destruct (teardown_inv_reach send_fn radio_open wait_pred s0 s l (teardown_inv_init s0 H0) Hr)
    as [_ Hs].
  destruct (thread_ s) as [w|] eqn:Ht; [|done].
  destruct (Hs ltac:(done) He) as (c & ph & Hc & Hin & _). by rewrite (Hq _ _ Hc) in Hin.
Qed.

Section Worker_runs.
Context {E : Type}.
Variable send_fn : RadioCfg -> list Z -> E -> Ack * E.
Variable radio_open : Radio E -> Radio E.
Variable wait_pred : bool -> bool.

(** The rest of a pass, run without interruption. *)
Lemma worker_pass_run (l : list nat) (s : TState E) :
  thread_ s = Some (WPass l) ->
  exists s' ls, trun send_fn radio_open wait_pred (repeat Wkr (length l)) s = Some (s', ls) /\
    thread_ s' = Some (WPass []) /\
    run_pass send_fn (t_radio s) (t_store s) l = (t_radio s', t_store s', tcycle_labels ls) /\
    phases s' = phases s /\ connections_ s' = connections_ s /\
    thread_ending_ s' = thread_ending_ s /\ connections_updated_ s' = connections_updated_ s.
Proof.
  revert s. induction l as [|x rest IH]; intros s Ht.
  { exists s, []. by split_and!. }
  destruct (t_store s !! x) as [c|] eqn:Hx.
  - destruct (con_cycle send_fn (t_radio s) c) as [[r' c'] lc] eqn:Hcc.
    set (s1 := set_thread (set_radio_store s r' (<[x := c']> (t_store s))) (Some (WPass rest))).
    assert (Hst : tstep send_fn radio_open wait_pred Wkr s = Some (s1, [TCycle x lc]))
      by (cbn; unfold worker_step; rewrite Ht, Hx, Hcc; reflexivity).
    destruct (IH s1 eq_refl) as (s' & ls & Hrun & Ht' & Hp & Hph & Hc & He & Hu).
    exists s', (TCycle x lc :: ls). cbn [repeat length].
    rewrite (trun_step _ _ _ _ _ _ _ _ Hst), Hrun. split_and!; try done.
    cbn. rewrite Hx, Hcc. cbn in Hp. by rewrite Hp.
  - set (s1 := set_thread s (Some (WPass rest))).
    assert (Hst : tstep send_fn radio_open wait_pred Wkr s = Some (s1, []))
      by (cbn; unfold worker_step; rewrite Ht, Hx; reflexivity).
    destruct (IH s1 eq_refl) as (s' & ls & Hrun & Ht' & Hp & Hph & Hc & He & Hu).
    exists s', ls. cbn [repeat length].
    rewrite (trun_step _ _ _ _ _ _ _ _ Hst), Hrun. split_and!; try done.
    cbn. by rewrite Hx.
Qed.

Lemma trun_app (a b : list Who) (s s1 : TState E) (l1 : list TLabel) :
  trun send_fn radio_open wait_pred a s = Some (s1, l1) ->
  trun send_fn radio_open wait_pred (a ++ b) s =
  option_map (fun '(s2, l2) => (s2, l1 ++ l2)) (trun send_fn radio_open wait_pred b s1).
Proof.
  revert s l1. induction a as [|w a IH]; intros s l1 H; simpl in H |- *.
  - simplify_eq. by destruct (trun _ _ _ b s1) as [[]|].
  - destruct (tstep _ _ _ w s) as [[s2 l2]|]; [|done].
    destruct (trun _ _ _ a s2) as [[s3 l3]|] eqn:Ha; [|done]. simplify_eq.
    rewrite (IH _ _ Ha). destruct (trun _ _ _ b s1) as [[]|]; simpl; by rewrite ?app_assoc.
Qed.

(** The snapshot at the top of the loop. *)
Lemma worker_top_step (s : TState E) :
  thread_ s = Some WTop ->
  tstep send_fn radio_open wait_pred Wkr s =
  Some (set_thread (set_connections s (connections_ s) true)
          (Some (if thread_ending_ s then WExited else WPass (elements (connections_ s)))),
        TSnapshot (elements (connections_ s)) (thread_ending_ s) ::
        (if thread_ending_ s then [TExit] else [])).
Proof. intros Ht. cbn. unfold worker_step. rewrite Ht. by destruct (thread_ending_ s). Qed.

(** From anywhere in its loop, the worker gets back to the top by its own
    steps, never blocked, without touching the set, the owners or the
    flag. *)
Lemma worker_to_top (s : TState E) (w : WPhase) :
  thread_ s = Some w -> w <> WExited ->
  exists s1 ls, trun send_fn radio_open wait_pred (repeat Wkr (fuel_to_top w)) s = Some (s1, ls) /\
    thread_ s1 = Some WTop /\ phases s1 = phases s /\ connections_ s1 = connections_ s /\
    thread_ending_ s1 = thread_ending_ s.
Proof.
  intros Ht Hw. destruct w as [| |l|]; cbn [fuel_to_top]; [|by exists s, []; split_and!| |done].
  - assert (Hst : tstep send_fn radio_open wait_pred Wkr s =
                  Some (set_thread (set_radio_store s (radio_open (t_radio s)) (t_store s)) (Some WTop), []))
      by (cbn; unfold worker_step; by rewrite Ht).
    eexists _, []. cbn [repeat]. by rewrite (trun_step _ _ _ _ _ _ _ _ Hst).
  - destruct (worker_pass_run l s Ht) as (s1 & l1 & Hr1 & Ht1 & _ & Hp1 & Hc1 & He1 & _).
    assert (Hst : tstep send_fn radio_open wait_pred Wkr s1 = Some (set_thread s1 (Some WTop), []))
      by (cbn; unfold worker_step; by rewrite Ht1).
    exists (set_thread s1 (Some WTop)), (l1 ++ []).
    rewrite repeat_app, (trun_app _ _ _ _ _ Hr1). cbn [repeat].
    rewrite (trun_step _ _ _ _ _ _ _ _ Hst). by cbn.
Qed.

End Worker_runs.

(** ** The destructor *)

Section Destructor.
Context {E : Type}.
Variable send_fn : RadioCfg -> list Z -> E -> Ack * E.
Variable radio_open : Radio E -> Radio E.
Variable wait_pred : bool -> bool.

(** While the destructor holds [thread_mutex_] and waits in [join()]: the
    flag stays down, so the worker keeps running, and no owner can take
    the mutex to raise it. *)
Record dtor_blocked (s : TState E) : Prop := {
  db_held : thread_mutex_held s = true;
  db_ending : thread_ending_ s = false;
  db_running : exists w, thread_ s = Some w /\ w <> WExited;
  db_nojoin : forall c, phases s !! c <> Some PRemJoin
}.

Lemma dtor_blocked_step (w : Who) (s s' : TState E) (l : list TLabel) :
  dtor_blocked s -> tstep send_fn radio_open wait_pred w s = Some (s', l) -> dtor_blocked s'.
Proof.
  intros [Hh He [w0 [Ht Hw]] Hj] H. tstep_cases H.
  all: constructor; cbn; try done; try congruence; try (by eexists; split).
  all: try (specialize (Hj c); congruence).
  all: intros c'; destruct (decide (c = c')) as [<-|Hne];
         [rewrite lookup_insert_eq; congruence|rewrite lookup_insert_ne; auto].
Qed.

Lemma dtor_blocked_run (sched : list Who) (s s' : TState E) (l : list TLabel) :
  dtor_blocked s -> trun send_fn radio_open wait_pred sched s = Some (s', l) -> dtor_blocked s'.
Proof.
  intros Hb Hr. apply trun_treach in Hr. induction Hr as [|s w s1 l1 l2 s2 Hst _ IH]; [done|].
  apply IH. by eapply dtor_blocked_step.
Qed.

End Destructor.

(** C22: [~CrazyradioThread] joins without asking the worker to stop:
    destroyed while its worker runs (no removal of the last connection
    under way), it takes [thread_mutex_] and then, whatever the other
    threads do afterwards, its [join()] never returns, since only a
    removal holding that mutex raises [thread_ending_]. *)
Theorem thread_dtor_hangs {E : Type} (send_fn : RadioCfg -> list Z -> E -> Ack * E)
    (radio_open : Radio E -> Radio E) (wait_pred : bool -> bool) (s s1 : TState E) (w : WPhase) :
  thread_ending_ s = false -> thread_ s = Some w -> w <> WExited ->
  (forall c, phases s !! c <> Some PRemJoin) ->
  thread_dtor_lock s = Some s1 ->
  forall sched s' l, trun send_fn radio_open wait_pred sched s1 = Some (s', l) ->
    thread_dtor_join s' = None.
Proof.
  intros He Ht Hw Hj Hl sched s' l Hr. unfold thread_dtor_lock in Hl.
  destruct (thread_mutex_held s); [done|]. injection Hl as <-.
  destruct (dtor_blocked_run send_fn radio_open wait_pred sched (set_ending s (thread_ending_ s) true) s' l)
    as [_ _ [w' [Ht' Hw']] _]; [split; cbn; eauto|done|].
  unfold thread_dtor_join. rewrite Ht'. by destruct w'.
Qed.

(** C19: the worker never blocks, and once [thread_ending_] is set it
    returns from [run] within one pass: from wherever it is in its loop,
    after [worker_fuel] of its own steps (at most the rest of the pass
    plus two) it has exited, without touching the set or the owners
    (specification, section 7, cancellation latency of one pass). *)
Theorem worker_exits_within_pass {E : Type} (send_fn : RadioCfg -> list Z -> E -> Ack * E)
    (radio_open : Radio E -> Radio E) (wait_pred : bool -> bool) (s : TState E) (w : WPhase) :
  thread_ending_ s = true -> thread_ s = Some w ->
  exists s' ls, trun send_fn radio_open wait_pred (repeat Wkr (worker_fuel w)) s = Some (s', ls) /\
    thread_ s' = Some WExited /\
    phases s' = phases s /\ connections_ s' = connections_ s.
Proof.
  intros He Ht. destruct (decide (w = WExited)) as [->|Hw]; [by exists s, []|].
  destruct (worker_to_top send_fn radio_open wait_pred s w Ht Hw) as (s1 & l1 & Hr1 & Ht1 & Hp1 & Hc1 & He1).
  pose proof (worker_top_step send_fn radio_open wait_pred _ Ht1) as Hst. rewrite He1, He in Hst.
  exists (set_thread (set_connections s1 (connections_ s1) true) (Some WExited)),
         (l1 ++ [TSnapshot (elements (connections_ s1)) true; TExit]).
  rewrite worker_fuel_top, repeat_app, (trun_app _ _ _ _ _ _ _ _ Hr1) by done. cbn [repeat].
  rewrite (trun_step _ _ _ _ _ _ _ _ Hst). cbn. by split_and!.
Qed.

(** ** Witnesses *)

(** Two radio connections on one dongle, neither added yet; the air
    acknowledges the first frame with a two-byte payload. *)
Definition init_two : TState (list Ack) :=
  thread_ctor false (ex_radio [ack_with [16; 7]])
    (<[1%nat := ex_con false]> {[2%nat := ex_con false]})
    (<[1%nat := PFresh]> {[2%nat := PFresh]}).

Definition after (wp : bool -> bool) (sched : list Who) (s : TState (list Ack))
  : TState (list Ack) * list TLabel :=
  default (s, []) (trun scripted (fun r => r) wp sched s).

(** Scenario S6 with the code's wait: both added, both removed. *)
Definition s6_sched : list Who :=
  [Owner 1; Owner 1; Owner 2; Owner 2; Wkr; Wkr; Owner 1; Owner 2; Owner 2; Wkr; Wkr; Wkr; Wkr; Owner 2].

Ltac tdecide :=
  first [ solve [apply map_Forall_to_list; vm_compute; repeat constructor]
        | vm_compute; first [reflexivity | lia | apply (bool_decide_unpack _); vm_compute; reflexivity] ].

Lemma init_two_tinit : tinit init_two.
Proof. apply thread_ctor_tinit. tdecide. Qed.

Lemma remove_returns_before_pass_ends_witness :
  exists s' ls,
    trun scripted (fun r => r) remove_wait_pred [Owner 2; Wkr]
      (after remove_wait_pred [Owner 1; Owner 1; Owner 2; Owner 2; Wkr; Wkr] init_two).1
      = Some (s', [TDetached 2; TCycle 2 ls]) /\
    phases s' !! 2%nat = Some PDetached /\
    t_store s' !! 2%nat = Some (con_cycle scripted
      (t_radio (after remove_wait_pred [Owner 1; Owner 1; Owner 2; Owner 2; Wkr; Wkr] init_two).1)
      (ex_con false)).1.2.
Proof.
  apply (remove_returns_before_pass_ends scripted (fun r => r) _ 2 1 [1%nat] (ex_con false)); tdecide.
Defined.

Lemma add_during_last_remove_orphans_witness :
  exists s' l s'',
    trun scripted (fun r => r) remove_wait_pred [Owner 1; Owner 2; Owner 2; Owner 1; Wkr; Owner 1]
      (after remove_wait_pred [Owner 1; Owner 1; Wkr] init_two).1 = Some (s', l) /\
    connections_ s' = {[2%nat]} /\ thread_ s' = None /\
    phases s' !! 2%nat = Some PAttached /\ phases s' !! 1%nat = Some PDetached /\
    trun scripted (fun r => r) remove_wait_pred [Owner 2; Owner 2; Owner 2] s' = Some (s'', [TJoinError 2]).
Proof. apply (add_during_last_remove_orphans scripted (fun r => r) _ 1 2); tdecide. Defined.

Lemma worker_stopped_when_empty_witness :
  thread_ (after remove_wait_pred s6_sched init_two).1 = None.
Proof.
  apply (worker_stopped_when_empty scripted (fun r => r) remove_wait_pred init_two _
           (after remove_wait_pred s6_sched init_two).2).
  - apply init_two_tinit.
  - apply (trun_treach _ _ _ s6_sched). tdecide.
  - change (map_Forall (fun _ ph => in_remove ph = false) (phases (after remove_wait_pred s6_sched init_two).1)).
    tdecide.
  - tdecide.
Defined.

Lemma worker_exits_within_pass_witness :
  exists s' ls,
    trun scripted (fun r => r) remove_wait_pred (repeat Wkr (worker_fuel (WPass [2; 1]%nat)))
      (after remove_wait_pred [Owner 1; Owner 1; Owner 2; Owner 2; Wkr; Wkr; Owner 1; Owner 2; Owner 2] init_two).1
      = Some (s', ls) /\
    thread_ s' = Some WExited /\
    phases s' = phases (after remove_wait_pred [Owner 1; Owner 1; Owner 2; Owner 2; Wkr; Wkr; Owner 1; Owner 2; Owner 2] init_two).1 /\
    connections_ s' = connections_ (after remove_wait_pred [Owner 1; Owner 1; Owner 2; Owner 2; Wkr; Wkr; Owner 1; Owner 2; Owner 2] init_two).1.
Proof. apply (worker_exits_within_pass scripted (fun r => r) remove_wait_pred); tdecide. Defined.

Definition dtor_state : TState (list Ack) := (after remove_wait_pred [Owner 1; Owner 1; Wkr] init_two).1.
Definition dtor_sched : list Who := [Wkr; Wkr; Owner 1; Owner 2; Wkr; Wkr].

Lemma thread_dtor_hangs_witness :
  thread_dtor_lock dtor_state = Some (set_ending dtor_state false true) /\
  exists s' l,
    trun scripted (fun r => r) remove_wait_pred dtor_sched (set_ending dtor_state false true) = Some (s', l) /\
    thread_dtor_join s' = None.
Proof.
  split; [tdecide|].
  destruct (trun scripted (fun r => r) remove_wait_pred dtor_sched (set_ending dtor_state false true))
    as [[s' l]|] eqn:Hr; [|vm_compute in Hr; discriminate].
  exists s', l. split; [reflexivity|].
  refine (thread_dtor_hangs scripted (fun r => r) remove_wait_pred dtor_state
            (set_ending dtor_state false true) WTop _ _ _ _ _ dtor_sched s' l Hr); try tdecide.
  intros c Hc.
  assert (Hf : map_Forall (fun _ ph => bool_decide (ph = PRemJoin) = false) (phases dtor_state))
    by tdecide.
  pose proof (Hf c _ Hc) as Hb. cbv beta in Hb. by rewrite bool_decide_eq_true_2 in Hb.
Defined.
